(** * Weather forecast scraper (v0.2.3): retrieval and retry core

    A shallow embedding of [weather_forecast_scraper_v0.2.3.py]: the failure
    lists, the scrape functions, the two re-scraping loops and the block that
    saves one CSV file per source.  Python code that mutates the module
    globals, talks to the outside world or raises is written in a small
    state-and-exception monad over a [world]. *)

From Stdlib Require Import String Ascii List Bool Arith Lia.
Import ListNotations.
Local Open Scope string_scope.
Local Open Scope list_scope.


(* ===================================================================== *)
(** ** Python values, equality and the [in] operator *)
(* ===================================================================== *)

(** The values that meet in a membership test of the program: strings and
    tuples.  [==] between a string and a tuple is [False] in Python. *)
#[local] Unset Elimination Schemes.
Inductive pyval : Type :=
| PyStr (s : string)
| PyTuple (items : list pyval).
#[local] Set Elimination Schemes.

Fixpoint py_eqb (a b : pyval) {struct a} : bool :=
  match a, b with
  | PyStr s, PyStr t => String.eqb s t
  | PyTuple xs, PyTuple ys =>
      (fix items_eqb (xs ys : list pyval) {struct xs} : bool :=
         match xs, ys with
         | [], [] => true
         | x :: xs', y :: ys' => py_eqb x y && items_eqb xs' ys'
         | _, _ => false
         end) xs ys
  | _, _ => false
  end.

(** [x in l] on a list: some element compares equal to [x]. *)
Definition py_in (x : pyval) (l : list pyval) : bool := existsb (py_eqb x) l.

(** An element of [FAILED_URLS] / [FAILED_URLS_AERIS]: the tuple
    [(url, loc, source)]. *)
Definition failed_url : Type := (string * string * string)%type.

Definition tuple_val (t : failed_url) : pyval :=
  let '(url, loc, source) := t in PyTuple [PyStr url; PyStr loc; PyStr source].

Definition failed_endpoint (t : failed_url) : string := fst (fst t).

(* ===================================================================== *)
(** ** Exceptions *)
(* ===================================================================== *)

(** Subclasses of Python's [Exception]; every one of them is caught by
    [except Exception]. *)
Inductive exn : Type :=
| ValueError (msg : string)
| KeyError (key : string)
| IndexError (msg : string)
| UnboundLocalError (name : string)
| TimeoutException
| WebDriverException (msg : string)
| RequestException (msg : string)
| OSError (msg : string)
| AttributeError (msg : string).

(* ===================================================================== *)
(** ** Tables (pandas) *)
(* ===================================================================== *)

(** A table row: its cells by column name. *)
Definition table_row : Type := list (string * string).

Record DataFrame : Type := mkDataFrame {
  columns : list string;
  rows : list table_row
}.

(** [pd.DataFrame()] *)
Definition pd_DataFrame : DataFrame := mkDataFrame [] [].

Definition has_column (df : DataFrame) (c : string) : bool :=
  existsb (String.eqb c) (columns df).

Definition set_cell (c v : string) (r : table_row) : table_row :=
  if existsb (fun cell => String.eqb c (fst cell)) r
  then map (fun cell => if String.eqb c (fst cell) then (c, v) else cell) r
  else r ++ [(c, v)].

(** [df[c] = v] with a scalar [v]. *)
Definition set_column (df : DataFrame) (c v : string) : DataFrame :=
  mkDataFrame
    (if has_column df c then columns df else columns df ++ [c])
    (map (set_cell c v) (rows df)).

Fixpoint union_columns (acc : list string) (cs : list string) : list string :=
  match cs with
  | [] => acc
  | c :: cs' =>
      if existsb (String.eqb c) acc then union_columns acc cs'
      else union_columns (acc ++ [c]) cs'
  end.

(** The table [pd.concat] builds from a non-empty list: the rows of all the
    tables, in order, over the union of their columns. *)
Definition concat_frames (objs : list DataFrame) : DataFrame :=
  mkDataFrame
    (fold_left (fun acc df => union_columns acc (columns df)) objs [])
    (flat_map rows objs).

Definition cell_of (c : string) (r : table_row) : string :=
  match find (fun cell => String.eqb c (fst cell)) r with
  | Some cell => snd cell
  | None => ""
  end.

(* ===================================================================== *)
(** ** The outside world *)
(* ===================================================================== *)

(** The calls the program makes to the browser, the network, the disk and
    the random generator. *)
Inductive query : Type :=
| QRandint (lo hi : nat)            (* random.randint(lo, hi) *)
| QLaunch                           (* ChromeDriverManager().install(), webdriver.Chrome(...) *)
| QGet (url : string)               (* driver.get(url) *)
| QWait (url selector : string)     (* WebDriverWait(driver, 30).until(presence_of_element_located) *)
| QClickable (session : nat) (selector : string)
                                    (* WebDriverWait(driver, 30).until(element_to_be_clickable) *)
| QFind (session : nat) (selector : string)
                                    (* driver.find_element(...) *)
| QScript (session : nat)           (* driver.execute_script('arguments[0].click();', button) *)
| QParse (source url : string)      (* parse_weather_data_<source>(driver.page_source) *)
| QRequest (url : string)           (* requests.get(url, timeout=30) *)
| QJson (url : string)              (* parse_weather_data_aeris(response.json()) *)
| QToCsv (name : string).           (* DataFrame.to_csv(...) *)

Definition query_eq_dec (a b : query) : {a = b} + {a <> b}.
Proof.
  decide equality; first [apply string_dec | apply Nat.eq_dec].
Defined.

(** What the outside world answers to a call: an exception or not, and the
    table or the number the call returns when it does not raise. *)
Record answer : Type := mkAnswer {
  err : option exn;
  frame : DataFrame;
  number : nat
}.

(** A driver object is known by the handle of its browser session. *)
Definition driver : Type := nat.

(** The state of a run.  [FAILED_URLS] and [FAILED_URLS_AERIS] are the module
    globals; [open_sessions] are the handles of the browser sessions that were
    started; [asked] is the log of the calls made so far;
    [csv_attempts] are the files [to_csv] was called for and [csv_files] the
    files it wrote; [net] is the outside world: [net q n] answers the call [q]
    when it was made [n] times before. *)
Record world : Type := mkWorld {
  FAILED_URLS : list failed_url;
  FAILED_URLS_AERIS : list failed_url;
  open_sessions : list nat;
  asked : list query;
  csv_attempts : list string;
  csv_files : list (string * DataFrame);
  net : query -> nat -> answer
}.

Definition set_FAILED_URLS (l : list failed_url) (w : world) : world :=
  mkWorld l (FAILED_URLS_AERIS w) (open_sessions w) (asked w)
          (csv_attempts w) (csv_files w) (net w).

Definition set_FAILED_URLS_AERIS (l : list failed_url) (w : world) : world :=
  mkWorld (FAILED_URLS w) l (open_sessions w) (asked w)
          (csv_attempts w) (csv_files w) (net w).

Definition set_open_sessions (l : list nat) (w : world) : world :=
  mkWorld (FAILED_URLS w) (FAILED_URLS_AERIS w) l (asked w)
          (csv_attempts w) (csv_files w) (net w).

Definition set_asked (l : list query) (w : world) : world :=
  mkWorld (FAILED_URLS w) (FAILED_URLS_AERIS w) (open_sessions w) l
          (csv_attempts w) (csv_files w) (net w).

Definition set_csv_attempts (l : list string) (w : world) : world :=
  mkWorld (FAILED_URLS w) (FAILED_URLS_AERIS w) (open_sessions w) (asked w)
          l (csv_files w) (net w).

Definition set_csv_files (l : list (string * DataFrame)) (w : world) : world :=
  mkWorld (FAILED_URLS w) (FAILED_URLS_AERIS w) (open_sessions w) (asked w)
          (csv_attempts w) l (net w).

(** A fresh run: nothing failed, no session, no file. *)
Definition start (outside : query -> nat -> answer) : world :=
  mkWorld [] [] [] [] [] [] outside.

(* ===================================================================== *)
(** ** The monad: state, exceptions, and running out of fuel *)
(* ===================================================================== *)

(** A computation returns a value, raises, or is cut because a [while] loop
    used up the iterations it was given. *)
Inductive result (A : Type) : Type :=
| Ok (a : A)
| Raise (e : exn)
| OutOfFuel.

Arguments Ok {A} a.
Arguments Raise {A} e.
Arguments OutOfFuel {A}.

Definition M (A : Type) : Type := world -> result A * world.

Definition ret {A} (a : A) : M A := fun w => (Ok a, w).

Definition raise {A} (e : exn) : M A := fun w => (Raise e, w).

Definition bind {A B} (c : M A) (k : A -> M B) : M B :=
  fun w =>
    match c w with
    | (Ok a, w') => k a w'
    | (Raise e, w') => (Raise e, w')
    | (OutOfFuel, w') => (OutOfFuel, w')
    end.

(** [try: c  except Exception as e: h e] *)
Definition try_except {A} (c : M A) (h : exn -> M A) : M A :=
  fun w =>
    match c w with
    | (Raise e, w') => h e w'
    | other => other
    end.

Notation "x <- c ;; k" := (bind c (fun x => k))
  (at level 61, c at next level, right associativity).
Notation "c ;;; k" := (bind c (fun _ => k))
  (at level 61, right associativity).

(** One call to the outside world: logged, and answered by [net]. *)
Definition ask (q : query) : M answer :=
  fun w =>
    (Ok (net w q (count_occ query_eq_dec (asked w) q)),
     set_asked (asked w ++ [q]) w).

(** A call made for its effect. *)
Definition call (q : query) : M unit :=
  a <- ask q ;;
  match err a with
  | Some e => raise e
  | None => ret tt
  end.

(** A call that returns a table. *)
Definition call_frame (q : query) : M DataFrame :=
  a <- ask q ;;
  match err a with
  | Some e => raise e
  | None => ret (frame a)
  end.

(** [random.randint(lo, hi)]: a number between [lo] and [hi], both included. *)
Definition random_randint (lo hi : nat) : M nat :=
  a <- ask (QRandint lo hi) ;;
  ret (lo + number a mod (hi - lo + 1)).

(* ===================================================================== *)
(** ** pandas operations that may raise *)
(* ===================================================================== *)

(** [pd.concat(objs)]: raises [ValueError] on an empty list. *)
Definition pd_concat (objs : list DataFrame) : M DataFrame :=
  match objs with
  | [] => raise (ValueError "No objects to concatenate")
  | _ :: _ => ret (concat_frames objs)
  end.

(** [df[c]]: the values of a column; [KeyError] when there is no such column. *)
Definition pd_getitem (df : DataFrame) (c : string) : M (list string) :=
  if has_column df c then ret (map (cell_of c) (rows df))
  else raise (KeyError c).

(** [df[[c1, ..., cn]]]: the table restricted to the listed columns;
    [KeyError] when one of them is missing. *)
Definition pd_select (df : DataFrame) (cs : list string) : M DataFrame :=
  match find (fun c => negb (has_column df c)) cs with
  | Some c => raise (KeyError c)
  | None =>
      ret (mkDataFrame cs (map (fun r => map (fun c => (c, cell_of c r)) cs) (rows df)))
  end.

(** [df.to_csv(output_dir + name, index=False)] *)
Definition to_csv (df : DataFrame) (name : string) : M unit :=
  (fun w => (Ok tt, set_csv_attempts (csv_attempts w ++ [name]) w)) ;;;
  call (QToCsv name) ;;;
  (fun w => (Ok tt, set_csv_files (csv_files w ++ [(name, df)]) w)).

(* ===================================================================== *)
(** ** HTML object getter functions *)
(* ===================================================================== *)

Definition agents : list string := ["chrome"; "firefox"; "ie"].

(** [webdriver.Chrome(service=ChromeService(ChromeDriverManager().install()),
    options=options)]: when it does not raise, a new browser session is open. *)
Definition webdriver_Chrome : M driver :=
  call QLaunch ;;;
  fun w =>
    let h := count_occ query_eq_dec (asked w) QLaunch in
    (Ok h, set_open_sessions (open_sessions w ++ [h]) w).

(** [initialize_driver(browser)].  The local variable [driver] is bound only
    by the ['chrome'] case; [return driver] raises [UnboundLocalError] when it
    is not bound. *)
Definition initialize_driver (browser : string) : M driver :=
  browser <- (if String.eqb browser "randomize" then
                agent_num <- random_randint 0 2 ;;
                match nth_error agents agent_num with
                | Some agent => ret agent
                | None => raise (IndexError "list index out of range")
                end
              else ret browser) ;;
  driver_var <-
    try_except
      (if String.eqb browser "chrome" then
         d <- webdriver_Chrome ;; ret (Some d)
       else if String.eqb browser "firefox" then ret None
       else if String.eqb browser "ie" then ret None
       else raise (ValueError ("Browser " ++ browser ++ " is not supported.")))
      (fun e => (* print('[Initialization Error]', e) *) ret None) ;;
  match driver_var with
  | Some d => ret d
  | None => raise (UnboundLocalError "driver")
  end.

(** [get_html_object(driver, selector, url)]: a failed load or a wait that
    times out is printed and the driver is returned all the same.  (The
    handler prints the module global [loc], which the loops of the main block
    have bound by the time a job runs.) *)
Definition get_html_object (d : driver) (selector url : string) : M driver :=
  try_except
    (call (QGet url) ;;;
     call (QWait url selector))
    (fun e => (* print('Page Load Timed Out.') *) ret tt) ;;;
  ret d.

(** [click_next_page_wunderground(driver)] *)
Definition click_next_page_wunderground (d : driver) : M driver :=
  try_except
    (call (QClickable d "div#nextForecasts button.next-day") ;;;
     call (QFind d "div#nextForecasts button.next-day") ;;;
     call (QScript d)
     (* time.sleep(7) *))
    (fun e => (* print('Page Load Timed Out.') *) ret tt) ;;;
  ret d.

(* ===================================================================== *)
(** ** Scraper functions *)
(* ===================================================================== *)

(** [if url not in FAILED_URLS: FAILED_URLS.append((url, loc, source))] *)
Definition note_failed_url (url loc source : string) : M unit :=
  fun w =>
    if negb (py_in (PyStr url) (map tuple_val (FAILED_URLS w)))
    then (Ok tt, set_FAILED_URLS (FAILED_URLS w ++ [(url, loc, source)]) w)
    else (Ok tt, w).

(** [if url not in FAILED_URLS: FAILED_URLS_AERIS.append((url, loc, 'Aeris'))] *)
Definition note_failed_url_aeris (url loc source : string) : M unit :=
  fun w =>
    if negb (py_in (PyStr url) (map tuple_val (FAILED_URLS w)))
    then (Ok tt, set_FAILED_URLS_AERIS (FAILED_URLS_AERIS w ++ [(url, loc, source)]) w)
    else (Ok tt, w).

(** The [try] block of [scrape_wunderground]. *)
Definition scrape_wunderground_try (url loc : string) : M DataFrame :=
  d <- initialize_driver "chrome" ;;
  web_page <- get_html_object d "table#hourly-forecast-table" url ;;
  wunder_today <- call_frame (QParse "Wunderground.com" url) ;;
  web_page_next <- click_next_page_wunderground web_page ;;
  wunder_tomorrow <- call_frame (QParse "Wunderground.com" url) ;;
  wunder_data_all <- pd_concat [wunder_today; wunder_tomorrow] ;;
  ret (set_column wunder_data_all "WS" loc).

(** [scrape_wunderground(url, loc)] *)
Definition scrape_wunderground (url loc : string) : M DataFrame :=
  let return_data := pd_DataFrame in
  try_except
    (scrape_wunderground_try url loc)
    (fun e =>
       note_failed_url url loc "Wunderground.com" ;;;
       ret return_data).

(** The [try] block of [scrape_weather_gov]. *)
Definition scrape_weather_gov_try (url loc : string) : M DataFrame :=
  d <- initialize_driver "chrome" ;;
  web_page <- get_html_object d "table" url ;;
  weather_gov <- call_frame (QParse "Weather.gov" url) ;;
  ret (set_column weather_gov "WS" loc).

(** [scrape_weather_gov(url, loc)] *)
Definition scrape_weather_gov (url loc : string) : M DataFrame :=
  let return_data := pd_DataFrame in
  try_except
    (scrape_weather_gov_try url loc)
    (fun e =>
       note_failed_url url loc "Weather.gov" ;;;
       ret return_data).

(** The [try] block of [scrape_weather_com]. *)
Definition scrape_weather_com_try (url loc : string) : M DataFrame :=
  d <- initialize_driver "chrome" ;;
  web_page <- get_html_object d "h2#currentDateId0" url ;;
  weather_com <- call_frame (QParse "Weather.com" url) ;;
  ret (set_column weather_com "WS" loc).

(** [scrape_weather_com(url, loc)] *)
Definition scrape_weather_com (url loc : string) : M DataFrame :=
  let return_data := pd_DataFrame in
  try_except
    (scrape_weather_com_try url loc)
    (fun e =>
       note_failed_url url loc "Weather.com" ;;;
       ret return_data).

Definition AERIS_COLUMNS : list string :=
  ["timestamp"; "dateTimeISO"; "tempC"; "tempF"; "feelslikeF"; "dewpointF";
   "humidity"; "pressureMB"; "pressureIN"; "windDir"; "windDirDEG";
   "windSpeedMPH"; "windGustMPH"; "precipMM"; "precipIN"; "precipRateMM";
   "precipRateIN"; "pop"; "visibilityKM"; "visibilityMI"; "sky"; "weather";
   "weatherPrimary"; "spressureMB"; "spressureIN"].

(** The [try] block of the loop of [scrape_aeris], for one [(url, loc)]. *)
Definition scrape_aeris_try (url loc : string) : M DataFrame :=
  call (QRequest url) ;;;
  aeris <- call_frame (QJson url) ;;
  aeris <- pd_select aeris AERIS_COLUMNS ;;
  ret (set_column aeris "WS" loc).

(** The [for tup in url_loc] loop of [scrape_aeris], from the tables
    collected so far. *)
Fixpoint scrape_aeris_loop (return_data : list DataFrame)
    (url_loc : list (string * string)) : M (list DataFrame) :=
  match url_loc with
  | [] => ret return_data
  | (url, loc) :: url_loc' =>
      return_data <-
        try_except
          (aeris <- scrape_aeris_try url loc ;;
           ret (return_data ++ [aeris]))
          (fun e =>
             note_failed_url_aeris url loc "Aeris" ;;;
             ret return_data) ;;
      scrape_aeris_loop return_data url_loc'
  end.

(** [scrape_aeris(url_loc)] *)
Definition scrape_aeris (url_loc : list (string * string)) : M (list DataFrame) :=
  scrape_aeris_loop [] url_loc.

(* ===================================================================== *)
(** ** Main *)
(* ===================================================================== *)

(** A row of the location roster [loc_df]: one URL per source and the weather
    station name. *)
Record roster_row : Type := mkRow {
  wunderground_url : string;
  weather_gov_url : string;
  weather_com_url : string;
  aeris_url : string;
  WS : string
}.

(** [executor.submit(job)]: the job runs and the future keeps what it
    returned or raised.  The pool runs its jobs in other threads; here they
    run one after the other, in the order of submission. *)
Definition submit {A} (job : M A) : M (result A) :=
  fun w =>
    match job w with
    | (OutOfFuel, w') => (OutOfFuel, w')
    | (r, w') => (Ok r, w')
    end.

(** [future.result()]: the value of the job, or the exception it raised,
    raised again. *)
Definition future_result {A} (future : result A) : M A :=
  fun w => (future, w).

(** The futures of the three page-rendered sources. *)
Record futures : Type := mkFutures {
  weather_data_wunderground : list (result DataFrame);
  weather_data_weather_gov : list (result DataFrame);
  weather_data_weather_com : list (result DataFrame)
}.

(** The [for ... in urls] loop under [ThreadPoolExecutor(max_workers=12)]. *)
Fixpoint submit_all (urls : list roster_row) (fs : futures) : M futures :=
  match urls with
  | [] => ret fs
  | r :: urls' =>
      f1 <- submit (scrape_wunderground (wunderground_url r) (WS r)) ;;
      f2 <- submit (scrape_weather_gov (weather_gov_url r) (WS r)) ;;
      f3 <- submit (scrape_weather_com (weather_com_url r) (WS r)) ;;
      (* time.sleep(7) *)
      submit_all urls'
        (mkFutures (weather_data_wunderground fs ++ [f1])
                   (weather_data_weather_gov fs ++ [f2])
                   (weather_data_weather_com fs ++ [f3]))
  end.

(** [[x.result() for x in fs if isinstance(x.result(), pd.DataFrame)]]: what
    a job returns is a [DataFrame], so the filter keeps every result. *)
Fixpoint results_of (fs : list (result DataFrame)) : M (list DataFrame) :=
  match fs with
  | [] => ret []
  | x :: fs' =>
      df <- future_result x ;;
      dfs <- results_of fs' ;;
      ret (df :: dfs)
  end.

(** The result lists of the three page-rendered sources. *)
Record page_results : Type := mkResults {
  weather_data_wunderground_results : list DataFrame;
  weather_data_weather_gov_results : list DataFrame;
  weather_data_weather_com_results : list DataFrame
}.

(** An element of [weather_data_aeris_results]: a table of the first pass, or
    the list that a later [scrape_aeris] call returned. *)
Inductive aeris_result : Type :=
| AerisFrame (df : DataFrame)
| AerisList (dfs : list DataFrame).

(** [[x for x in weather_data_aeris_results if isinstance(x, pd.DataFrame)]] *)
Fixpoint aeris_frames (l : list aeris_result) : list DataFrame :=
  match l with
  | [] => []
  | AerisFrame df :: l' => df :: aeris_frames l'
  | AerisList _ :: l' => aeris_frames l'
  end.

(** [list(loc_df[['Aeris', 'WS']].itertuples(index=False))] *)
Definition aeris_jobs (loc_df : list roster_row) : list (string * string) :=
  map (fun r => (aeris_url r, WS r)) loc_df.

(** The first pass, up to the re-scraping loops: the start-up driver, the
    pooled jobs of the three page-rendered sources, the Aeris queries (made
    by the main thread while the pool works; here after the pooled jobs), and
    the collection of the results once every job is done. *)
Definition first_pass (loc_df : list roster_row)
  : M (page_results * list aeris_result) :=
  init_drive <- initialize_driver "chrome" ;;
  fs <- submit_all loc_df (mkFutures [] [] []) ;;
  weather_data_aeris <- scrape_aeris (aeris_jobs loc_df) ;;
  wunderground <- results_of (weather_data_wunderground fs) ;;
  weather_gov <- results_of (weather_data_weather_gov fs) ;;
  weather_com <- results_of (weather_data_weather_com fs) ;;
  ret (mkResults wunderground weather_gov weather_com,
       map AerisFrame weather_data_aeris).

(** The body of the [try] in the first re-scraping loop, after the [pop]. *)
Definition rescrape_one (url_to_scrape loc source : string)
    (res : page_results) : M page_results :=
  if String.eqb source "Wunderground.com" then
    df <- scrape_wunderground url_to_scrape loc ;;
    ret (mkResults (weather_data_wunderground_results res ++ [df])
                   (weather_data_weather_gov_results res)
                   (weather_data_weather_com_results res))
  else if String.eqb source "Weather.gov" then
    df <- scrape_weather_gov url_to_scrape loc ;;
    ret (mkResults (weather_data_wunderground_results res)
                   (weather_data_weather_gov_results res ++ [df])
                   (weather_data_weather_com_results res))
  else if String.eqb source "Weather.com" then
    df <- scrape_weather_com url_to_scrape loc ;;
    ret (mkResults (weather_data_wunderground_results res)
                   (weather_data_weather_gov_results res)
                   (weather_data_weather_com_results res ++ [df]))
  else ret res.

(** [while FAILED_URLS and rescrape_count < 100: ...] for the three
    page-rendered sources.  The [pop(0)] that opens the [try] takes the head
    of the list that the loop test has just found non-empty.  [fuel] bounds
    the number of iterations that are run; the loop is cut with [OutOfFuel]
    when it wants more. *)
Fixpoint rescrape_loop (fuel : nat) (rescrape_count : nat)
    (res : page_results) : M page_results :=
  fun w =>
    match FAILED_URLS w with
    | [] => (Ok res, w)
    | (url_to_scrape, loc, source) :: failed' =>
        if (rescrape_count <? 100)%nat then
          match fuel with
          | 0 => (OutOfFuel, w)
          | S fuel' =>
              let rescrape_count := rescrape_count + 1 in
              (res <-
                 try_except
                   (rescrape_one url_to_scrape loc source res)
                   (fun exc =>
                      note_failed_url url_to_scrape loc source ;;;
                      ret res) ;;
               (* time.sleep(7) *)
               rescrape_loop fuel' rescrape_count res)
                (* FAILED_URLS.pop(0) *)
                (set_FAILED_URLS failed' w)
          end
        else (Ok res, w)
    end.

(** [while FAILED_URLS_AERIS and rescrape_count < 100: ...] for Aeris; the
    body leaves [rescrape_count] as it is. *)
Fixpoint rescrape_loop_aeris (fuel : nat) (rescrape_count : nat)
    (weather_data_aeris_results : list aeris_result) : M (list aeris_result) :=
  fun w =>
    match FAILED_URLS_AERIS w with
    | [] => (Ok weather_data_aeris_results, w)
    | (url_to_scrape, loc, source) :: failed' =>
        if (rescrape_count <? 100)%nat then
          match fuel with
          | 0 => (OutOfFuel, w)
          | S fuel' =>
              (res <-
                 try_except
                   (rescrape_result <- scrape_aeris [(url_to_scrape, loc)] ;;
                    ret (weather_data_aeris_results ++ [AerisList rescrape_result]))
                   (fun exc =>
                      note_failed_url url_to_scrape loc source ;;;
                      ret weather_data_aeris_results) ;;
               rescrape_loop_aeris fuel' rescrape_count res)
                (* FAILED_URLS_AERIS.pop(0) *)
                (set_FAILED_URLS_AERIS failed' w)
          end
        else (Ok weather_data_aeris_results, w)
    end.

(** The three statements that save one source: [pd.concat], [to_csv], and the
    log line that counts the weather stations of the table. *)
Definition save_csv (name : string) (results : list DataFrame) : M unit :=
  df <- pd_concat results ;;
  to_csv df name ;;;
  stations <- pd_getitem df "WS" ;;
  (* logging.warning(f'Saved {len(stations.unique())} weather stations') *)
  ret tt.

Definition wunderground_csv : string := "wunderground_forecast".
Definition weather_gov_csv : string := "weather_gov_forecast".
Definition weather_com_csv : string := "weather_com_forecast".
Definition aeris_csv : string := "aeris_forecast".

(** The files in the order the program saves them. *)
Definition csv_order : list string :=
  [wunderground_csv; weather_gov_csv; weather_com_csv; aeris_csv].

(** The final [try] block: the four sources are saved one after the other
    under a single [except Exception]. *)
Definition save_outputs (res : page_results)
    (weather_data_aeris_results : list aeris_result) : M unit :=
  try_except
    (save_csv wunderground_csv (weather_data_wunderground_results res) ;;;
     save_csv weather_gov_csv (weather_data_weather_gov_results res) ;;;
     save_csv weather_com_csv (weather_data_weather_com_results res) ;;;
     save_csv aeris_csv (aeris_frames weather_data_aeris_results))
    (fun exc => (* print('[SaveError]', exc) *) ret tt).

(** The [if __name__ == '__main__':] block, on the roster [loc_df].
    [fuel] bounds the iterations of the first re-scraping loop and
    [fuel_aeris] those of the second. *)
Definition main (fuel fuel_aeris : nat) (loc_df : list roster_row) : M unit :=
  first <- first_pass loc_df ;;
  res <- rescrape_loop fuel 0 (fst first) ;;
  weather_data_aeris_results <- rescrape_loop_aeris fuel_aeris 0 (snd first) ;;
  save_outputs res weather_data_aeris_results.

(* ===================================================================== *)
(** ** Runs used as examples *)
(* ===================================================================== *)

Definition page_sample : DataFrame :=
  mkDataFrame ["hour"; "temperature"]
    [[("hour", "1:00 pm"); ("temperature", "88")];
     [("hour", "2:00 pm"); ("temperature", "89")]].

Definition aeris_sample : DataFrame :=
  mkDataFrame AERIS_COLUMNS [[("tempC", "31")]; [("tempC", "32")]].

Definition fine (df : DataFrame) : answer := mkAnswer None df 0.
Definition failing (e : exn) : answer := mkAnswer (Some e) pd_DataFrame 0.

(** Every call succeeds. *)
Definition all_fine : query -> nat -> answer :=
  fun q n =>
    match q with
    | QJson _ => fine aeris_sample
    | _ => fine page_sample
    end.

(** The Wunderground pages never parse; everything else succeeds. *)
Definition wunderground_down : query -> nat -> answer :=
  fun q n =>
    match q with
    | QParse "Wunderground.com" _ => failing (AttributeError "'NoneType' object has no attribute 'text'")
    | QJson _ => fine aeris_sample
    | _ => fine page_sample
    end.

(** The Wunderground page parses for the first job (two parses) and not
    afterwards. *)
Definition wunderground_down_later : query -> nat -> answer :=
  fun q n =>
    match q with
    | QParse "Wunderground.com" _ =>
        if (n <? 2)%nat then fine page_sample
        else failing (AttributeError "'NoneType' object has no attribute 'text'")
    | QJson _ => fine aeris_sample
    | _ => fine page_sample
    end.

(** Every Aeris request fails; everything else succeeds. *)
Definition aeris_down : query -> nat -> answer :=
  fun q n =>
    match q with
    | QRequest _ => failing (RequestException "Read timed out.")
    | QJson _ => fine aeris_sample
    | _ => fine page_sample
    end.

(** The first request to each Aeris URL fails, the later ones succeed. *)
Definition aeris_down_once : query -> nat -> answer :=
  fun q n =>
    match q with
    | QRequest _ =>
        if (n =? 0)%nat then failing (RequestException "Read timed out.")
        else fine pd_DataFrame
    | QJson _ => fine aeris_sample
    | _ => fine page_sample
    end.

(** The Wunderground file cannot be written; everything else succeeds. *)
Definition disk_error : query -> nat -> answer :=
  fun q n =>
    match q with
    | QToCsv "wunderground_forecast" => failing (OSError "No space left on device")
    | QJson _ => fine aeris_sample
    | _ => fine page_sample
    end.

Definition miami : roster_row :=
  mkRow "https://www.wunderground.com/hourly/us/fl/miami"
        "https://forecast.weather.gov/miami"
        "https://weather.com/weather/hourbyhour/l/miami"
        "https://api.aerisapi.com/forecasts/miami"
        "KMIA".

(** Two weather stations of one city that share the Wunderground page. *)
Definition station_a : roster_row :=
  mkRow "https://www.wunderground.com/hourly/us/ny/new-york"
        "https://forecast.weather.gov/a"
        "https://weather.com/weather/hourbyhour/l/a"
        "https://api.aerisapi.com/forecasts/a"
        "KNYC".

Definition station_b : roster_row :=
  mkRow "https://www.wunderground.com/hourly/us/ny/new-york"
        "https://forecast.weather.gov/b"
        "https://weather.com/weather/hourbyhour/l/b"
        "https://api.aerisapi.com/forecasts/b"
        "KLGA".

(** The Wunderground page of New York never parses and the first request to
    the Aeris URL of the first New York station fails; everything else
    succeeds. *)
Definition new_york_down : query -> nat -> answer :=
  fun q n =>
    match q with
    | QParse "Wunderground.com" url =>
        if String.eqb url "https://www.wunderground.com/hourly/us/ny/new-york"
        then failing (AttributeError "'NoneType' object has no attribute 'text'")
        else fine page_sample
    | QRequest url =>
        if String.eqb url "https://api.aerisapi.com/forecasts/a" && (n =? 0)%nat
        then failing (RequestException "Read timed out.")
        else fine pd_DataFrame
    | QJson _ => fine aeris_sample
    | _ => fine page_sample
    end.

(* ===================================================================== *)
(** ** The three page-rendered sources, as one family *)
(* ===================================================================== *)

Inductive page_source : Type := Wunderground | WeatherGov | WeatherCom.

(** The name under which the jobs of a source are put on [FAILED_URLS]. *)
Definition source_name (s : page_source) : string :=
  match s with
  | Wunderground => "Wunderground.com"
  | WeatherGov => "Weather.gov"
  | WeatherCom => "Weather.com"
  end.

Definition scrape_page (s : page_source) : string -> string -> M DataFrame :=
  match s with
  | Wunderground => scrape_wunderground
  | WeatherGov => scrape_weather_gov
  | WeatherCom => scrape_weather_com
  end.

Definition scrape_page_try (s : page_source) : string -> string -> M DataFrame :=
  match s with
  | Wunderground => scrape_wunderground_try
  | WeatherGov => scrape_weather_gov_try
  | WeatherCom => scrape_weather_com_try
  end.

Definition page_url (s : page_source) (r : roster_row) : string :=
  match s with
  | Wunderground => wunderground_url r
  | WeatherGov => weather_gov_url r
  | WeatherCom => weather_com_url r
  end.

(** The answer the next browser launch gets. *)
Definition next_launch (w : world) : answer :=
  net w QLaunch (count_occ query_eq_dec (asked w) QLaunch).

(** The answer the next [random.randint(0, 2)] gets. *)
Definition next_randint (w : world) : answer :=
  net w (QRandint 0 2) (count_occ query_eq_dec (asked w) (QRandint 0 2)).

(* ===================================================================== *)
(** ** Notions used in the statements and in the proofs *)
(* ===================================================================== *)

(** A relation between the world before and the world after, that holds of
    no step at all and of two steps in a row. *)
Record step_rel : Type := mkStepRel {
  rel :> world -> world -> Prop;
  rel_refl : forall w, rel w w;
  rel_trans : forall w1 w2 w3, rel w1 w2 -> rel w2 w3 -> rel w1 w3
}.

(** [c] moves every world to a related one, whatever it returns. *)
Definition steps (F : step_rel) {A} (c : M A) : Prop :=
  forall w, F w (snd (c w)).

(** The relation of the computations that leave [f w] as it is. *)
Definition unchanged {X} (f : world -> X) : step_rel.
Proof.
  refine (mkStepRel (fun w w' => f w' = f w) _ _).
  - reflexivity.
  - intros w1 w2 w3 H12 H23. congruence.
Defined.

(** What browsing, querying and parsing leave alone: the failure lists, the
    files and the outside world. *)
Definition beside_browsing (w : world) :=
  (FAILED_URLS w, FAILED_URLS_AERIS w, csv_attempts w, csv_files w, net w).

(** [c] is never cut for lack of fuel. *)
Definition uncut {A} (c : M A) : Prop := forall w, fst (c w) <> OutOfFuel.

(** What the page scrapes leave alone. *)
Definition beside_pages (w : world) :=
  (FAILED_URLS_AERIS w, csv_attempts w, csv_files w, net w).

(** What the Aeris scrapes leave alone. *)
Definition beside_aeris (w : world) :=
  (FAILED_URLS w, csv_attempts w, csv_files w, net w).

(** What saving leaves alone. *)
Definition beside_saving (w : world) :=
  (FAILED_URLS w, FAILED_URLS_AERIS w, net w).

(** The files tried and the files written. *)
Definition csv_part (w : world) := (csv_attempts w, csv_files w).

(** The world in which the pooled jobs of the row that follows the rows
    [pre] start. *)
Definition world_before_row (pre : list roster_row) (w : world) : world :=
  snd ((initialize_driver "chrome" ;;;
        submit_all pre (mkFutures [] [] [])) w).

(** Inside a row the Wunderground job runs first, then the Weather.gov job,
    then the Weather.com job. *)
Definition world_before_job_in_row (s : page_source) (r : roster_row)
    (w : world) : world :=
  match s with
  | Wunderground => w
  | WeatherGov => snd (scrape_wunderground (wunderground_url r) (WS r) w)
  | WeatherCom =>
      snd (scrape_weather_gov (weather_gov_url r) (WS r)
             (snd (scrape_wunderground (wunderground_url r) (WS r) w)))
  end.

(** The world in which the first attempt of the page job [s] of row [r]
    starts, when [r] follows the rows [pre]. *)
Definition world_before_job (s : page_source) (pre : list roster_row)
    (r : roster_row) (w : world) : world :=
  world_before_job_in_row s r (world_before_row pre w).

(** The world in which the first attempt of the Aeris job of row [r] starts,
    in the roster [pre ++ r :: post]. *)
Definition world_before_aeris_job (pre : list roster_row) (r : roster_row)
    (post : list roster_row) (w : world) : world :=
  snd ((initialize_driver "chrome" ;;;
        submit_all (pre ++ r :: post) (mkFutures [] [] []) ;;;
        scrape_aeris_loop [] (aeris_jobs pre)) w).

(** The computations that put on [FAILED_URLS] only tuples in [P]. *)
Definition may_fail (P : failed_url -> Prop) : step_rel.
Proof.
  refine (mkStepRel
            (fun w w' =>
               forall y, In y (FAILED_URLS w') -> In y (FAILED_URLS w) \/ P y)
            _ _).
  - intros w y Hy. left. exact Hy.
  - intros w1 w2 w3 H12 H23 y Hy.
    destruct (H23 y Hy) as [H2|HP]; [apply H12; exact H2 | right; exact HP].
Defined.

(** The computations that put on [FAILED_URLS_AERIS] only tuples in [P]. *)
Definition may_fail_aeris (P : failed_url -> Prop) : step_rel.
Proof.
  refine (mkStepRel
            (fun w w' =>
               forall y, In y (FAILED_URLS_AERIS w') ->
                         In y (FAILED_URLS_AERIS w) \/ P y)
            _ _).
  - intros w y Hy. left. exact Hy.
  - intros w1 w2 w3 H12 H23 y Hy.
    destruct (H23 y Hy) as [H2|HP]; [apply H12; exact H2 | right; exact HP].
Defined.

(** The computations after which every tuple on [FAILED_URLS] was there
    before. *)
Definition failed_within : step_rel.
Proof.
  refine (mkStepRel
            (fun w w' =>
               forall y, In y (FAILED_URLS w') -> In y (FAILED_URLS w)) _ _).
  - intros w y Hy. exact Hy.
  - intros w1 w2 w3 H12 H23 y Hy. apply H12, H23, Hy.
Defined.

(** The computations after which every endpoint on [FAILED_URLS_AERIS] was
    there before. *)
Definition aeris_endpoints_within : step_rel.
Proof.
  refine (mkStepRel
            (fun w w' =>
               forall y, In y (FAILED_URLS_AERIS w') ->
                 exists x, In x (FAILED_URLS_AERIS w) /\
                           failed_endpoint x = failed_endpoint y) _ _).
  - intros w y Hy. exists y. auto.
  - intros w1 w2 w3 H12 H23 y Hy.
    destruct (H23 y Hy) as (x & Hx & Exy).
    destruct (H12 x Hx) as (z & Hz & Ezx).
    exists z. split; [exact Hz | congruence].
Defined.

(** The tuples that the pooled jobs of the rows [urls] may put on
    [FAILED_URLS]. *)
Definition job_of (urls : list roster_row) (y : failed_url) : Prop :=
  exists r s, In r urls /\ y = (page_url s r, WS r, source_name s).

(** [u] is not on [FAILED_URLS] as an endpoint of the source [s]. *)
Definition off_failed (s : page_source) (u : string) (w : world) : Prop :=
  forall loc, ~ In (u, loc, source_name s) (FAILED_URLS w).

(** [u] is not on [FAILED_URLS_AERIS]. *)
Definition off_failed_aeris (u : string) (w : world) : Prop :=
  forall loc source, ~ In (u, loc, source) (FAILED_URLS_AERIS w).

(** The tuples that the Aeris jobs [url_loc] may put on
    [FAILED_URLS_AERIS]. *)
Definition aeris_job_of (url_loc : list (string * string)) (y : failed_url) : Prop :=
  exists url loc, In (url, loc) url_loc /\ y = (url, loc, "Aeris").

(* ===================================================================== *)
(** ** Data extraction and helper functions *)
(* ===================================================================== *)

(** [[0-9]] *)
Definition is_digit (c : ascii) : bool :=
  (48 <=? nat_of_ascii c)%nat && (nat_of_ascii c <=? 57)%nat.

(** [[0-9]*] at the head of [s], greedy: the digits it takes and the text
    that follows them. *)
Fixpoint span_digits (s : string) : string * string :=
  match s with
  | String c s' =>
      if is_digit c then
        let (digits, rest) := span_digits s' in (String c digits, rest)
      else (EmptyString, s)
  | EmptyString => (EmptyString, EmptyString)
  end.

(** [re.search(r'^[0-9]*', s).group()], the pattern of the temperature, the
    percentages, the wind and the like in [parse_weather_data_wunderground].
    The pattern matches the empty text too, so the search always finds a
    match. *)
Definition leading_digits (s : string) : string := fst (span_digits s).

(** The groups of a dot and [[0-9]*] at the head of [s], as many as there
    are, greedy: one group for each dot that comes next, the dot and the
    digits after it.  Every group takes a character, so [fuel], the length
    of the text, is enough. *)
Fixpoint dot_groups (fuel : nat) (s : string) : string :=
  match fuel, s with
  | S fuel', String c s' =>
      if Ascii.eqb c "."%char then
        let (digits, rest) := span_digits s' in
        String c (digits ++ dot_groups fuel' rest)
      else EmptyString
  | _, _ => EmptyString
  end.

(** [re.search(pattern, s).group()] for the pattern of the amount and of the
    pressure in [parse_weather_data_wunderground]: [^[0-9]*] followed by any
    number of groups of a dot and [[0-9]*]. *)
Definition leading_decimal (s : string) : string :=
  let (digits, rest) := span_digits s in
  digits ++ dot_groups (String.length rest) rest.

(** Every character of [s] satisfies [p]. *)
Fixpoint all_chars (p : ascii -> bool) (s : string) : bool :=
  match s with
  | String c s' => p c && all_chars p s'
  | EmptyString => true
  end.

(** [s] is empty or starts with a character that does not satisfy [p]. *)
Definition stops_at (p : ascii -> bool) (s : string) : bool :=
  match s with
  | String c _ => negb (p c)
  | EmptyString => true
  end.

Definition is_digit_or_dot (c : ascii) : bool :=
  is_digit c || Ascii.eqb c "."%char.

Section FillDate.

(** [str(datetime.now().year)], the same year all through one call. *)
Variable year : string.

(** [datetime.strptime(s, '%m/%d/%Y').strftime('%d/%m/%Y')]: the date written
    day first, or [None] when [strptime] raises [ValueError]. *)
Variable day_first : string -> option string.

(** [fill_date_weather_gov(dates, start_date)]: [None] when a date does not
    parse.  The list is filled in place and returned; the caller passes a
    slice of its own list, so the filled list is the only one seen. *)
Fixpoint fill_date_weather_gov (dates : list string) (start_date : string)
  : option (list string) :=
  match dates with
  | [] => Some []
  | d :: dates' =>
      if negb (String.eqb d "") then
        match day_first (d ++ "/" ++ year) with
        | Some fill_date =>
            option_map (cons fill_date) (fill_date_weather_gov dates' fill_date)
        | None => None
        end
      else option_map (cons start_date) (fill_date_weather_gov dates' start_date)
  end.

(** The [date] column of the table of [parse_weather_data_weather_gov],
    from the cells of the two date rows of the page: the first row filled
    from the empty text, the second from the entry 23 of the first, and the
    two stacked by [pd.concat].  [None] when a date does not parse
    ([ValueError]) or the first row has no entry 23 ([IndexError]). *)
Definition weather_gov_dates (forecast_date_1 forecast_date_2 : list string)
  : option (list string) :=
  match fill_date_weather_gov (tl forecast_date_1) "" with
  | Some date_1 =>
      match nth_error date_1 23 with
      | Some start_date =>
          match fill_date_weather_gov (tl forecast_date_2) start_date with
          | Some date_2 => Some (date_1 ++ date_2)
          | None => None
          end
      | None => None
      end
  | None => None
  end.

End FillDate.

(** Texts are held in UTF-8, and Python slices a text by characters: a
    character is a byte that is not a continuation byte (10xxxxxx in
    binary) with the continuation bytes that follow it. *)
Definition is_continuation (c : ascii) : bool :=
  (128 <=? nat_of_ascii c)%nat && (nat_of_ascii c <? 192)%nat.

(** The characters of a text, each with its bytes. *)
Fixpoint characters (s : string) : list string :=
  match s with
  | EmptyString => []
  | String c s' =>
      match s' with
      | String c' _ =>
          if is_continuation c' then
            match characters s' with
            | ch :: chs => String c ch :: chs
            | [] => [String c EmptyString]
            end
          else String c EmptyString :: characters s'
      | EmptyString => [String c EmptyString]
      end
  end.

(** [s[:-n]] on a text: all but the last [n] characters. *)
Definition drop_last (n : nat) (s : string) : string :=
  String.concat "" (firstn (length (characters s) - n) (characters s)).

(** [s[n:]] on a text: all but the first [n] characters. *)
Definition drop_first (n : nat) (s : string) : string :=
  String.concat "" (skipn n (characters s)).

(** [.text] of the element that a [find] or a [select_one] returned:
    [AttributeError] when it returned [None] (the same exception, with the
    name of another attribute, when the element searched in is [None]). *)
Definition text_of (element : option string) : exn + string :=
  match element with
  | Some text => inr text
  | None => inl (AttributeError "'NoneType' object has no attribute 'text'")
  end.

Definition and_then {A B} (r : exn + A) (k : A -> exn + B) : exn + B :=
  match r with
  | inl e => inl e
  | inr a => k a
  end.

Notation "x <-- c ;; k" := (and_then c (fun x => k))
  (at level 61, c at next level, right associativity).

(** The texts that the loop of [parse_weather_data_weather_com] reads in a
    [details] element, each under the local name the source gives it; [None]
    where the element looked for is missing. *)
Record details_texts : Type := mkDetails {
  hour : option string;
  cond : option string;
  temp : option string;
  rpct : option string;
  feel : option string;
  wind_content : option string;
  humd : option string;
  uvin : option string;
  cloud : option string;
  ramt : option string
}.

(** A node of the chain of siblings that the loop walks. *)
Inductive sibling : Type :=
| H2 (text : string)
| Details (texts : details_texts)
| OtherNode.

(** A dict of lists, as [forecast_data]: the keys in insertion order. *)
Definition dict_of_lists : Type := list (string * list string).

(** [data[key].append(v)]; every key the source appends to is in the dict. *)
Fixpoint dict_append (key v : string) (data : dict_of_lists) : dict_of_lists :=
  match data with
  | [] => []
  | (k, l) :: data' =>
      if String.eqb key k then (k, l ++ [v]) :: data'
      else (k, l) :: dict_append key v data'
  end.

(** [pd.DataFrame.from_dict(data)] on a dict of lists: a column for each
    key, a row for each index; [ValueError] when the lists differ in
    length. *)
Definition from_dict (data : dict_of_lists) : exn + DataFrame :=
  match data with
  | [] => inr pd_DataFrame
  | (_, l) :: _ =>
      if forallb (fun kv => (length (snd kv) =? length l)%nat) data then
        inr (mkDataFrame
               (map fst data)
               (map (fun i => map (fun kv => (fst kv, nth i (snd kv) "")) data)
                    (seq 0 (length l))))
      else inl (ValueError "All arrays must be of the same length")
  end.

Definition weather_com_forecast_data : dict_of_lists :=
  [("date", []); ("hour", []); ("temperature (C)", []); ("condition", []);
   ("rain (%)", []); ("wind speed", []); ("wind direction", []);
   ("feels like (C)", []); ("humidity (%)", []); ("uv index", []);
   ("cloud cover", []); ("rain amount", [])].

(** The number of [details] elements of a chain. *)
Fixpoint details_count (content : list sibling) : nat :=
  match content with
  | Details _ :: content' => S (details_count content')
  | _ :: content' => details_count content'
  | [] => 0
  end.

Section ParseWeatherCom.

(** [date.strftime('%d-%m-%Y %H:%M')] and [now.strftime('%Y')] of the clock. *)
Variable date_string : string.
Variable year : string.

(** [re.search(pattern, text)]: the text matched, [None] without a match. *)
Variable re_search : string -> string -> option string.

(** [datetime.strptime(s, '%B %d, %Y').strftime('%d-%m-%Y')], [None] when
    [strptime] raises [ValueError]. *)
Variable day_month_year : string -> option string.

(** [re.search(pattern, text).group()] *)
Definition re_group (pattern text : string) : exn + string :=
  match re_search pattern text with
  | Some m => inr m
  | None => inl (AttributeError "'NoneType' object has no attribute 'group'")
  end.

(** The [while content != None] loop: [content] and its next siblings. *)
Fixpoint weather_com_loop (content : list sibling) (date : string)
    (forecast_data : dict_of_lists) : exn + dict_of_lists :=
  match content with
  | [] => inr forecast_data
  | H2 text :: next_sibling =>
      m <-- re_group ",.*" text ;;
      match day_month_year (drop_first 2 m ++ ", " ++ year) with
      | Some date => weather_com_loop next_sibling date forecast_data
      | None => inl (ValueError "time data does not match format '%B %d, %Y'")
      end
  | Details texts :: next_sibling =>
      hour <-- text_of (hour texts) ;;
      cond <-- text_of (cond texts) ;;
      temp <-- text_of (temp texts) ;;
      let temp := drop_last 1 temp in
      rpct <-- text_of (rpct texts) ;;
      let rpct := drop_last 1 rpct in
      feel <-- text_of (feel texts) ;;
      let feel := drop_last 1 feel in
      wind_content <-- text_of (wind_content texts) ;;
      wind <-- re_group "[0-9]* km/h" wind_content ;;
      let wind := drop_last 5 wind in
      wdir <-- re_group "^[A-Z]*\s" wind_content ;;
      let wdir := drop_last 1 wdir in
      humd <-- text_of (humd texts) ;;
      let humd := drop_last 1 humd in
      uvin <-- text_of (uvin texts) ;;
      cloud <-- text_of (cloud texts) ;;
      let cloud := drop_last 1 cloud in
      ramt <-- text_of (ramt texts) ;;
      let ramt := drop_last 3 ramt in
      weather_com_loop next_sibling date
        (dict_append "rain amount" ramt
        (dict_append "cloud cover" cloud
        (dict_append "uv index" uvin
        (dict_append "humidity (%)" humd
        (dict_append "feels like (C)" feel
        (dict_append "wind direction" wdir
        (dict_append "wind speed" wind
        (dict_append "rain (%)" rpct
        (dict_append "condition" temp
        (dict_append "temperature (C)" temp
        (dict_append "hour" hour
        (dict_append "date" date forecast_data))))))))))))
  | OtherNode :: next_sibling =>
      weather_com_loop next_sibling date forecast_data
  end.

(** [parse_weather_data_weather_com(page)], from the elements that
    [select('h2#currentDateId0')] finds: the text of each and the siblings
    that follow it. *)
Definition parse_weather_data_weather_com
    (selected : list (string * list sibling)) : exn + DataFrame :=
  match selected with
  | [] => inl (IndexError "list index out of range")
  | (text, next_siblings) :: _ =>
      forecast_data <--
        weather_com_loop (H2 text :: next_siblings) "" weather_com_forecast_data ;;
      forecast_data_df <-- from_dict forecast_data ;;
      inr (set_column forecast_data_df "time_scraped_est_edt" date_string)
  end.

End ParseWeatherCom.

(** A [forecast_data] whose [condition] list is its [temperature (C)]
    list. *)
Definition weather_com_dict
    (date hour temperature rain wind_speed wind_direction feels_like humidity
     uv_index cloud_cover rain_amount : list string) : dict_of_lists :=
  [("date", date); ("hour", hour); ("temperature (C)", temperature);
   ("condition", temperature); ("rain (%)", rain); ("wind speed", wind_speed);
   ("wind direction", wind_direction); ("feels like (C)", feels_like);
   ("humidity (%)", humidity); ("uv index", uv_index);
   ("cloud cover", cloud_cover); ("rain amount", rain_amount)].

(** Two hours of a Weather.com page, one on each side of midnight. *)
Definition weather_com_hour (hour cond temp : string) : sibling :=
  Details (mkDetails (Some hour) (Some cond) (Some temp) (Some "20%")
                     (Some "31°") (Some "SE 14 km/h") (Some "74%") (Some "0 of 11")
                     (Some "63%") (Some "0 cm")).

Definition weather_com_page : list (string * list sibling) :=
  [("Thursday, April 11",
    [OtherNode; weather_com_hour "11 pm" "Partly Cloudy" "27°";
     H2 "Friday, April 12"; weather_com_hour "12 am" "Clear" "26°"])].

(** The table that the parser makes of [weather_com_page], with a search
    that matches the whole text and dates kept as they are written. *)
Definition weather_com_table : DataFrame :=
  Eval vm_compute in
    match parse_weather_data_weather_com "11-04-2024 22:40" "2024"
            (fun pattern text => Some text) (fun s => Some s) weather_com_page with
    | inr df => df
    | inl _ => pd_DataFrame
    end.

(* ===================================================================== *)
(** ** Notions used in the statements on the saving block *)
(* ===================================================================== *)

(** The lists that the saving block concatenates, each with the name of its
    file, in the order of the block. *)
Definition save_jobs (res : page_results) (aeris : list aeris_result)
  : list (string * list DataFrame) :=
  [(wunderground_csv, weather_data_wunderground_results res);
   (weather_gov_csv, weather_data_weather_gov_results res);
   (weather_com_csv, weather_data_weather_com_results res);
   (aeris_csv, aeris_frames aeris)].

(** The error of the next write of the file [name], if it fails. *)
Definition write_error (w : world) (name : string) : option exn :=
  err (net w (QToCsv name) (count_occ query_eq_dec (asked w) (QToCsv name))).

(** The three statements that save a source raise: there is nothing to
    concatenate, or the write fails, or the table has no [WS] column for the
    count of the stations. *)
Definition save_raises (w : world) (job : string * list DataFrame) : bool :=
  match snd job with
  | [] => true
  | _ :: _ =>
      match write_error w (fst job) with
      | Some _ => true
      | None => negb (has_column (concat_frames (snd job)) "WS")
      end
  end.

(** The sources saved one after the other, as in the body of the [try]. *)
Fixpoint save_all (jobs : list (string * list DataFrame)) : M unit :=
  match jobs with
  | [] => ret tt
  | job :: jobs' => save_csv (fst job) (snd job) ;;; save_all jobs'
  end.

(** The files whose write is tried when [jobs] are saved from [w]. *)
Fixpoint tried (w : world) (jobs : list (string * list DataFrame))
  : list string :=
  match jobs with
  | [] => []
  | job :: jobs' =>
      match snd job with
      | [] => []
      | _ :: _ => fst job :: (if save_raises w job then [] else tried w jobs')
      end
  end.

(** The files written when [jobs] are saved from [w]. *)
Fixpoint written (w : world) (jobs : list (string * list DataFrame))
  : list (string * DataFrame) :=
  match jobs with
  | [] => []
  | job :: jobs' =>
      match snd job with
      | [] => []
      | _ :: _ =>
          match write_error w (fst job) with
          | Some _ => []
          | None =>
              (fst job, concat_frames (snd job)) ::
              (if save_raises w job then [] else written w jobs')
          end
      end
  end.

(** No source of [jobs] raises when it is saved from [w]. *)
Definition all_saved (w : world) (jobs : list (string * list DataFrame)) : bool :=
  forallb (fun job => negb (save_raises w job)) jobs.

(* ===================================================================== *)
(** ** Notions used in the statements on the jobs and on the run *)
(* ===================================================================== *)

(** The number of browser launches asked so far. *)
Definition launches (w : world) : nat :=
  count_occ query_eq_dec (asked w) QLaunch.

(** The answer to the parse of the page [url] of [source] that is made
    [k] parses of that page after the world [w]. *)
Definition parse_answer (source url : string) (k : nat) (w : world) : answer :=
  net w (QParse source url)
      (k + count_occ query_eq_dec (asked w) (QParse source url)).

(** What decides the answer to the next parses of the page [url] of
    [source]: the outside world and the number of parses of that page made
    so far. *)
Definition parse_view (source url : string) (w : world) :=
  (net w, count_occ query_eq_dec (asked w) (QParse source url)).

(** A job that returned a value. *)
Definition returned {A} (r : result A) : Prop := exists a, r = Ok a.

(** The result lists of [res'] are those of [res] with tables added at the
    end. *)
Definition grows (res res' : page_results) : Prop :=
  (exists l, weather_data_wunderground_results res' =
             weather_data_wunderground_results res ++ l) /\
  (exists l, weather_data_weather_gov_results res' =
             weather_data_weather_gov_results res ++ l) /\
  (exists l, weather_data_weather_com_results res' =
             weather_data_weather_com_results res ++ l).

(** [c] raises from no world. *)
Definition unraised {A} (c : M A) : Prop := forall w e, fst (c w) <> Raise e.

(** The computations that keep every tuple of [FAILED_URLS_AERIS] in [Q]
    when they start with every tuple in [Q]. *)
Definition keeps_aeris_in (Q : failed_url -> Prop) : step_rel.
Proof.
  refine (mkStepRel
            (fun w w' =>
               (forall y, In y (FAILED_URLS_AERIS w) -> Q y) ->
               forall y, In y (FAILED_URLS_AERIS w') -> Q y) _ _).
  - intros w H. exact H.
  - intros w1 w2 w3 H12 H23 H1. apply H23, H12, H1.
Defined.

(** The computations that make at most [n] browser launches. *)
Definition launches_at_most (n : nat) {A} (c : M A) : Prop :=
  forall w, launches (snd (c w)) <= launches w + n.

(* ===================================================================== *)
(** ** The membership test of the failure lists *)
(* ===================================================================== *)

Lemma str_ne_tuple (url : string) (t : failed_url) :
  py_eqb (PyStr url) (tuple_val t) = false.
Proof. destruct t as [[u l] s]. reflexivity. Qed.

(** A URL is a string and the elements of the failure lists are tuples, so
    [url in FAILED_URLS] is [False] whatever the list holds. *)
Lemma url_in_failed_false (url : string) (l : list failed_url) :
  py_in (PyStr url) (map tuple_val l) = false.
Proof.
  unfold py_in. induction l as [|t l IH].
  - reflexivity.
  - rewrite map_cons. cbn [existsb]. rewrite str_ne_tuple. exact IH.
Qed.

Lemma note_failed_url_appends url loc source w :
  note_failed_url url loc source w =
  (Ok tt, set_FAILED_URLS (FAILED_URLS w ++ [(url, loc, source)]) w).
Proof. unfold note_failed_url. rewrite url_in_failed_false. reflexivity. Qed.

Lemma note_failed_url_aeris_appends url loc source w :
  note_failed_url_aeris url loc source w =
  (Ok tt, set_FAILED_URLS_AERIS (FAILED_URLS_AERIS w ++ [(url, loc, source)]) w).
Proof. unfold note_failed_url_aeris. rewrite url_in_failed_false. reflexivity. Qed.

(* ===================================================================== *)
(** ** What a computation leaves as it is *)
(* ===================================================================== *)

Section Steps.
Variable F : step_rel.

Lemma steps_ret A (a : A) : steps F (ret a).
Proof. intros w. apply rel_refl. Qed.

Lemma steps_raise A (e : exn) : steps F (@raise A e).
Proof. intros w. apply rel_refl. Qed.

Lemma steps_bind A B (c : M A) (k : A -> M B) :
  steps F c -> (forall a, steps F (k a)) -> steps F (bind c k).
Proof.
  intros Hc Hk w. unfold bind. specialize (Hc w).
  destruct (c w) as [[a|e|] w1]; simpl in *; trivial.
  eapply rel_trans; [exact Hc | apply Hk].
Qed.

Lemma steps_try_except A (c : M A) (h : exn -> M A) :
  steps F c -> (forall e, steps F (h e)) -> steps F (try_except c h).
Proof.
  intros Hc Hh w. unfold try_except. specialize (Hc w).
  destruct (c w) as [[a|e|] w1]; simpl in *; trivial.
  eapply rel_trans; [exact Hc | apply Hh].
Qed.

Lemma steps_submit A (c : M A) : steps F c -> steps F (submit c).
Proof.
  intros Hc w. unfold submit. specialize (Hc w).
  destruct (c w) as [[a|e|] w1]; simpl in *; trivial.
Qed.

Lemma steps_future_result A (x : result A) : steps F (future_result x).
Proof. intros w. apply rel_refl. Qed.

Lemma steps_results_of fs : steps F (results_of fs).
Proof.
  induction fs as [|x fs IH]; simpl.
  - apply steps_ret.
  - apply steps_bind; [apply steps_future_result|intros df].
    apply steps_bind; [exact IH|intros dfs]. apply steps_ret.
Qed.
End Steps.

(** Structural steps of such a proof. *)
Ltac steps_step :=
  match goal with
  | |- steps _ (ret _) => apply steps_ret
  | |- steps _ (raise _) => apply steps_raise
  | |- steps _ (bind _ _) => apply steps_bind
  | |- steps _ (try_except _ _) => apply steps_try_except
  | |- steps _ (submit _) => apply steps_submit
  | |- steps _ (results_of _) => apply steps_results_of
  | |- steps _ (match ?x with _ => _ end) => destruct x
  | |- forall _, _ => intro
  end.

Ltac steps_tac := repeat steps_step; try solve [intros ?; reflexivity]; auto.

Lemma call_beside_browsing q : steps (unchanged beside_browsing) (call q).
Proof. unfold call. steps_tac. Qed.

Lemma call_frame_beside_browsing q :
  steps (unchanged beside_browsing) (call_frame q).
Proof. unfold call_frame. steps_tac. Qed.

Lemma initialize_driver_beside_browsing browser :
  steps (unchanged beside_browsing) (initialize_driver browser).
Proof.
  unfold initialize_driver, webdriver_Chrome, random_randint.
  pose proof call_beside_browsing. steps_tac.
Qed.

Lemma scrape_page_try_beside_browsing s url loc :
  steps (unchanged beside_browsing) (scrape_page_try s url loc).
Proof.
  pose proof call_beside_browsing. pose proof call_frame_beside_browsing.
  pose proof initialize_driver_beside_browsing.
  destruct s; simpl;
    unfold scrape_wunderground_try, scrape_weather_gov_try,
      scrape_weather_com_try, get_html_object, click_next_page_wunderground,
      pd_concat;
    steps_tac.
Qed.

Lemma scrape_aeris_try_beside_browsing url loc :
  steps (unchanged beside_browsing) (scrape_aeris_try url loc).
Proof.
  pose proof call_beside_browsing. pose proof call_frame_beside_browsing.
  unfold scrape_aeris_try, pd_select. steps_tac.
Qed.

(* ===================================================================== *)
(** ** Computations without a [while] loop are never cut *)
(* ===================================================================== *)

Lemma uncut_ret A (a : A) : uncut (ret a).
Proof. intros w. discriminate. Qed.

Lemma uncut_raise A (e : exn) : uncut (@raise A e).
Proof. intros w. discriminate. Qed.

Lemma uncut_bind A B (c : M A) (k : A -> M B) :
  uncut c -> (forall a, uncut (k a)) -> uncut (bind c k).
Proof.
  intros Hc Hk w. unfold bind. specialize (Hc w).
  destruct (c w) as [[a|e|] w1]; simpl in *; try discriminate; auto.
  apply Hk.
Qed.

Lemma uncut_try_except A (c : M A) (h : exn -> M A) :
  uncut c -> (forall e, uncut (h e)) -> uncut (try_except c h).
Proof.
  intros Hc Hh w. unfold try_except. specialize (Hc w).
  destruct (c w) as [[a|e|] w1]; simpl in *; try discriminate; auto.
  apply Hh.
Qed.

Ltac uncut_step :=
  match goal with
  | |- uncut (ret _) => apply uncut_ret
  | |- uncut (raise _) => apply uncut_raise
  | |- uncut (bind _ _) => apply uncut_bind
  | |- uncut (try_except _ _) => apply uncut_try_except
  | |- uncut (match ?x with _ => _ end) => destruct x
  | |- forall _, _ => intro
  end.

Ltac uncut_tac := repeat uncut_step; try solve [intros ?; discriminate]; auto.

Lemma call_uncut q : uncut (call q).
Proof. unfold call. uncut_tac. Qed.

Lemma call_frame_uncut q : uncut (call_frame q).
Proof. unfold call_frame. uncut_tac. Qed.

Lemma initialize_driver_uncut browser : uncut (initialize_driver browser).
Proof.
  unfold initialize_driver, webdriver_Chrome, random_randint.
  pose proof call_uncut. uncut_tac.
Qed.

Lemma scrape_page_try_uncut s url loc : uncut (scrape_page_try s url loc).
Proof.
  pose proof call_uncut. pose proof call_frame_uncut.
  pose proof initialize_driver_uncut.
  destruct s; simpl;
    unfold scrape_wunderground_try, scrape_weather_gov_try,
      scrape_weather_com_try, get_html_object, click_next_page_wunderground,
      pd_concat;
    uncut_tac.
Qed.

Lemma scrape_aeris_try_uncut url loc : uncut (scrape_aeris_try url loc).
Proof.
  pose proof call_uncut. pose proof call_frame_uncut.
  unfold scrape_aeris_try, pd_select. uncut_tac.
Qed.

(* ===================================================================== *)
(** ** The scrape functions, from their [try] blocks *)
(* ===================================================================== *)

(** A page scrape returns what its [try] block returns; when the block
    raises, it returns the empty table and puts the job on [FAILED_URLS]. *)
Lemma scrape_page_unfold s url loc w :
  scrape_page s url loc w =
  match scrape_page_try s url loc w with
  | (Raise e, w1) =>
      (Ok pd_DataFrame,
       set_FAILED_URLS (FAILED_URLS w1 ++ [(url, loc, source_name s)]) w1)
  | other => other
  end.
Proof.
  destruct s; simpl;
    unfold scrape_wunderground, scrape_weather_gov, scrape_weather_com,
      try_except;
    match goal with |- context [?c url loc w] => destruct (c url loc w) as [[df|e|] w1] end;
    try reflexivity;
    unfold bind; rewrite note_failed_url_appends; reflexivity.
Qed.

(** One round of the loop of [scrape_aeris]. *)
Lemma scrape_aeris_loop_cons return_data url loc url_loc w :
  scrape_aeris_loop return_data ((url, loc) :: url_loc) w =
  match scrape_aeris_try url loc w with
  | (Ok aeris, w1) => scrape_aeris_loop (return_data ++ [aeris]) url_loc w1
  | (Raise e, w1) =>
      scrape_aeris_loop return_data url_loc
        (set_FAILED_URLS_AERIS (FAILED_URLS_AERIS w1 ++ [(url, loc, "Aeris")]) w1)
  | (OutOfFuel, w1) => (OutOfFuel, w1)
  end.
Proof.
  simpl. unfold bind at 1. unfold try_except. unfold bind at 1.
  destruct (scrape_aeris_try url loc w) as [[aeris|e|] w1]; try reflexivity.
  unfold bind. rewrite note_failed_url_aeris_appends. reflexivity.
Qed.

(** A page scrape always returns a table. *)
Lemma scrape_page_returns s url loc w :
  exists df, fst (scrape_page s url loc w) = Ok df.
Proof.
  rewrite scrape_page_unfold.
  pose proof (scrape_page_try_uncut s url loc w) as Hcut.
  destruct (scrape_page_try s url loc w) as [[df|e|] w1]; simpl in *.
  - exists df. reflexivity.
  - exists pd_DataFrame. reflexivity.
  - contradiction.
Qed.

(** [scrape_aeris] always returns a list of tables. *)
Lemma scrape_aeris_loop_returns url_loc : forall return_data w,
  exists dfs, fst (scrape_aeris_loop return_data url_loc w) = Ok dfs.
Proof.
  induction url_loc as [|[url loc] url_loc IH]; intros return_data w.
  - exists return_data. reflexivity.
  - rewrite scrape_aeris_loop_cons.
    pose proof (scrape_aeris_try_uncut url loc w) as Hcut.
    destruct (scrape_aeris_try url loc w) as [[aeris|e|] w1]; simpl in *.
    + apply IH.
    + apply IH.
    + contradiction.
Qed.

Lemma submit_scrape s url loc w :
  submit (scrape_page s url loc) w =
  (Ok (fst (scrape_page s url loc w)), snd (scrape_page s url loc w)).
Proof.
  unfold submit. destruct (scrape_page_returns s url loc w) as [df Hdf].
  destruct (scrape_page s url loc w) as [[df'|e|] w1]; simpl in *;
    try discriminate; reflexivity.
Qed.

(** One row of the pool: its three jobs, one after the other. *)
Lemma submit_all_cons r urls fs w :
  submit_all (r :: urls) fs w =
  let j1 := scrape_page Wunderground (wunderground_url r) (WS r) w in
  let j2 := scrape_page WeatherGov (weather_gov_url r) (WS r) (snd j1) in
  let j3 := scrape_page WeatherCom (weather_com_url r) (WS r) (snd j2) in
  submit_all urls
    (mkFutures (weather_data_wunderground fs ++ [fst j1])
               (weather_data_weather_gov fs ++ [fst j2])
               (weather_data_weather_com fs ++ [fst j3]))
    (snd j3).
Proof.
  cbv zeta. cbn [submit_all].
  change scrape_wunderground with (scrape_page Wunderground).
  change scrape_weather_gov with (scrape_page WeatherGov).
  change scrape_weather_com with (scrape_page WeatherCom).
  unfold bind. rewrite !submit_scrape. reflexivity.
Qed.

(** Each row of the roster adds one future to each of the three lists. *)
Lemma submit_all_lengths urls : forall fs w fs' w',
  submit_all urls fs w = (Ok fs', w') ->
  length (weather_data_wunderground fs') =
    length (weather_data_wunderground fs) + length urls /\
  length (weather_data_weather_gov fs') =
    length (weather_data_weather_gov fs) + length urls /\
  length (weather_data_weather_com fs') =
    length (weather_data_weather_com fs) + length urls.
Proof.
  induction urls as [|r urls IH]; intros fs w fs' w' Hrun.
  - injection Hrun as <- _. simpl. lia.
  - rewrite submit_all_cons in Hrun. cbv zeta in Hrun.
    apply IH in Hrun. simpl in Hrun. rewrite !length_app in Hrun.
    simpl in *. lia.
Qed.

Lemma results_of_length fs : forall w dfs w',
  results_of fs w = (Ok dfs, w') -> length dfs = length fs.
Proof.
  induction fs as [|x fs IH]; intros w dfs w'; simpl.
  - intros H. injection H as <- _. reflexivity.
  - unfold bind at 1. unfold future_result.
    destruct x as [df|e|]; try discriminate.
    unfold bind at 1.
    destruct (results_of fs w) as [[dfs'|e|] w1] eqn:Hrest; try discriminate.
    intros H. injection H as <- _. simpl. f_equal. exact (IH _ _ _ Hrest).
Qed.

(** After the first pass each page-rendered source has one table for each
    row of the roster: the table of the job, empty when the job failed. *)
Lemma first_pass_lengths loc_df w res aeris w1 :
  first_pass loc_df w = (Ok (res, aeris), w1) ->
  length (weather_data_wunderground_results res) = length loc_df /\
  length (weather_data_weather_gov_results res) = length loc_df /\
  length (weather_data_weather_com_results res) = length loc_df.
Proof.
  unfold first_pass. unfold bind at 1.
  destruct (initialize_driver "chrome" w) as [[d|e|] w0]; try discriminate.
  unfold bind at 1.
  destruct (submit_all loc_df (mkFutures [] [] []) w0) as [[fs|e|] w2] eqn:Hsub;
    try discriminate.
  apply submit_all_lengths in Hsub. simpl in Hsub.
  unfold bind at 1.
  destruct (scrape_aeris _ w2) as [[dfs|e|] w3]; try discriminate.
  unfold bind at 1.
  destruct (results_of (weather_data_wunderground fs) w3) as [[l1|e|] w4] eqn:H1;
    try discriminate.
  unfold bind at 1.
  destruct (results_of (weather_data_weather_gov fs) w4) as [[l2|e|] w5] eqn:H2;
    try discriminate.
  unfold bind at 1.
  destruct (results_of (weather_data_weather_com fs) w5) as [[l3|e|] w6] eqn:H3;
    try discriminate.
  intros H. injection H as <- _ _.
  apply results_of_length in H1, H2, H3. simpl. lia.
Qed.

(** A page job that succeeds when it is scraped again has its table added
    to the results of its source, as a table. *)
Lemma rescrape_one_keeps_table s url loc res w t w1 :
  scrape_page_try s url loc w = (Ok t, w1) ->
  rescrape_one url loc (source_name s) res w =
  (Ok (match s with
       | Wunderground =>
           mkResults (weather_data_wunderground_results res ++ [t])
                     (weather_data_weather_gov_results res)
                     (weather_data_weather_com_results res)
       | WeatherGov =>
           mkResults (weather_data_wunderground_results res)
                     (weather_data_weather_gov_results res ++ [t])
                     (weather_data_weather_com_results res)
       | WeatherCom =>
           mkResults (weather_data_wunderground_results res)
                     (weather_data_weather_gov_results res)
                     (weather_data_weather_com_results res ++ [t])
       end), w1).
Proof.
  intros Htry.
  pose proof (scrape_page_unfold s url loc w) as Hscrape.
  rewrite Htry in Hscrape.
  destruct s; simpl in *; unfold rescrape_one, bind; simpl;
    rewrite Hscrape; reflexivity.
Qed.


(* ===================================================================== *)
(** ** The driver *)
(* ===================================================================== *)

Lemma count_occ_snoc (l : list query) (q : query) :
  count_occ query_eq_dec (l ++ [q]) q = S (count_occ query_eq_dec l q).
Proof.
  rewrite count_occ_app. simpl.
  destruct (query_eq_dec q q) as [_|Hne]; [lia | contradiction].
Qed.

Lemma count_occ_snoc_other (l : list query) (q q' : query) :
  q' <> q ->
  count_occ query_eq_dec (l ++ [q']) q = count_occ query_eq_dec l q.
Proof.
  intros Hne. rewrite count_occ_app. simpl.
  destruct (query_eq_dec q' q) as [Heq|_]; [contradiction | lia].
Qed.

(** [initialize_driver('chrome')]: a new session when the browser starts, and
    [UnboundLocalError] when it does not. *)
Lemma initialize_driver_chrome w :
  initialize_driver "chrome" w =
  match err (next_launch w) with
  | None =>
      (Ok (S (count_occ query_eq_dec (asked w) QLaunch)),
       set_open_sessions
         (open_sessions w ++ [S (count_occ query_eq_dec (asked w) QLaunch)])
         (set_asked (asked w ++ [QLaunch]) w))
  | Some e =>
      (Raise (UnboundLocalError "driver"), set_asked (asked w ++ [QLaunch]) w)
  end.
Proof.
  unfold initialize_driver, webdriver_Chrome, call, ask, bind, try_except,
    next_launch.
  simpl.
  destruct (err (net w QLaunch (count_occ query_eq_dec (asked w) QLaunch)));
    simpl; [reflexivity|].
  rewrite count_occ_snoc. reflexivity.
Qed.

Lemma random_randint_0_2 w :
  random_randint 0 2 w =
  (Ok (number (next_randint w) mod 3), set_asked (asked w ++ [QRandint 0 2]) w).
Proof. reflexivity. Qed.

(** C10, as the code has it.  For every browser argument other than
    ['chrome'] and ['randomize'] (so for ['firefox'], for ['ie'] and for every
    unsupported name), and for ['randomize'] when the random draw does not
    pick ['chrome'], [initialize_driver] raises [UnboundLocalError]: its local
    variable [driver] is not bound at the final [return]. *)
Theorem initialize_driver_unbound :
  forall (browser : string) (w : world),
    browser <> "chrome" ->
    (browser = "randomize" -> number (next_randint w) mod 3 <> 0) ->
    fst (initialize_driver browser w) = Raise (UnboundLocalError "driver").
Proof.
  intros browser w Hchrome Hdraw.
  unfold initialize_driver.
  destruct (String.eqb_spec browser "randomize") as [Hrand|Hrand].
  - specialize (Hdraw Hrand).
    assert (Hlt : number (next_randint w) mod 3 < 3)
      by (apply Nat.mod_upper_bound; discriminate).
    unfold bind at 1. unfold bind at 1. rewrite random_randint_0_2.
    destruct (number (next_randint w) mod 3) as [|[|[|k]]];
      [contradiction | reflexivity | reflexivity | lia].
  - unfold bind, try_except, ret. simpl.
    destruct (String.eqb_spec browser "chrome") as [Hc|_]; [contradiction|].
    destruct (String.eqb browser "firefox"); [reflexivity|].
    destruct (String.eqb browser "ie"); reflexivity.
Qed.

Lemma initialize_driver_unbound_witness :
  fst (initialize_driver "firefox" (start all_fine)) =
  Raise (UnboundLocalError "driver").
Proof.
  apply (initialize_driver_unbound "firefox" (start all_fine)).
  - discriminate.
  - discriminate.
Defined.

(** C10 fails for the default argument: ['randomize'] is not ['chrome'], and
    when the draw is 0 the function returns a driver. *)
Lemma initialize_driver_randomize_example :
  "randomize" <> "chrome" /\
  number (next_randint (start all_fine)) = 0 /\
  fst (initialize_driver "randomize" (start all_fine)) = Ok 1.
Proof.
  split; [discriminate|]. split; vm_compute; reflexivity.
Qed.

(* ===================================================================== *)
(** ** The failure lists *)
(* ===================================================================== *)

(** C1 at a failing input.  The guard [url not in FAILED_URLS] is true for
    every URL and every list, so a failure is appended whether or not its
    endpoint is on the list.  With two weather stations that share their
    Wunderground URL and Wunderground pages that do not parse, [FAILED_URLS]
    holds that endpoint twice after the first pass. *)
Theorem failed_urls_holds_endpoint_twice :
  (forall (url : string) (l : list failed_url),
      negb (py_in (PyStr url) (map tuple_val l)) = true) /\
  wunderground_url station_a = wunderground_url station_b /\
  FAILED_URLS (snd (first_pass [station_a; station_b] (start wunderground_down))) =
    [(wunderground_url station_a, "KNYC", "Wunderground.com");
     (wunderground_url station_a, "KLGA", "Wunderground.com")] /\
  map failed_endpoint
      (FAILED_URLS (snd (first_pass [station_a; station_b]
                           (start wunderground_down)))) =
    [wunderground_url station_a; wunderground_url station_a].
Proof.
  split; [intros url l; rewrite url_in_failed_false; reflexivity|].
  split; [reflexivity|]. split; vm_compute; reflexivity.
Qed.

(* ===================================================================== *)
(** ** The re-scraping loops *)
(* ===================================================================== *)

Lemma scrape_page_uncut s url loc : uncut (scrape_page s url loc).
Proof.
  intros w. destruct (scrape_page_returns s url loc w) as [df Hdf].
  rewrite Hdf. discriminate.
Qed.

Lemma rescrape_one_uncut url loc source res :
  uncut (rescrape_one url loc source res).
Proof.
  pose proof (scrape_page_uncut Wunderground).
  pose proof (scrape_page_uncut WeatherGov).
  pose proof (scrape_page_uncut WeatherCom).
  unfold rescrape_one.
  destruct (String.eqb source "Wunderground.com"); [uncut_tac|].
  destruct (String.eqb source "Weather.gov"); [uncut_tac|].
  destruct (String.eqb source "Weather.com"); uncut_tac.
Qed.

(** The first loop counts its iterations: from [rescrape_count], it exits
    within [100 - rescrape_count] iterations, whatever the jobs do. *)
Lemma rescrape_loop_exits fuel : forall rescrape_count res w,
  100 <= rescrape_count + fuel ->
  fst (rescrape_loop fuel rescrape_count res w) <> OutOfFuel.
Proof.
  induction fuel as [|fuel IH]; intros rescrape_count res w Hfuel; simpl;
    destruct (FAILED_URLS w) as [|[[url loc] source] failed']; try discriminate;
    destruct (Nat.ltb_spec rescrape_count 100) as [Hlt|Hge]; try discriminate.
  - lia.
  - unfold bind.
    match goal with
    | |- context [try_except ?c ?h ?w1] =>
        assert (Hcut : fst (try_except c h w1) <> OutOfFuel);
        [| destruct (try_except c h w1) as [[res'|e|] w2]; simpl in *;
           [apply IH; lia | discriminate | contradiction] ]
    end.
    apply uncut_try_except; [apply rescrape_one_uncut|].
    intros e. unfold note_failed_url. uncut_tac.
    intros w0. destruct (negb _); discriminate.
Qed.

(** An Aeris request that fails puts the job back on [FAILED_URLS_AERIS]. *)
Lemma scrape_aeris_request_fails url loc w e :
  err (net w (QRequest url) (count_occ query_eq_dec (asked w) (QRequest url))) = Some e ->
  scrape_aeris [(url, loc)] w =
  (Ok [],
   set_FAILED_URLS_AERIS (FAILED_URLS_AERIS w ++ [(url, loc, "Aeris")])
     (set_asked (asked w ++ [QRequest url]) w)).
Proof.
  intros Herr. unfold scrape_aeris. rewrite scrape_aeris_loop_cons.
  unfold scrape_aeris_try, call, ask, bind. simpl. rewrite Herr. reflexivity.
Qed.

(** The second loop does not count: as long as every Aeris request fails and
    a job is on [FAILED_URLS_AERIS], no number of iterations lets it exit. *)
Lemma rescrape_loop_aeris_cut fuel : forall res w,
  (forall url n, err (net w (QRequest url) n) <> None) ->
  FAILED_URLS_AERIS w <> [] ->
  fst (rescrape_loop_aeris fuel 0 res w) = OutOfFuel.
Proof.
  induction fuel as [|fuel IH]; intros res w Hdown Hfailed; simpl;
    destruct (FAILED_URLS_AERIS w) as [|[[url loc] source] failed'] eqn:Hlist;
    try contradiction; try reflexivity.
  unfold bind at 1. unfold try_except. unfold bind at 1.
  destruct (err (net w (QRequest url)
                  (count_occ query_eq_dec (asked w) (QRequest url)))) as [e|] eqn:He.
  - rewrite (scrape_aeris_request_fails url loc _ e) by exact He.
    apply IH.
    + exact Hdown.
    + simpl. destruct failed'; discriminate.
  - exfalso. exact (Hdown _ _ He).
Qed.

(** C2 at a failing input.  One location whose Aeris requests all fail, while
    the three page-rendered sources succeed: the first loop has nothing to do
    and the Aeris loop is still running after any number of iterations, so
    the run never reaches the end. *)
Theorem aeris_rescrape_loop_never_exits :
  forall fuel fuel_aeris : nat,
    fst (main fuel fuel_aeris [miami] (start aeris_down)) = OutOfFuel.
Proof.
  intros fuel fuel_aeris. unfold main. unfold bind at 1.
  destruct (first_pass [miami] (start aeris_down)) as [r w1] eqn:Hfirst.
  vm_compute in Hfirst. injection Hfirst as Hr Hw. subst r.
  unfold bind at 1.
  assert (Hpages : FAILED_URLS w1 = []) by (subst w1; reflexivity).
  assert (Hloop : forall res, rescrape_loop fuel 0 res w1 = (Ok res, w1)).
  { intros res. destruct fuel; simpl; rewrite Hpages; reflexivity. }
  rewrite Hloop. unfold bind at 1.
  match goal with
  | |- context [rescrape_loop_aeris fuel_aeris 0 ?r w1] =>
      assert (Hcut : fst (rescrape_loop_aeris fuel_aeris 0 r w1) = OutOfFuel);
      [ apply rescrape_loop_aeris_cut; subst w1; simpl;
        [intros url n|]; discriminate
      | destruct (rescrape_loop_aeris fuel_aeris 0 r w1) as [[res'|e|] w2];
        simpl in Hcut; try discriminate; reflexivity ]
  end.
Qed.

(** C3 at a failing input.  One location whose Aeris request fails in the
    first pass and succeeds when it is made again: the second loop gets a
    table of two rows for the job and does not put the job back on
    [FAILED_URLS_AERIS], but the table is inside the list that
    [scrape_aeris] returned, the final filter drops that list, and the run
    ends without an Aeris file. *)
Theorem aeris_rescraped_table_is_dropped :
  (exists res, fst (first_pass [miami] (start aeris_down_once)) = Ok (res, [])) /\
  FAILED_URLS_AERIS (snd (first_pass [miami] (start aeris_down_once))) =
    [(aeris_url miami, "KMIA", "Aeris")] /\
  (exists t,
      fst (rescrape_loop_aeris 100 0 []
             (snd (first_pass [miami] (start aeris_down_once)))) =
        Ok [AerisList [t]] /\
      length (rows t) = 2) /\
  FAILED_URLS_AERIS
    (snd (rescrape_loop_aeris 100 0 []
            (snd (first_pass [miami] (start aeris_down_once))))) = [] /\
  fst (main 100 100 [miami] (start aeris_down_once)) = Ok tt /\
  csv_attempts (snd (main 100 100 [miami] (start aeris_down_once))) =
    [wunderground_csv; weather_gov_csv; weather_com_csv] /\
  map fst (csv_files (snd (main 100 100 [miami] (start aeris_down_once)))) =
    [wunderground_csv; weather_gov_csv; weather_com_csv].
Proof.
  split; [eexists; vm_compute; reflexivity|].
  split; [vm_compute; reflexivity|].
  split; [eexists; split; [vm_compute; reflexivity | reflexivity]|].
  split; [vm_compute; reflexivity|].
  split; [vm_compute; reflexivity|].
  split; vm_compute; reflexivity.
Qed.

(* ===================================================================== *)
(** ** Saving the files *)
(* ===================================================================== *)

(** Saving one source ends in one of four ways: nothing to concatenate; the
    write is tried and fails; the file is written and the count of the
    stations fails; the file is written and all is well. *)
Lemma save_csv_cases name results w :
  exists r w',
    save_csv name results w = (r, w') /\
    ((results = [] /\ r = Raise (ValueError "No objects to concatenate") /\ w' = w) \/
     (results <> [] /\
      csv_attempts w' = csv_attempts w ++ [name] /\
      ((csv_files w' = csv_files w /\ exists e, r = Raise e) \/
       (csv_files w' = csv_files w ++ [(name, concat_frames results)] /\
        (r = Ok tt \/ exists e, r = Raise e))))).
Proof.
  destruct results as [|df results].
  - exists (Raise (ValueError "No objects to concatenate")), w.
    split; [reflexivity|]. left. auto.
  - unfold save_csv, pd_concat, to_csv, call, ask, pd_getitem, bind, ret, raise.
    simpl.
    destruct (err (net w (QToCsv name)
                     (count_occ query_eq_dec (asked w) (QToCsv name)))) as [e|].
    + eexists _, _. split; [reflexivity|]. right.
      split; [discriminate|]. split; [reflexivity|]. left. eauto.
    + simpl.
      destruct (has_column (concat_frames (df :: results)) "WS");
        (eexists _, _; split; [reflexivity|]; right;
         split; [discriminate|]; split; [reflexivity|]; right; eauto).
Qed.

Ltac save_next :=
  match goal with
  | |- context [save_csv ?n ?r ?w] =>
      let rr := fresh "r" in
      let w' := fresh "w" in
      let E := fresh "E" in
      let Hat := fresh "Hattempts" in
      let Hfi := fresh "Hfiles" in
      destruct (save_csv_cases n r w)
        as (rr & w' & E &
            [(_ & -> & ->) |
             (_ & Hat & [(Hfi & ? & ->) | (Hfi & [-> | (? & ->)])])]);
      rewrite E; clear E; simpl
  end.

Ltac save_leaf k j :=
  split; [reflexivity|]; exists k, j;
  repeat match goal with
         | H : csv_attempts _ = _ |- _ => rewrite H; clear H
         | H : csv_files _ = _ |- _ => rewrite H; clear H
         end;
  rewrite ?map_app; simpl;
  split; [reflexivity|]; split; [reflexivity|]; lia.

Lemma save_outputs_prefix res aeris w :
  csv_attempts w = [] ->
  csv_files w = [] ->
  fst (save_outputs res aeris w) = Ok tt /\
  exists k j : nat,
    csv_attempts (snd (save_outputs res aeris w)) = firstn k csv_order /\
    map fst (csv_files (snd (save_outputs res aeris w))) = firstn j csv_order /\
    j <= k <= S j /\ k <= 4.
Proof.
  intros Hattempts0 Hfiles0.
  unfold save_outputs, try_except, bind.
  save_next; [save_leaf 0 0 | save_leaf 1 0 | | save_leaf 1 1].
  save_next; [save_leaf 1 1 | save_leaf 2 1 | | save_leaf 2 2].
  save_next; [save_leaf 2 2 | save_leaf 3 2 | | save_leaf 3 3].
  save_next; [save_leaf 3 3 | save_leaf 4 3 | save_leaf 4 4 | save_leaf 4 4].
Qed.

(** What saving one source does, case by case. *)
Lemma save_csv_spec name results w :
  (forall name', name' <> name ->
     write_error (snd (save_csv name results w)) name' = write_error w name') /\
  csv_attempts (snd (save_csv name results w)) =
    csv_attempts w ++ match results with [] => [] | _ :: _ => [name] end /\
  csv_files (snd (save_csv name results w)) =
    csv_files w ++
    match results with
    | [] => []
    | _ :: _ =>
        match write_error w name with
        | Some _ => []
        | None => [(name, concat_frames results)]
        end
    end /\
  fst (save_csv name results w) <> OutOfFuel /\
  (fst (save_csv name results w) = Ok tt <->
   save_raises w (name, results) = false).
Proof.
  unfold save_raises, write_error. cbn [fst snd].
  destruct results as [|df results].
  - cbn. rewrite !app_nil_r.
    repeat split; try discriminate; reflexivity.
  - unfold save_csv, pd_concat, to_csv, call, ask, pd_getitem, bind, ret, raise.
    cbn [fst snd asked net csv_attempts csv_files set_asked set_csv_attempts
         set_csv_files].
    destruct (err (net w (QToCsv name)
                     (count_occ query_eq_dec (asked w) (QToCsv name)))) as [e|].
    + cbn [fst snd asked net csv_attempts csv_files set_asked set_csv_attempts
           set_csv_files].
      rewrite app_nil_r.
      repeat split; try discriminate; try reflexivity.
      intros name' Hne. rewrite count_occ_snoc_other by congruence. reflexivity.
    + cbn [fst snd asked net csv_attempts csv_files set_asked set_csv_attempts
           set_csv_files].
      destruct (has_column (concat_frames (df :: results)) "WS");
        cbn [fst snd asked net csv_attempts csv_files set_asked
             set_csv_attempts set_csv_files negb];
        repeat split; try discriminate; try reflexivity;
        intros name' Hne; rewrite count_occ_snoc_other by congruence;
        reflexivity.
Qed.

Lemma save_raises_same w w' job :
  write_error w' (fst job) = write_error w (fst job) ->
  save_raises w' job = save_raises w job.
Proof. intros H. unfold save_raises. rewrite H. reflexivity. Qed.

Lemma tried_written_same w w' jobs :
  (forall job, In job jobs ->
     write_error w' (fst job) = write_error w (fst job)) ->
  tried w' jobs = tried w jobs /\ written w' jobs = written w jobs.
Proof.
  induction jobs as [|job jobs IH]; intros Hsame; [split; reflexivity|].
  destruct IH as [IHt IHw]; [intros j Hj; apply Hsame; right; exact Hj|].
  cbn [tried written].
  rewrite (save_raises_same w w' job), (Hsame job), IHt, IHw
    by (try apply Hsame; left; reflexivity).
  split; reflexivity.
Qed.

(** Saving a list of sources with different file names tries and writes the
    files that [tried] and [written] list. *)
Lemma save_all_spec jobs : forall w,
  NoDup (map fst jobs) ->
  fst (save_all jobs w) <> OutOfFuel /\
  csv_attempts (snd (save_all jobs w)) = csv_attempts w ++ tried w jobs /\
  csv_files (snd (save_all jobs w)) = csv_files w ++ written w jobs.
Proof.
  induction jobs as [|[name results] jobs IH]; intros w Hnames.
  - cbn. rewrite !app_nil_r. repeat split. discriminate.
  - cbn [map fst] in Hnames. apply NoDup_cons_iff in Hnames as [Hfresh Hnames].
    destruct (save_csv_spec name results w)
      as (Herr & Hattempts & Hfiles & Hcut & Hok).
    cbn [save_all tried written fst snd]. unfold bind.
    destruct (save_csv name results w) as [[[]|e|] w1]; cbn [fst snd] in *.
    + assert (Hfine : save_raises w (name, results) = false)
        by (apply Hok; reflexivity).
      rewrite Hfine.
      destruct (IH w1 Hnames) as (Hcut' & Hattempts' & Hfiles').
      destruct (tried_written_same w w1 jobs) as [Ht Hw].
      { intros job Hjob. apply Herr. intros Heq. apply Hfresh.
        rewrite <- Heq. apply in_map. exact Hjob. }
      split; [exact Hcut'|].
      rewrite Hattempts', Hfiles', Hattempts, Hfiles, Ht, Hw.
      unfold save_raises in Hfine. cbn [fst snd] in Hfine.
      destruct results as [|df results]; [discriminate|].
      destruct (write_error w name); [discriminate|].
      rewrite <- !app_assoc. split; reflexivity.
    + assert (Hraises : save_raises w (name, results) = true).
      { destruct (save_raises w (name, results)); [reflexivity|].
        assert (Habs : @Raise unit e = Ok tt) by (apply Hok; reflexivity).
        discriminate. }
      rewrite Hraises, Hattempts, Hfiles.
      split; [discriminate|].
      destruct results as [|df results]; [split; reflexivity|].
      destruct (write_error w name); split; reflexivity.
    + contradiction.
Qed.

Lemma tried_names w jobs name :
  In name (tried w jobs) -> In name (map fst jobs).
Proof.
  induction jobs as [|job jobs IH]; cbn [tried map]; [intros []|].
  destruct (snd job); [intros []|].
  intros [<-|Hin]; [left; reflexivity|].
  destruct (save_raises w job); [destruct Hin|]. right. exact (IH Hin).
Qed.

Lemma written_names w jobs name df :
  In (name, df) (written w jobs) -> In name (map fst jobs).
Proof.
  induction jobs as [|job jobs IH]; cbn [written map]; [intros []|].
  destruct (snd job); [intros []|].
  destruct (write_error w (fst job)); [intros []|].
  intros [Heq|Hin]; [left; congruence|].
  destruct (save_raises w job); [destruct Hin|]. right. exact (IH Hin).
Qed.

(** The write of a source is tried when no source before it raised and the
    source has something to concatenate, and then only. *)
Lemma tried_in w pre : forall job post,
  NoDup (map fst (pre ++ job :: post)) ->
  In (fst job) (tried w (pre ++ job :: post)) <->
  all_saved w pre = true /\ snd job <> [].
Proof.
  unfold all_saved.
  induction pre as [|p pre IH]; intros job post Hnames.
  - cbn [app tried forallb]. destruct (snd job) as [|df dfs].
    + split; [intros []|intros [_ Hne]; contradiction].
    + split; [intros _; split; [reflexivity|discriminate]|].
      intros _. left. reflexivity.
  - cbn [app map] in Hnames. apply NoDup_cons_iff in Hnames as [Hfresh Hnames].
    assert (Hne : fst p <> fst job).
    { intros Heq. apply Hfresh. rewrite Heq, map_app. apply in_or_app.
      right. left. reflexivity. }
    cbn [app tried forallb].
    unfold save_raises at 1. destruct (snd p) as [|df dfs] eqn:Hsnd.
    + assert (Hr : save_raises w p = true)
        by (unfold save_raises; rewrite Hsnd; reflexivity).
      rewrite Hr. cbn [negb andb].
      split; [intros []|intros [Habs _]; discriminate].
    + fold (save_raises w p).
      assert (Hfold : save_raises w p =
                      match write_error w (fst p) with
                      | Some _ => true
                      | None => negb (has_column (concat_frames (snd p)) "WS")
                      end)
        by (unfold save_raises; rewrite Hsnd; reflexivity).
      rewrite Hsnd in Hfold. rewrite <- Hfold.
      destruct (save_raises w p); cbn [negb andb].
      * split; [intros [Heq|[]]; contradiction|intros [Habs _]; discriminate].
      * rewrite <- (IH job post Hnames).
        split; [intros [Heq|Hin]; [contradiction|exact Hin]|].
        intros Hin. right. exact Hin.
Qed.

(** The file of a source is written when its write is tried and does not
    fail, and then only; it holds the concatenation of the tables. *)
Lemma written_in w pre : forall job post df,
  NoDup (map fst (pre ++ job :: post)) ->
  In (fst job, df) (written w (pre ++ job :: post)) <->
  all_saved w pre = true /\ snd job <> [] /\
  write_error w (fst job) = None /\ df = concat_frames (snd job).
Proof.
  unfold all_saved.
  induction pre as [|p pre IH]; intros job post df Hnames.
  - cbn [app written forallb] in *.
    cbn [map] in Hnames. apply NoDup_cons_iff in Hnames as [Hfresh Hnames].
    destruct (snd job) as [|t ts] eqn:Hsnd.
    + split; [intros []|intros (_ & Hne & _); contradiction].
    + destruct (write_error w (fst job)) as [e|].
      * split; [intros []|intros (_ & _ & Habs & _); discriminate].
      * split.
        -- intros [Heq|Hin].
           ++ injection Heq as <-. repeat split. discriminate.
           ++ exfalso. apply Hfresh.
              destruct (save_raises w job); [destruct Hin|].
              exact (written_names w post _ _ Hin).
        -- intros (_ & _ & _ & ->). left. reflexivity.
  - cbn [app map] in Hnames. apply NoDup_cons_iff in Hnames as [Hfresh Hnames].
    assert (Hne : fst p <> fst job).
    { intros Heq. apply Hfresh. rewrite Heq, map_app. apply in_or_app.
      right. left. reflexivity. }
    cbn [app written forallb].
    destruct (snd p) as [|t ts] eqn:Hsnd.
    + assert (Hr : save_raises w p = true)
        by (unfold save_raises; rewrite Hsnd; reflexivity).
      rewrite Hr. cbn [negb andb].
      split; [intros []|intros [Habs _]; discriminate].
    + destruct (write_error w (fst p)) as [e|] eqn:Herr.
      * assert (Hr : save_raises w p = true)
          by (unfold save_raises; rewrite Hsnd, Herr; reflexivity).
        rewrite Hr. cbn [negb andb].
        split; [intros []|intros [Habs _]; discriminate].
      * destruct (save_raises w p); cbn [negb andb].
        -- split; [intros [Heq|[]]; congruence|intros [Habs _]; discriminate].
        -- rewrite <- (IH job post df Hnames).
           split; [intros [Heq|Hin]; [congruence|exact Hin]|].
           intros Hin. right. exact Hin.
Qed.

Lemma save_jobs_names res aeris : NoDup (map fst (save_jobs res aeris)).
Proof.
  cbn. repeat constructor; cbn; intuition discriminate.
Qed.

(** The saving block is the four sources saved one after the other, with
    what they raise caught. *)
Lemma save_outputs_save_all res aeris w :
  snd (save_outputs res aeris w) = snd (save_all (save_jobs res aeris) w).
Proof.
  unfold save_outputs, save_jobs, save_all, try_except, bind. cbn [fst snd].
  destruct (save_csv wunderground_csv _ w) as [[[]|e|] w1]; try reflexivity.
  destruct (save_csv weather_gov_csv _ w1) as [[[]|e|] w2]; try reflexivity.
  destruct (save_csv weather_com_csv _ w2) as [[[]|e|] w3]; try reflexivity.
  destruct (save_csv aeris_csv _ w3) as [[[]|e|] w4]; reflexivity.
Qed.

(** The files tried and written by the saving block, source by source. *)
Lemma save_outputs_files res aeris w :
  csv_attempts w = [] ->
  csv_files w = [] ->
  csv_attempts (snd (save_outputs res aeris w)) = tried w (save_jobs res aeris) /\
  csv_files (snd (save_outputs res aeris w)) = written w (save_jobs res aeris).
Proof.
  intros Hattempts0 Hfiles0. rewrite save_outputs_save_all.
  destruct (save_all_spec (save_jobs res aeris) w (save_jobs_names res aeris))
    as (_ & Hattempts & Hfiles).
  rewrite Hattempts, Hfiles, Hattempts0, Hfiles0. split; reflexivity.
Qed.

(** A source that raises when it is saved ends the block: no write is tried
    for a source after it. *)
Lemma save_raises_skips res aeris w pre job post later :
  csv_attempts w = [] ->
  csv_files w = [] ->
  save_jobs res aeris = pre ++ job :: post ->
  save_raises w job = true ->
  In later post ->
  ~ In (fst later) (csv_attempts (snd (save_outputs res aeris w))).
Proof.
  intros Hattempts0 Hfiles0 Hjobs Hraises Hlater Hin.
  destruct (save_outputs_files res aeris w Hattempts0 Hfiles0) as [Hattempts _].
  rewrite Hattempts in Hin.
  apply in_split in Hlater as (mid & post' & ->).
  pose proof (save_jobs_names res aeris) as Hnames.
  rewrite Hjobs in Hin, Hnames.
  change (pre ++ job :: mid ++ later :: post')
    with (pre ++ (job :: mid) ++ later :: post') in Hin, Hnames.
  rewrite app_assoc in Hin, Hnames.
  apply tried_in in Hin; [|exact Hnames].
  destruct Hin as [Hall _]. unfold all_saved in Hall.
  rewrite forallb_app in Hall. apply andb_prop in Hall as [_ Hall].
  cbn [forallb] in Hall. rewrite Hraises in Hall. discriminate.
Qed.

(** C4, as the code has it.  The four files are saved under one [try], in
    the order Wunderground, Weather.gov, Weather.com, Aeris, and the block
    does not raise.  The write of a source is tried when the source has
    something to concatenate and no source before it raised while it was
    saved (nothing to concatenate, a write that failed, a count of the
    stations that failed), and then only; its file is written when, besides,
    its own write does not fail, and holds the concatenation of its tables.
    So a source that raises is the last one for which anything is done: no
    write is tried for any source after it, and the files written before it
    are kept.  In numbers: the files tried are the first [k] of the order
    and the files written the first [j], with [j <= k <= j + 1]. *)
Theorem save_outputs_one_scope :
  forall (res : page_results) (aeris : list aeris_result) (w : world),
    csv_attempts w = [] ->
    csv_files w = [] ->
    fst (save_outputs res aeris w) = Ok tt /\
    (exists k j : nat,
        csv_attempts (snd (save_outputs res aeris w)) = firstn k csv_order /\
        map fst (csv_files (snd (save_outputs res aeris w))) = firstn j csv_order /\
        j <= k <= S j /\ k <= 4) /\
    (forall (pre post : list (string * list DataFrame))
            (job : string * list DataFrame),
        save_jobs res aeris = pre ++ job :: post ->
        (In (fst job) (csv_attempts (snd (save_outputs res aeris w))) <->
         all_saved w pre = true /\ snd job <> []) /\
        (forall df,
            In (fst job, df) (csv_files (snd (save_outputs res aeris w))) <->
            all_saved w pre = true /\ snd job <> [] /\
            write_error w (fst job) = None /\ df = concat_frames (snd job)) /\
        (save_raises w job = true ->
         forall later, In later post ->
           ~ In (fst later) (csv_attempts (snd (save_outputs res aeris w))))).
Proof.
  intros res aeris w Hattempts0 Hfiles0.
  destruct (save_outputs_prefix res aeris w Hattempts0 Hfiles0) as [Hok Hprefix].
  split; [exact Hok|]. split; [exact Hprefix|].
  intros pre post job Hjobs.
  destruct (save_outputs_files res aeris w Hattempts0 Hfiles0)
    as [Hattempts Hfiles].
  pose proof (save_jobs_names res aeris) as Hnames.
  split; [|split].
  - rewrite Hattempts, Hjobs. apply tried_in. rewrite <- Hjobs. exact Hnames.
  - intros df. rewrite Hfiles, Hjobs. apply written_in.
    rewrite <- Hjobs. exact Hnames.
  - intros Hraises later Hlater.
    exact (save_raises_skips res aeris w pre job post later
             Hattempts0 Hfiles0 Hjobs Hraises Hlater).
Qed.

(** The tables of Weather.com have no [WS] column: its file is written, the
    count of its stations fails, and nothing is tried for Aeris. *)
Lemma save_outputs_one_scope_witness :
  fst (save_outputs
         (mkResults [set_column page_sample "WS" "KMIA"]
                    [set_column page_sample "WS" "KMIA"] [page_sample])
         [AerisFrame aeris_sample] (start all_fine)) = Ok tt /\
  (exists k j : nat,
      csv_attempts
        (snd (save_outputs
                (mkResults [set_column page_sample "WS" "KMIA"]
                           [set_column page_sample "WS" "KMIA"] [page_sample])
                [AerisFrame aeris_sample] (start all_fine))) =
        firstn k csv_order /\
      map fst
        (csv_files
           (snd (save_outputs
                   (mkResults [set_column page_sample "WS" "KMIA"]
                              [set_column page_sample "WS" "KMIA"] [page_sample])
                   [AerisFrame aeris_sample] (start all_fine)))) =
        firstn j csv_order /\
      j <= k <= S j /\ k <= 4) /\
  (forall (pre post : list (string * list DataFrame))
          (job : string * list DataFrame),
      save_jobs (mkResults [set_column page_sample "WS" "KMIA"]
                           [set_column page_sample "WS" "KMIA"] [page_sample])
                [AerisFrame aeris_sample] = pre ++ job :: post ->
      (In (fst job)
          (csv_attempts
             (snd (save_outputs
                     (mkResults [set_column page_sample "WS" "KMIA"]
                                [set_column page_sample "WS" "KMIA"]
                                [page_sample])
                     [AerisFrame aeris_sample] (start all_fine)))) <->
       all_saved (start all_fine) pre = true /\ snd job <> []) /\
      (forall df,
          In (fst job, df)
             (csv_files
                (snd (save_outputs
                        (mkResults [set_column page_sample "WS" "KMIA"]
                                   [set_column page_sample "WS" "KMIA"]
                                   [page_sample])
                        [AerisFrame aeris_sample] (start all_fine)))) <->
          all_saved (start all_fine) pre = true /\ snd job <> [] /\
          write_error (start all_fine) (fst job) = None /\
          df = concat_frames (snd job)) /\
      (save_raises (start all_fine) job = true ->
       forall later, In later post ->
         ~ In (fst later)
              (csv_attempts
                 (snd (save_outputs
                         (mkResults [set_column page_sample "WS" "KMIA"]
                                    [set_column page_sample "WS" "KMIA"]
                                    [page_sample])
                         [AerisFrame aeris_sample] (start all_fine)))))).
Proof.
  apply (save_outputs_one_scope
           (mkResults [set_column page_sample "WS" "KMIA"]
                      [set_column page_sample "WS" "KMIA"] [page_sample])
           [AerisFrame aeris_sample] (start all_fine)).
  - reflexivity.
  - reflexivity.
Defined.

(** C4 fails: the Wunderground file cannot be written, the three other
    sources have their tables, and no write is tried for any of them. *)
Lemma write_failure_skips_other_sources :
  err (disk_error (QToCsv wunderground_csv) 0) =
    Some (OSError "No space left on device") /\
  fst (main 100 100 [miami] (start disk_error)) = Ok tt /\
  csv_attempts (snd (main 100 100 [miami] (start disk_error))) =
    [wunderground_csv] /\
  csv_files (snd (main 100 100 [miami] (start disk_error))) = [] /\
  ~ In weather_gov_csv
      (csv_attempts (snd (main 100 100 [miami] (start disk_error)))) /\
  ~ In weather_com_csv
      (csv_attempts (snd (main 100 100 [miami] (start disk_error)))) /\
  ~ In aeris_csv
      (csv_attempts (snd (main 100 100 [miami] (start disk_error)))).
Proof.
  split; [vm_compute; reflexivity|].
  split; [vm_compute; reflexivity|].
  assert (Hattempts : csv_attempts (snd (main 100 100 [miami] (start disk_error)))
                      = [wunderground_csv]) by (vm_compute; reflexivity).
  rewrite Hattempts.
  split; [reflexivity|].
  split; [vm_compute; reflexivity|].
  repeat split; intros [Heq|[]]; discriminate.
Qed.

(* ===================================================================== *)
(** ** What the passes and the loops leave alone *)
(* ===================================================================== *)

Lemma steps_weaken (F G : step_rel) A (c : M A) :
  (forall w w', F w w' -> G w w') -> steps F c -> steps G c.
Proof. intros Himp Hc w. apply Himp, Hc. Qed.

Lemma browsing_pages w w' :
  unchanged beside_browsing w w' -> unchanged beside_pages w w'.
Proof. unfold unchanged, beside_browsing, beside_pages. simpl. congruence. Qed.

Lemma browsing_aeris w w' :
  unchanged beside_browsing w w' -> unchanged beside_aeris w w'.
Proof. unfold unchanged, beside_browsing, beside_aeris. simpl. congruence. Qed.

Lemma browsing_csv w w' :
  unchanged beside_browsing w w' -> unchanged csv_part w w'.
Proof. unfold unchanged, beside_browsing, csv_part. simpl. congruence. Qed.

Lemma pages_csv w w' : unchanged beside_pages w w' -> unchanged csv_part w w'.
Proof. unfold unchanged, beside_pages, csv_part. simpl. congruence. Qed.

Lemma aeris_csv_part w w' :
  unchanged beside_aeris w w' -> unchanged csv_part w w'.
Proof. unfold unchanged, beside_aeris, csv_part. simpl. congruence. Qed.

Lemma note_failed_url_beside_pages url loc source :
  steps (unchanged beside_pages) (note_failed_url url loc source).
Proof. intros w. rewrite note_failed_url_appends. reflexivity. Qed.

Lemma note_failed_url_aeris_beside_aeris url loc source :
  steps (unchanged beside_aeris) (note_failed_url_aeris url loc source).
Proof. intros w. rewrite note_failed_url_aeris_appends. reflexivity. Qed.

Lemma scrape_page_beside_pages s url loc :
  steps (unchanged beside_pages) (scrape_page s url loc).
Proof.
  pose proof note_failed_url_beside_pages.
  assert (Htry : steps (unchanged beside_pages) (scrape_page_try s url loc))
    by (eapply steps_weaken;
        [exact browsing_pages | apply scrape_page_try_beside_browsing]).
  destruct s; simpl in *;
    unfold scrape_wunderground, scrape_weather_gov, scrape_weather_com;
    steps_tac.
Qed.

Lemma submit_all_beside_pages urls : forall fs,
  steps (unchanged beside_pages) (submit_all urls fs).
Proof.
  pose proof (scrape_page_beside_pages Wunderground).
  pose proof (scrape_page_beside_pages WeatherGov).
  pose proof (scrape_page_beside_pages WeatherCom).
  induction urls as [|r urls IH]; intros fs; simpl in *; steps_tac.
Qed.

Lemma scrape_aeris_loop_beside_aeris url_loc : forall return_data,
  steps (unchanged beside_aeris) (scrape_aeris_loop return_data url_loc).
Proof.
  pose proof note_failed_url_aeris_beside_aeris.
  assert (Htry : forall url loc,
             steps (unchanged beside_aeris) (scrape_aeris_try url loc))
    by (intros; eapply steps_weaken;
        [exact browsing_aeris | apply scrape_aeris_try_beside_browsing]).
  induction url_loc as [|[url loc] url_loc IH]; intros return_data; simpl;
    steps_tac.
Qed.

Lemma first_pass_csv loc_df : steps (unchanged csv_part) (first_pass loc_df).
Proof.
  unfold first_pass, scrape_aeris.
  apply steps_bind;
    [eapply steps_weaken;
     [exact browsing_csv | apply initialize_driver_beside_browsing]|intros d].
  apply steps_bind;
    [eapply steps_weaken; [exact pages_csv | apply submit_all_beside_pages]
    |intros fs].
  apply steps_bind;
    [eapply steps_weaken;
     [exact aeris_csv_part | apply scrape_aeris_loop_beside_aeris]|intros a].
  steps_tac.
Qed.

Lemma rescrape_one_beside_pages url loc source res :
  steps (unchanged beside_pages) (rescrape_one url loc source res).
Proof.
  pose proof (scrape_page_beside_pages Wunderground).
  pose proof (scrape_page_beside_pages WeatherGov).
  pose proof (scrape_page_beside_pages WeatherCom).
  unfold rescrape_one. simpl in *. steps_tac.
Qed.

Lemma rescrape_loop_beside_pages fuel : forall rescrape_count res,
  steps (unchanged beside_pages) (rescrape_loop fuel rescrape_count res).
Proof.
  pose proof rescrape_one_beside_pages. pose proof note_failed_url_beside_pages.
  induction fuel as [|fuel IH]; intros rescrape_count res w; simpl;
    destruct (FAILED_URLS w) as [|[[url loc] source] failed'];
    try reflexivity;
    destruct (rescrape_count <? 100)%nat; try reflexivity.
  match goal with
  | |- context [bind ?c ?k ?w1] =>
      assert (Hbody : steps (unchanged beside_pages) (bind c k))
        by steps_tac;
      exact (Hbody w1)
  end.
Qed.

(** In the second loop the [try] never raises, so its handler never puts
    anything on [FAILED_URLS]. *)
Lemma try_except_returns A (c : M A) (h : exn -> M A) w :
  (exists a, fst (c w) = Ok a) -> try_except c h w = c w.
Proof.
  intros [a Ha]. unfold try_except.
  destruct (c w) as [[a'|e|] w1]; simpl in Ha; try discriminate; reflexivity.
Qed.

Lemma rescrape_loop_aeris_beside_aeris fuel : forall rescrape_count res,
  steps (unchanged beside_aeris) (rescrape_loop_aeris fuel rescrape_count res).
Proof.
  induction fuel as [|fuel IH]; intros rescrape_count res w; simpl;
    destruct (FAILED_URLS_AERIS w) as [|[[url loc] source] failed'];
    try reflexivity;
    destruct (rescrape_count <? 100)%nat; try reflexivity.
  unfold bind at 1. rewrite try_except_returns.
  - unfold bind at 1.
    pose proof (scrape_aeris_loop_beside_aeris [(url, loc)] []
                  (set_FAILED_URLS_AERIS failed' w)) as Hsame.
    unfold scrape_aeris.
    destruct (scrape_aeris_loop [] [(url, loc)]
                (set_FAILED_URLS_AERIS failed' w)) as [[dfs|e|] w1];
      simpl in *; try exact Hsame.
    rewrite IH. exact Hsame.
  - unfold bind, scrape_aeris.
    destruct (scrape_aeris_loop_returns [(url, loc)] []
                (set_FAILED_URLS_AERIS failed' w)) as [dfs Hdfs].
    destruct (scrape_aeris_loop [] [(url, loc)]
                (set_FAILED_URLS_AERIS failed' w)) as [[dfs'|e|] w1];
      simpl in Hdfs; try discriminate.
    eexists. reflexivity.
Qed.

Lemma aeris_frames_app l1 l2 :
  aeris_frames (l1 ++ l2) = aeris_frames l1 ++ aeris_frames l2.
Proof.
  induction l1 as [|[df|dfs] l1 IH]; simpl; [reflexivity| |exact IH].
  rewrite IH. reflexivity.
Qed.

(** The second loop adds lists, never tables, to the Aeris results. *)
Lemma rescrape_loop_aeris_frames fuel : forall rescrape_count res w res' w',
  rescrape_loop_aeris fuel rescrape_count res w = (Ok res', w') ->
  aeris_frames res' = aeris_frames res.
Proof.
  induction fuel as [|fuel IH]; intros rescrape_count res w res' w'; simpl;
    destruct (FAILED_URLS_AERIS w) as [|[[url loc] source] failed'];
    try (intros H; injection H as <- _; reflexivity);
    destruct (rescrape_count <? 100)%nat;
    try (intros H; injection H as <- _; reflexivity);
    try discriminate.
  unfold bind at 1. unfold try_except. unfold bind at 1.
  destruct (scrape_aeris [(url, loc)] (set_FAILED_URLS_AERIS failed' w))
    as [[dfs|e|] w1]; simpl.
  - intros H. apply IH in H. rewrite H, aeris_frames_app. simpl.
    apply app_nil_r.
  - unfold bind. rewrite note_failed_url_appends. simpl. apply IH.
  - discriminate.
Qed.

(* ===================================================================== *)
(** ** Errors of a job *)
(* ===================================================================== *)

Lemma scrape_aeris_loop_app l1 : forall l2 return_data w,
  scrape_aeris_loop return_data (l1 ++ l2) w =
  bind (scrape_aeris_loop return_data l1)
       (fun return_data' => scrape_aeris_loop return_data' l2) w.
Proof.
  induction l1 as [|[url loc] l1 IH]; intros l2 return_data w.
  - reflexivity.
  - rewrite <- app_comm_cons. unfold bind at 1.
    rewrite !scrape_aeris_loop_cons.
    destruct (scrape_aeris_try url loc w) as [[aeris|e|] w1];
      try reflexivity; rewrite IH; reflexivity.
Qed.

Lemma scrape_aeris_try_failed url loc w :
  FAILED_URLS_AERIS (snd (scrape_aeris_try url loc w)) = FAILED_URLS_AERIS w.
Proof.
  pose proof (scrape_aeris_try_beside_browsing url loc w) as Hsame.
  unfold unchanged, beside_browsing in Hsame. simpl in Hsame. congruence.
Qed.

(** [scrape_aeris] takes nothing off [FAILED_URLS_AERIS]. *)
Lemma scrape_aeris_loop_keeps url_loc : forall return_data w y,
  In y (FAILED_URLS_AERIS w) ->
  In y (FAILED_URLS_AERIS (snd (scrape_aeris_loop return_data url_loc w))).
Proof.
  induction url_loc as [|[url loc] url_loc IH]; intros return_data w y Hy.
  - exact Hy.
  - rewrite scrape_aeris_loop_cons.
    pose proof (scrape_aeris_try_failed url loc w) as Hsame.
    pose proof (scrape_aeris_try_uncut url loc w) as Hcut.
    destruct (scrape_aeris_try url loc w) as [[aeris|e|] w1];
      cbn [fst snd] in *.
    + apply IH. rewrite Hsame. exact Hy.
    + apply IH. cbn. rewrite Hsame. apply in_or_app. left. exact Hy.
    + contradiction.
Qed.

(** C6. For every job and every error that its fetcher (the [try] block of
    the scrape function) raises, the scrape function does not raise.  A page
    scrape returns the empty table and the job is appended to [FAILED_URLS].
    [scrape_aeris], on any list of jobs [pre ++ (url, loc) :: post]: when the
    fetch of [(url, loc)] raises in the world the jobs [pre] leave, the call
    returns its list of tables; the job adds no table to it and is appended
    to [FAILED_URLS_AERIS] as it stands after [pre], and it is on
    [FAILED_URLS_AERIS] when the call returns. *)
Theorem scrape_turns_error_into_failure :
  forall (url loc : string) (w : world) (e : exn),
    (forall s : page_source,
        fst (scrape_page_try s url loc w) = Raise e ->
        fst (scrape_page s url loc w) = Ok pd_DataFrame /\
        FAILED_URLS (snd (scrape_page s url loc w)) =
          FAILED_URLS w ++ [(url, loc, source_name s)]) /\
    (forall pre post : list (string * string),
        fst (scrape_aeris_try url loc (snd (scrape_aeris pre w))) = Raise e ->
        (exists dfs,
            fst (scrape_aeris (pre ++ (url, loc) :: post) w) = Ok dfs) /\
        fst (scrape_aeris (pre ++ [(url, loc)]) w) = fst (scrape_aeris pre w) /\
        FAILED_URLS_AERIS (snd (scrape_aeris (pre ++ [(url, loc)]) w)) =
          FAILED_URLS_AERIS (snd (scrape_aeris pre w)) ++ [(url, loc, "Aeris")] /\
        In (url, loc, "Aeris")
           (FAILED_URLS_AERIS
              (snd (scrape_aeris (pre ++ (url, loc) :: post) w)))).
Proof.
  intros url loc w e. split.
  - intros s Hraise. rewrite scrape_page_unfold.
    pose proof (scrape_page_try_beside_browsing s url loc w) as Hsame.
    destruct (scrape_page_try s url loc w) as [[df|e'|] w1];
      simpl in Hraise; try discriminate.
    simpl in *. split; [reflexivity|].
    unfold beside_browsing in Hsame. f_equal. congruence.
  - intros pre post. unfold scrape_aeris.
    rewrite !scrape_aeris_loop_app. unfold bind.
    destruct (scrape_aeris_loop_returns pre [] w) as [dfs0 Hpre].
    destruct (scrape_aeris_loop [] pre w) as [r0 w0]. cbn [fst snd] in *.
    subst r0. intros Hraise.
    rewrite !scrape_aeris_loop_cons.
    pose proof (scrape_aeris_try_failed url loc w0) as Hsame.
    destruct (scrape_aeris_try url loc w0) as [[df|e'|] w1];
      cbn [fst snd] in *; try discriminate.
    split; [apply scrape_aeris_loop_returns|].
    split; [reflexivity|].
    split; [cbn; rewrite Hsame; reflexivity|].
    apply scrape_aeris_loop_keeps. cbn. apply in_or_app. right. left.
    reflexivity.
Qed.

(** A Wunderground job whose pages do not parse, and the second of three
    Aeris jobs when no Aeris request goes through. *)
Lemma scrape_turns_error_into_failure_witness :
  (fst (scrape_page Wunderground (wunderground_url miami) (WS miami)
          (start wunderground_down)) = Ok pd_DataFrame /\
   FAILED_URLS (snd (scrape_page Wunderground (wunderground_url miami) (WS miami)
                       (start wunderground_down))) =
     FAILED_URLS (start wunderground_down) ++
     [(wunderground_url miami, WS miami, source_name Wunderground)]) /\
  ((exists dfs,
       fst (scrape_aeris ([(aeris_url station_a, WS station_a)] ++
                          (aeris_url miami, WS miami) ::
                          [(aeris_url station_b, WS station_b)])
              (start aeris_down)) = Ok dfs) /\
   fst (scrape_aeris ([(aeris_url station_a, WS station_a)] ++
                      [(aeris_url miami, WS miami)]) (start aeris_down)) =
     fst (scrape_aeris [(aeris_url station_a, WS station_a)] (start aeris_down)) /\
   FAILED_URLS_AERIS
     (snd (scrape_aeris ([(aeris_url station_a, WS station_a)] ++
                         [(aeris_url miami, WS miami)]) (start aeris_down))) =
     FAILED_URLS_AERIS
       (snd (scrape_aeris [(aeris_url station_a, WS station_a)]
               (start aeris_down))) ++
     [(aeris_url miami, WS miami, "Aeris")] /\
   In (aeris_url miami, WS miami, "Aeris")
      (FAILED_URLS_AERIS
         (snd (scrape_aeris ([(aeris_url station_a, WS station_a)] ++
                             (aeris_url miami, WS miami) ::
                             [(aeris_url station_b, WS station_b)])
                 (start aeris_down))))).
Proof.
  split.
  - exact (proj1 (scrape_turns_error_into_failure
                    (wunderground_url miami) (WS miami)
                    (start wunderground_down)
                    (AttributeError "'NoneType' object has no attribute 'text'"))
                 Wunderground eq_refl).
  - exact (proj2 (scrape_turns_error_into_failure
                    (aeris_url miami) (WS miami) (start aeris_down)
                    (RequestException "Read timed out."))
                 [(aeris_url station_a, WS station_a)]
                 [(aeris_url station_b, WS station_b)] eq_refl).
Defined.

(* ===================================================================== *)
(** ** Jobs that succeed at once *)
(* ===================================================================== *)

Lemma save_outputs_beside_saving res aeris :
  steps (unchanged beside_saving) (save_outputs res aeris).
Proof.
  unfold save_outputs, save_csv, to_csv, pd_concat, pd_getitem, call.
  steps_tac.
Qed.

(** After the first pass, the run changes the world as the two loops and
    the saving of the files do. *)
Lemma main_after_first_pass (F : step_rel) fuel fuel_aeris loc_df w :
  (forall f c res, steps F (rescrape_loop f c res)) ->
  (forall f c res, steps F (rescrape_loop_aeris f c res)) ->
  (forall res aeris, steps F (save_outputs res aeris)) ->
  F (snd (first_pass loc_df w)) (snd (main fuel fuel_aeris loc_df w)).
Proof.
  intros Hloop Hloop_aeris Hsave. unfold main. unfold bind at 1.
  destruct (first_pass loc_df w) as [[first|e|] w1]; simpl snd;
    try apply rel_refl.
  match goal with
  | |- rel F w1 (snd (?c w1)) =>
      assert (Hrest : steps F c); [| exact (Hrest w1)]
  end.
  apply steps_bind; [apply Hloop | intros res].
  apply steps_bind; [apply Hloop_aeris | intros aeris].
  apply Hsave.
Qed.

Lemma scrape_page_failed s url loc w :
  FAILED_URLS (snd (scrape_page s url loc w)) =
  FAILED_URLS w ++
    match fst (scrape_page_try s url loc w) with
    | Raise _ => [(url, loc, source_name s)]
    | _ => []
    end.
Proof.
  rewrite scrape_page_unfold.
  pose proof (scrape_page_try_beside_browsing s url loc w) as Hsame.
  assert (Hfailed : FAILED_URLS (snd (scrape_page_try s url loc w)) = FAILED_URLS w)
    by (unfold unchanged, beside_browsing in Hsame; simpl in Hsame; congruence).
  destruct (scrape_page_try s url loc w) as [[df|e|] w1]; simpl in *;
    rewrite Hfailed, ?app_nil_r; reflexivity.
Qed.

Lemma scrape_page_may_fail s url loc :
  steps (may_fail (eq (url, loc, source_name s))) (scrape_page s url loc).
Proof.
  intros w y. rewrite scrape_page_failed. intros Hy.
  apply in_app_or in Hy. destruct Hy as [Hy|Hy]; [left; exact Hy|].
  destruct (fst (scrape_page_try s url loc w)); simpl in Hy;
    try contradiction.
  destruct Hy as [Hy|[]]. right. exact Hy.
Qed.

Lemma may_fail_weaken (P Q : failed_url -> Prop) w w' :
  (forall y, P y -> Q y) -> may_fail P w w' -> may_fail Q w w'.
Proof.
  intros HPQ H y Hy. destruct (H y Hy) as [Hin|HP]; [left | right]; auto.
Qed.

Lemma submit_all_may_fail urls : forall fs,
  steps (may_fail (job_of urls)) (submit_all urls fs).
Proof.
  induction urls as [|r urls IH]; intros fs; simpl.
  - apply steps_ret.
  - assert (Hjob : forall s,
               steps (may_fail (job_of (r :: urls)))
                     (scrape_page s (page_url s r) (WS r))).
    { intros s. eapply steps_weaken; [|apply scrape_page_may_fail].
      intros w w'. apply may_fail_weaken. intros y <-.
      exists r, s. split; [left; reflexivity | reflexivity]. }
    apply steps_bind; [apply steps_submit, (Hjob Wunderground)|intros f1].
    apply steps_bind; [apply steps_submit, (Hjob WeatherGov)|intros f2].
    apply steps_bind; [apply steps_submit, (Hjob WeatherCom)|intros f3].
    eapply steps_weaken; [|apply IH].
    intros w w'. apply may_fail_weaken. intros y (r' & s & Hin & ->).
    exists r', s. split; [right; exact Hin | reflexivity].
Qed.

Lemma rescrape_one_may_fail url loc source res :
  steps (may_fail (eq (url, loc, source))) (rescrape_one url loc source res).
Proof.
  unfold rescrape_one.
  destruct (String.eqb_spec source "Wunderground.com") as [->|_].
  { apply steps_bind; [apply (scrape_page_may_fail Wunderground)|intros df].
    apply steps_ret. }
  destruct (String.eqb_spec source "Weather.gov") as [->|_].
  { apply steps_bind; [apply (scrape_page_may_fail WeatherGov)|intros df].
    apply steps_ret. }
  destruct (String.eqb_spec source "Weather.com") as [->|_].
  { apply steps_bind; [apply (scrape_page_may_fail WeatherCom)|intros df].
    apply steps_ret. }
  apply steps_ret.
Qed.

(** The first loop puts back only what it took off: a tuple that is not on
    [FAILED_URLS] when the loop starts is not on it later. *)
Lemma rescrape_loop_within fuel : forall rescrape_count res,
  steps failed_within (rescrape_loop fuel rescrape_count res).
Proof.
  induction fuel as [|fuel IH]; intros rescrape_count res w; simpl;
    destruct (FAILED_URLS w) as [|[[url loc] source] failed'] eqn:Hlist;
    try (intros y Hy; rewrite Hlist in Hy; exact Hy);
    destruct (rescrape_count <? 100)%nat;
    try (intros y Hy; simpl in Hy; rewrite Hlist in Hy; exact Hy).
  match goal with
  | |- context [bind (try_except ?c ?h) ?k ?w1] =>
      assert (Hbody : steps (may_fail (eq (url, loc, source))) (try_except c h));
      [| specialize (Hbody w1);
         unfold bind at 1; destruct (try_except c h w1) as [[res'|e|] w2];
         simpl in *; intros y Hy;
         [apply IH in Hy|idtac|idtac];
         (destruct (Hbody y Hy) as [Hin|<-]; [right; exact Hin | left; reflexivity]) ]
  end.
  apply steps_try_except; [apply rescrape_one_may_fail|intros exc].
  apply steps_bind; [|intros u; apply steps_ret].
  intros w0 y. rewrite note_failed_url_appends. simpl. intros Hy.
  apply in_app_or in Hy. destruct Hy as [Hy|[Hy|[]]]; [left|right]; auto.
Qed.

Lemma beside_saving_failed_within w w' :
  unchanged beside_saving w w' -> failed_within w w'.
Proof.
  intros H y Hy. unfold unchanged, beside_saving in H. simpl in H.
  assert (Heq : FAILED_URLS w' = FAILED_URLS w) by congruence.
  rewrite <- Heq. exact Hy.
Qed.

Lemma beside_aeris_failed_within w w' :
  unchanged beside_aeris w w' -> failed_within w w'.
Proof.
  intros H y Hy. unfold unchanged, beside_aeris in H. simpl in H.
  assert (Heq : FAILED_URLS w' = FAILED_URLS w) by congruence.
  rewrite <- Heq. exact Hy.
Qed.

(** After the first pass nothing new comes on [FAILED_URLS]. *)
Lemma main_failed_within fuel fuel_aeris loc_df w :
  failed_within (snd (first_pass loc_df w))
                (snd (main fuel fuel_aeris loc_df w)).
Proof.
  apply main_after_first_pass.
  - intros f c res. apply rescrape_loop_within.
  - intros f c res. eapply steps_weaken;
      [exact beside_aeris_failed_within | apply rescrape_loop_aeris_beside_aeris].
  - intros res aeris. eapply steps_weaken;
      [exact beside_saving_failed_within | apply save_outputs_beside_saving].
Qed.

Lemma source_name_inj s s' : source_name s = source_name s' -> s = s'.
Proof. destruct s, s'; simpl; intros H; try reflexivity; discriminate. Qed.

Lemma may_fail_off (P : failed_url -> Prop) s u w w' :
  may_fail P w w' ->
  (forall loc, ~ P (u, loc, source_name s)) ->
  off_failed s u w -> off_failed s u w'.
Proof.
  intros Hstep HP Hoff loc Hin.
  destruct (Hstep _ Hin) as [Hold|Hnew]; [exact (Hoff loc Hold) | exact (HP loc Hnew)].
Qed.

Lemma job_of_other_rows s u urls :
  (forall r, In r urls -> page_url s r <> u) ->
  forall loc, ~ job_of urls (u, loc, source_name s).
Proof.
  intros Hother loc (r & s' & Hin & Heq).
  injection Heq as Hu _ Hs. apply source_name_inj in Hs. subst s'.
  exact (Hother r Hin (eq_sym Hu)).
Qed.

Lemma submit_all_app pre : forall rest fs w,
  submit_all (pre ++ rest) fs w =
  bind (submit_all pre fs) (fun fs' => submit_all rest fs') w.
Proof.
  induction pre as [|r pre IH]; intros rest fs w.
  - reflexivity.
  - rewrite <- app_comm_cons. rewrite submit_all_cons. cbv zeta. rewrite IH.
    unfold bind at 2. rewrite submit_all_cons. reflexivity.
Qed.

(** The three jobs of a row leave the endpoint of the job [s] off
    [FAILED_URLS] when that job succeeds. *)
Lemma row_off s r w :
  (exists t, fst (scrape_page_try s (page_url s r) (WS r)
                    (world_before_job_in_row s r w)) = Ok t) ->
  off_failed s (page_url s r) w ->
  off_failed s (page_url s r)
    (snd (scrape_page WeatherCom (weather_com_url r) (WS r)
       (snd (scrape_page WeatherGov (weather_gov_url r) (WS r)
          (snd (scrape_page Wunderground (wunderground_url r) (WS r) w)))))).
Proof.
  intros [t Ht] Hoff loc Hin.
  rewrite !scrape_page_failed in Hin.
  destruct s; unfold page_url, world_before_job_in_row in Ht;
    change scrape_wunderground with (scrape_page Wunderground) in Ht;
    change scrape_weather_gov with (scrape_page WeatherGov) in Ht;
    rewrite Ht in Hin; simpl in Hin;
    repeat (apply in_app_or in Hin; destruct Hin as [Hin|Hin]);
    try exact (Hoff loc Hin);
    try contradiction;
    repeat match goal with
           | H : In _ (match ?x with _ => _ end) |- _ => destruct x; simpl in H
           | H : _ \/ _ |- _ => destruct H
           | H : False |- _ => contradiction
           | H : (_, _, _) = (_, _, _) |- _ => injection H; intros; discriminate
           end.
Qed.

(** The endpoint of a page job that succeeds at once, and that no other row
    shares, is not on [FAILED_URLS] after the first pass. *)
Lemma first_pass_off s pre r post w :
  off_failed s (page_url s r) w ->
  (forall r', In r' (pre ++ post) -> page_url s r' <> page_url s r) ->
  (exists t, fst (scrape_page_try s (page_url s r) (WS r)
                    (world_before_job s pre r w)) = Ok t) ->
  off_failed s (page_url s r) (snd (first_pass (pre ++ r :: post) w)).
Proof.
  intros Hoff Hother Htry.
  unfold world_before_job, world_before_row in Htry.
  unfold first_pass. unfold bind at 1. unfold bind at 1 in Htry.
  pose proof (initialize_driver_beside_browsing "chrome" w) as Hinit.
  assert (Hoff1 : off_failed s (page_url s r)
                    (snd (initialize_driver "chrome" w))).
  { unfold unchanged, beside_browsing in Hinit. simpl in Hinit.
    intros loc Hin. apply (Hoff loc). congruence. }
  clear Hinit.
  destruct (initialize_driver "chrome" w) as [[d|e|] w1]; simpl in Hoff1;
    simpl snd; try exact Hoff1.
  assert (Hsub : off_failed s (page_url s r)
                   (snd (submit_all (pre ++ r :: post) (mkFutures [] [] []) w1))).
  { rewrite submit_all_app. unfold bind at 1.
    pose proof (submit_all_may_fail pre (mkFutures [] [] []) w1) as Hpre.
    assert (Hoffr : off_failed s (page_url s r)
                      (snd (submit_all pre (mkFutures [] [] []) w1))).
    { eapply may_fail_off; [exact Hpre| |exact Hoff1].
      apply job_of_other_rows. intros r' Hin. apply Hother.
      apply in_or_app. left. exact Hin. }
    clear Hpre.
    destruct (submit_all pre (mkFutures [] [] []) w1) as [[fs'|e|] wr];
      cbn [snd] in Hoffr, Htry; cbn [snd]; try exact Hoffr.
    cbv beta. rewrite submit_all_cons. cbv zeta.
    eapply may_fail_off; [apply submit_all_may_fail| |].
    - apply job_of_other_rows. intros r' Hin. apply Hother.
      apply in_or_app. right. exact Hin.
    - apply row_off; [exact Htry | exact Hoffr]. }
  unfold bind at 1.
  destruct (submit_all (pre ++ r :: post) (mkFutures [] [] []) w1)
    as [[fs|e|] w2]; simpl in Hsub; simpl snd; try exact Hsub.
  match goal with
  | |- off_failed _ _ (snd (?c w2)) =>
      assert (Hrest : steps (unchanged beside_aeris) c)
  end.
  { apply steps_bind; [apply scrape_aeris_loop_beside_aeris|intros a].
    steps_tac. }
  specialize (Hrest w2). unfold unchanged, beside_aeris in Hrest.
  simpl in Hrest. intros loc Hin. apply (Hsub loc). congruence.
Qed.


Lemma scrape_aeris_loop_may_fail url_loc : forall return_data,
  steps (may_fail_aeris (aeris_job_of url_loc))
        (scrape_aeris_loop return_data url_loc).
Proof.
  induction url_loc as [|[url loc] url_loc IH]; intros return_data w.
  - intros y Hy. left. exact Hy.
  - rewrite scrape_aeris_loop_cons.
    pose proof (scrape_aeris_try_failed url loc w) as Hsame.
    assert (Hrest : forall y, aeris_job_of url_loc y ->
                              aeris_job_of ((url, loc) :: url_loc) y).
    { intros y (u & l & Hin & ->). exists u, l. split; [right; exact Hin | reflexivity]. }
    destruct (scrape_aeris_try url loc w) as [[aeris|e|] w1]; simpl in Hsame;
      simpl snd.
    + intros y Hy. destruct (IH _ w1 y Hy) as [Hin|Hjob].
      * left. rewrite <- Hsame. exact Hin.
      * right. apply Hrest, Hjob.
    + intros y Hy. destruct (IH _ _ y Hy) as [Hin|Hjob].
      * simpl in Hin. rewrite Hsame in Hin. apply in_app_or in Hin.
        destruct Hin as [Hin|[<-|[]]]; [left; exact Hin|].
        right. exists url, loc. split; [left; reflexivity | reflexivity].
      * right. apply Hrest, Hjob.
    + intros y Hy. left. rewrite <- Hsame. exact Hy.
Qed.

Lemma may_fail_aeris_off (P : failed_url -> Prop) u w w' :
  may_fail_aeris P w w' ->
  (forall loc source, ~ P (u, loc, source)) ->
  off_failed_aeris u w -> off_failed_aeris u w'.
Proof.
  intros Hstep HP Hoff loc source Hin.
  destruct (Hstep _ Hin) as [Hold|Hnew];
    [exact (Hoff loc source Hold) | exact (HP loc source Hnew)].
Qed.

Lemma aeris_job_of_other_rows u urls :
  (forall r, In r urls -> aeris_url r <> u) ->
  forall loc source, ~ aeris_job_of (aeris_jobs urls) (u, loc, source).
Proof.
  intros Hother loc source (url & l & Hin & Heq).
  injection Heq as Hu _ _. subst url.
  unfold aeris_jobs in Hin. apply in_map_iff in Hin.
  destruct Hin as (r & Hr & Hin). injection Hr as Hr _.
  exact (Hother r Hin Hr).
Qed.

(** The endpoint of an Aeris job that succeeds at once, and that no other
    row shares, is not on [FAILED_URLS_AERIS] after the first pass. *)
Lemma first_pass_off_aeris pre r post w :
  off_failed_aeris (aeris_url r) w ->
  (forall r', In r' (pre ++ post) -> aeris_url r' <> aeris_url r) ->
  (exists t, fst (scrape_aeris_try (aeris_url r) (WS r)
                    (world_before_aeris_job pre r post w)) = Ok t) ->
  off_failed_aeris (aeris_url r) (snd (first_pass (pre ++ r :: post) w)).
Proof.
  intros Hoff Hother Htry.
  unfold world_before_aeris_job in Htry.
  unfold first_pass. unfold bind at 1. unfold bind at 1 in Htry.
  pose proof (initialize_driver_beside_browsing "chrome" w) as Hinit.
  assert (Hoff1 : off_failed_aeris (aeris_url r)
                    (snd (initialize_driver "chrome" w))).
  { unfold unchanged, beside_browsing in Hinit. simpl in Hinit.
    intros loc source Hin. apply (Hoff loc source). congruence. }
  clear Hinit.
  destruct (initialize_driver "chrome" w) as [[d|e|] w1]; cbn [snd] in *;
    try exact Hoff1.
  unfold bind at 1. unfold bind at 1 in Htry.
  pose proof (submit_all_beside_pages (pre ++ r :: post) (mkFutures [] [] []) w1)
    as Hsub.
  assert (Hoff2 : off_failed_aeris (aeris_url r)
                    (snd (submit_all (pre ++ r :: post) (mkFutures [] [] []) w1))).
  { unfold unchanged, beside_pages in Hsub. simpl in Hsub.
    intros loc source Hin. apply (Hoff1 loc source). congruence. }
  clear Hsub.
  destruct (submit_all (pre ++ r :: post) (mkFutures [] [] []) w1)
    as [[fs|e|] w2]; cbn [snd] in *; try exact Hoff2.
  assert (Haeris : off_failed_aeris (aeris_url r)
                     (snd (scrape_aeris (aeris_jobs (pre ++ r :: post)) w2))).
  { unfold scrape_aeris, aeris_jobs. rewrite map_app. cbn [map].
    fold (aeris_jobs pre). fold (aeris_jobs post).
    rewrite scrape_aeris_loop_app. unfold bind at 1.
    pose proof (scrape_aeris_loop_may_fail (aeris_jobs pre) [] w2) as Hpre.
    assert (Hoff3 : off_failed_aeris (aeris_url r)
                      (snd (scrape_aeris_loop [] (aeris_jobs pre) w2))).
    { eapply may_fail_aeris_off; [exact Hpre| |exact Hoff2].
      apply aeris_job_of_other_rows. intros r' Hin. apply Hother.
      apply in_or_app. left. exact Hin. }
    clear Hpre.
    destruct (scrape_aeris_loop [] (aeris_jobs pre) w2) as [[dfs|e|] w3];
      cbn [snd] in *; try exact Hoff3.
    cbv beta. rewrite scrape_aeris_loop_cons.
    destruct Htry as [t Ht].
    pose proof (scrape_aeris_try_failed (aeris_url r) (WS r) w3) as Hsame.
    destruct (scrape_aeris_try (aeris_url r) (WS r) w3) as [[aeris|e|] w4];
      simpl in Ht; try discriminate. simpl in Hsame.
    eapply may_fail_aeris_off; [apply scrape_aeris_loop_may_fail| |].
    - apply aeris_job_of_other_rows. intros r' Hin. apply Hother.
      apply in_or_app. right. exact Hin.
    - intros loc source Hin. apply (Hoff3 loc source). congruence. }
  unfold bind at 1. fold (aeris_jobs (pre ++ r :: post)).
  destruct (scrape_aeris (aeris_jobs (pre ++ r :: post)) w2)
    as [[dfs|e|] w5]; cbn [snd] in *; try exact Haeris.
  match goal with
  | |- off_failed_aeris _ (snd (?c w5)) =>
      assert (Hrest : steps (unchanged FAILED_URLS_AERIS) c) by steps_tac;
      specialize (Hrest w5)
  end.
  simpl in Hrest. intros loc source Hin. apply (Haeris loc source). congruence.
Qed.

(** The second loop puts back jobs it took off: an endpoint that is not on
    [FAILED_URLS_AERIS] when the loop starts is not on it later. *)
Lemma rescrape_loop_aeris_endpoints fuel : forall rescrape_count res,
  steps aeris_endpoints_within (rescrape_loop_aeris fuel rescrape_count res).
Proof.
  induction fuel as [|fuel IH]; intros rescrape_count res w;
    cbn [rescrape_loop_aeris];
    destruct (FAILED_URLS_AERIS w) as [|[[url loc] source] failed'] eqn:Hlist;
    try apply (rel_refl aeris_endpoints_within);
    destruct (rescrape_count <? 100)%nat;
    try apply (rel_refl aeris_endpoints_within).
  match goal with
  | |- context [bind (try_except ?c ?h) ?k ?w1] =>
      assert (Hbody : steps (may_fail_aeris (eq (url, loc, "Aeris")))
                            (try_except c h));
      [| specialize (Hbody w1); unfold bind at 1;
         destruct (try_except c h w1) as [[res'|e|] w2] ]
  end.
  { apply steps_try_except.
    - apply steps_bind; [|intros dfs; apply steps_ret].
      intros w0 y Hy.
      destruct (scrape_aeris_loop_may_fail [(url, loc)] [] w0 y Hy)
        as [Hin|(u & l & [Heq|[]] & ->)]; [left; exact Hin|].
      right. injection Heq as <- <-. reflexivity.
    - intros exc. apply steps_bind; [|intros u; apply steps_ret].
      intros w0 y. rewrite note_failed_url_appends. simpl.
      intros Hy. left. exact Hy. }
  all: cbn [snd] in *; intros y Hy.
  1: apply IH in Hy; destruct Hy as (x & Hx & Exy).
  2, 3: pose (x := y); assert (Hx : In x (FAILED_URLS_AERIS w2)) by exact Hy;
        assert (Exy : failed_endpoint x = failed_endpoint y) by reflexivity.
  all: destruct (Hbody x Hx) as [Hin|<-];
    [ exists x; split; [rewrite Hlist; right; exact Hin | exact Exy]
    | exists (url, loc, source); split;
      [rewrite Hlist; left; reflexivity | exact Exy] ].
Qed.

Lemma beside_pages_endpoints w w' :
  unchanged beside_pages w w' -> aeris_endpoints_within w w'.
Proof.
  intros H y Hy. unfold unchanged, beside_pages in H. simpl in H.
  assert (Heq : FAILED_URLS_AERIS w' = FAILED_URLS_AERIS w) by congruence.
  exists y. split; [rewrite <- Heq; exact Hy | reflexivity].
Qed.

Lemma beside_saving_endpoints w w' :
  unchanged beside_saving w w' -> aeris_endpoints_within w w'.
Proof.
  intros H y Hy. unfold unchanged, beside_saving in H. simpl in H.
  assert (Heq : FAILED_URLS_AERIS w' = FAILED_URLS_AERIS w) by congruence.
  exists y. split; [rewrite <- Heq; exact Hy | reflexivity].
Qed.

(** After the first pass no new endpoint comes on [FAILED_URLS_AERIS]. *)
Lemma main_aeris_endpoints_within fuel fuel_aeris loc_df w :
  aeris_endpoints_within (snd (first_pass loc_df w))
                         (snd (main fuel fuel_aeris loc_df w)).
Proof.
  apply main_after_first_pass.
  - intros f c res. eapply steps_weaken;
      [exact beside_pages_endpoints | apply rescrape_loop_beside_pages].
  - intros f c res. apply rescrape_loop_aeris_endpoints.
  - intros res aeris. eapply steps_weaken;
      [exact beside_saving_endpoints | apply save_outputs_beside_saving].
Qed.

(** C7, as the code has it.  Take a job of the roster [pre ++ r :: post]
    whose first fetch attempt succeeds (its [try] block returns a table in the
    world in which the attempt starts) and whose endpoint no other row has
    for that source.  Then the endpoint is not on the failure list of the
    source where the run stands after any number of iterations of the two
    re-scraping loops ([fuel], [fuel_aeris]), and so at its end: [FAILED_URLS]
    for a page-rendered source [s], [FAILED_URLS_AERIS] for Aeris.  The
    first pass only appends to the lists, so the endpoint is on neither of
    them at an earlier point of the first pass either. *)
Theorem first_success_stays_off_failure_list :
  forall (outside : query -> nat -> answer) (pre post : list roster_row)
         (r : roster_row) (fuel fuel_aeris : nat),
    (forall s : page_source,
        (forall r', In r' (pre ++ post) -> page_url s r' <> page_url s r) ->
        (exists t, fst (scrape_page_try s (page_url s r) (WS r)
                          (world_before_job s pre r (start outside))) = Ok t) ->
        forall loc,
          ~ In (page_url s r, loc, source_name s)
               (FAILED_URLS
                  (snd (main fuel fuel_aeris (pre ++ r :: post) (start outside))))) /\
    ((forall r', In r' (pre ++ post) -> aeris_url r' <> aeris_url r) ->
     (exists t, fst (scrape_aeris_try (aeris_url r) (WS r)
                       (world_before_aeris_job pre r post (start outside))) = Ok t) ->
     forall loc source,
       ~ In (aeris_url r, loc, source)
            (FAILED_URLS_AERIS
               (snd (main fuel fuel_aeris (pre ++ r :: post) (start outside))))).
Proof.
  intros outside pre post r fuel fuel_aeris. split.
  - intros s Hother Htry loc Hin.
    apply (main_failed_within fuel fuel_aeris (pre ++ r :: post) (start outside))
      in Hin.
    revert Hin. apply first_pass_off; [|exact Hother|exact Htry].
    intros loc' [].
  - intros Hother Htry loc source Hin.
    destruct (main_aeris_endpoints_within fuel fuel_aeris (pre ++ r :: post)
                (start outside) _ Hin) as ([[u l] src] & Hx & Eu).
    unfold failed_endpoint in Eu. simpl in Eu. subst u. revert Hx.
    apply first_pass_off_aeris; [|exact Hother|exact Htry].
    intros loc' source' [].
Qed.

(** Two locations.  The Wunderground job of the second fails in the first
    pass and in each of the 100 iterations of the first loop, and its Aeris
    job fails in the first pass and succeeds in the second loop.  The jobs of
    the first location succeed at once and are on neither list at the end. *)
Lemma first_success_stays_off_failure_list_witness :
  ~ In (page_url Wunderground miami, "KMIA", source_name Wunderground)
       (FAILED_URLS (snd (main 100 100 ([] ++ miami :: [station_a])
                            (start new_york_down)))) /\
  ~ In (aeris_url miami, "KMIA", "Aeris")
       (FAILED_URLS_AERIS (snd (main 100 100 ([] ++ miami :: [station_a])
                                  (start new_york_down)))) /\
  FAILED_URLS (snd (main 100 100 ([] ++ miami :: [station_a])
                      (start new_york_down))) =
    [(wunderground_url station_a, "KNYC", "Wunderground.com")] /\
  FAILED_URLS_AERIS (snd (first_pass ([] ++ miami :: [station_a])
                            (start new_york_down))) =
    [(aeris_url station_a, "KNYC", "Aeris")].
Proof.
  split; [|split; [|split; vm_compute; reflexivity]].
  - refine (proj1 (first_success_stays_off_failure_list
                     new_york_down [] [station_a] miami 100 100)
                  Wunderground _ _ "KMIA").
    + intros r' [<-|[]]. discriminate.
    + eexists. vm_compute. reflexivity.
  - refine (proj2 (first_success_stays_off_failure_list
                     new_york_down [] [station_a] miami 100 100)
                  _ _ "KMIA" "Aeris").
    + intros r' [<-|[]]. discriminate.
    + eexists. vm_compute. reflexivity.
Defined.

(** C7 fails when two jobs of a source share their endpoint: the
    Wunderground job of the first station succeeds at its first attempt, the
    job of the second station fails, and the endpoint of the first job is on
    [FAILED_URLS] after the first pass and at the end of the run. *)
Lemma shared_endpoint_on_failure_list :
  (exists t, fst (scrape_page_try Wunderground (wunderground_url station_a)
                    (WS station_a)
                    (world_before_job Wunderground [] station_a
                       (start wunderground_down_later))) = Ok t) /\
  In (wunderground_url station_a, "KLGA", "Wunderground.com")
     (FAILED_URLS (snd (first_pass [station_a; station_b]
                          (start wunderground_down_later)))) /\
  In (wunderground_url station_a, "KLGA", "Wunderground.com")
     (FAILED_URLS (snd (main 100 100 [station_a; station_b]
                          (start wunderground_down_later)))).
Proof.
  split; [eexists; vm_compute; reflexivity|].
  split; vm_compute; left; reflexivity.
Qed.

(* ===================================================================== *)
(** ** What decides the outcome of a page job *)
(* ===================================================================== *)

Lemma call_parse_view q source url :
  q <> QParse source url ->
  steps (unchanged (parse_view source url)) (call q).
Proof.
  intros Hne w. unfold call, ask, bind.
  destruct (err (net w q (count_occ query_eq_dec (asked w) q))); simpl;
    unfold parse_view; simpl; rewrite count_occ_snoc_other by exact Hne;
    reflexivity.
Qed.

Lemma initialize_driver_chrome_parse_view source url w :
  parse_view source url (snd (initialize_driver "chrome" w)) =
  parse_view source url w.
Proof.
  rewrite initialize_driver_chrome.
  destruct (err (next_launch w)); simpl; unfold parse_view; simpl;
    rewrite count_occ_snoc_other by discriminate; reflexivity.
Qed.

Lemma get_html_object_parse_view d selector url source :
  steps (unchanged (parse_view source url)) (get_html_object d selector url).
Proof.
  unfold get_html_object.
  apply steps_bind; [|intros u; apply steps_ret].
  apply steps_try_except; [|intros e; apply steps_ret].
  apply steps_bind; [apply call_parse_view; discriminate|intros u].
  apply call_parse_view. discriminate.
Qed.

Lemma click_next_page_parse_view d source url :
  steps (unchanged (parse_view source url)) (click_next_page_wunderground d).
Proof.
  unfold click_next_page_wunderground.
  apply steps_bind; [|intros u; apply steps_ret].
  apply steps_try_except; [|intros e; apply steps_ret].
  apply steps_bind; [apply call_parse_view; discriminate|intros u].
  apply steps_bind; [apply call_parse_view; discriminate|intros u'].
  apply call_parse_view. discriminate.
Qed.

Ltac destruct_err :=
  match goal with
  | |- context [match err ?a with _ => _ end] => destruct (err a)
  end.

(** [get_html_object] gives the driver back, whatever the page did. *)
Lemma get_html_object_returns d selector url w :
  fst (get_html_object d selector url w) = Ok d.
Proof.
  cbv beta iota zeta delta [get_html_object try_except bind call ask].
  destruct_err; cbv beta iota zeta delta [raise ret fst]; [reflexivity|].
  destruct_err; reflexivity.
Qed.

(** [click_next_page_wunderground] gives the driver back, whatever the page
    did. *)
Lemma click_next_page_returns d w :
  fst (click_next_page_wunderground d w) = Ok d.
Proof.
  cbv beta iota zeta delta [click_next_page_wunderground try_except bind call ask].
  destruct_err; cbv beta iota zeta delta [raise ret fst]; [reflexivity|].
  destruct_err; cbv beta iota zeta delta [raise ret fst]; [reflexivity|].
  destruct_err; reflexivity.
Qed.

(** A parse of the page is answered from the parse view of the world. *)
Lemma call_frame_parse source url w w0 k :
  parse_view source url w =
    (net w0, k + count_occ query_eq_dec (asked w0) (QParse source url)) ->
  fst (call_frame (QParse source url) w) =
    match err (parse_answer source url k w0) with
    | Some e => Raise e
    | None => Ok (frame (parse_answer source url k w0))
    end /\
  parse_view source url (snd (call_frame (QParse source url) w)) =
    (net w0, S k + count_occ query_eq_dec (asked w0) (QParse source url)).
Proof.
  unfold parse_view, parse_answer. intros Hview. injection Hview as Hnet Hcount.
  cbv beta iota zeta delta [call_frame ask bind]. rewrite Hnet, Hcount.
  destruct_err; simpl; rewrite count_occ_snoc, Hnet, Hcount; auto.
Qed.

(** A job with one parse of its page. *)
Lemma single_parse_outcome source selector url loc w :
  fst ((d <- initialize_driver "chrome" ;;
        web_page <- get_html_object d selector url ;;
        table <- call_frame (QParse source url) ;;
        ret (set_column table "WS" loc)) w) =
  match err (next_launch w) with
  | Some _ => Raise (UnboundLocalError "driver")
  | None =>
      match err (parse_answer source url 0 w) with
      | Some e => Raise e
      | None => Ok (set_column (frame (parse_answer source url 0 w)) "WS" loc)
      end
  end.
Proof.
  unfold bind at 1.
  pose proof (initialize_driver_chrome_parse_view source url w) as Hv1.
  rewrite initialize_driver_chrome in *.
  destruct (err (next_launch w)); [reflexivity|]. cbn [snd] in Hv1.
  unfold bind at 1.
  match goal with
  | |- context [get_html_object ?d selector url ?w1] =>
      pose proof (get_html_object_returns d selector url w1) as Hr;
      pose proof (get_html_object_parse_view d selector url source w1) as Hv2;
      destruct (get_html_object d selector url w1) as [[d'|e|] w2];
      cbn [fst snd] in Hr, Hv2; try discriminate
  end.
  simpl in Hv2. unfold bind at 1.
  destruct (call_frame_parse source url w2 w 0) as [Hres _].
  { rewrite Hv2, Hv1. reflexivity. }
  destruct (call_frame (QParse source url) w2) as [[t|e|] w3];
    cbn [fst] in Hres; destruct (err (parse_answer source url 0 w));
    try discriminate; simpl; congruence.
Qed.

(** The Wunderground job, with its two parses. *)
Lemma scrape_wunderground_try_outcome url loc w :
  fst (scrape_wunderground_try url loc w) =
  match err (next_launch w) with
  | Some _ => Raise (UnboundLocalError "driver")
  | None =>
      match err (parse_answer "Wunderground.com" url 0 w) with
      | Some e => Raise e
      | None =>
          match err (parse_answer "Wunderground.com" url 1 w) with
          | Some e => Raise e
          | None =>
              Ok (set_column
                    (concat_frames
                       [frame (parse_answer "Wunderground.com" url 0 w);
                        frame (parse_answer "Wunderground.com" url 1 w)])
                    "WS" loc)
          end
      end
  end.
Proof.
  unfold scrape_wunderground_try. unfold bind at 1.
  pose proof (initialize_driver_chrome_parse_view "Wunderground.com" url w) as Hv1.
  rewrite initialize_driver_chrome in *.
  destruct (err (next_launch w)); [reflexivity|]. cbn [snd] in Hv1.
  unfold bind at 1.
  match goal with
  | |- context [get_html_object ?d ?sel url ?w1] =>
      pose proof (get_html_object_returns d sel url w1) as Hr;
      pose proof (get_html_object_parse_view d sel url "Wunderground.com" w1) as Hv2;
      destruct (get_html_object d sel url w1) as [[d'|e|] w2];
      cbn [fst snd] in Hr, Hv2; try discriminate
  end.
  simpl in Hv2. unfold bind at 1.
  destruct (call_frame_parse "Wunderground.com" url w2 w 0) as [Hres Hv3].
  { rewrite Hv2, Hv1. reflexivity. }
  destruct (call_frame (QParse "Wunderground.com" url) w2) as [[t|e|] w3];
    cbn [fst snd] in Hres, Hv3;
    destruct (err (parse_answer "Wunderground.com" url 0 w));
    try discriminate; try (simpl; congruence).
  injection Hres as ->. unfold bind at 1.
  pose proof (click_next_page_returns d' w3) as Hr2.
  pose proof (click_next_page_parse_view d' "Wunderground.com" url w3) as Hv4.
  destruct (click_next_page_wunderground d' w3) as [[d2|e|] w4];
    cbn [fst snd] in Hr2, Hv4; try discriminate.
  simpl in Hv4. unfold bind at 1.
  destruct (call_frame_parse "Wunderground.com" url w4 w 1) as [Hres2 _].
  { rewrite Hv4, Hv3. reflexivity. }
  destruct (call_frame (QParse "Wunderground.com" url) w4) as [[t2|e|] w5];
    cbn [fst] in Hres2;
    destruct (err (parse_answer "Wunderground.com" url 1 w));
    try discriminate; simpl; congruence.
Qed.

(** X1.  The outcome of a page job is decided by the browser launch and by
    the parses of the page alone: whatever [driver.get], the wait for the
    page and the click on the next day do (a time-out included), the job
    succeeds when the browser starts and every parse returns, fails with
    [UnboundLocalError] when the browser does not start, and with the error
    of the first parse that raises otherwise.  The table of a job that
    succeeds is the parsed table (for Wunderground the two parsed tables, one
    after the other) with the column [WS] set to the location. *)
Theorem page_job_outcome :
  forall (url loc : string) (w : world),
    fst (scrape_wunderground_try url loc w) =
      match err (next_launch w) with
      | Some _ => Raise (UnboundLocalError "driver")
      | None =>
          match err (parse_answer "Wunderground.com" url 0 w) with
          | Some e => Raise e
          | None =>
              match err (parse_answer "Wunderground.com" url 1 w) with
              | Some e => Raise e
              | None =>
                  Ok (set_column
                        (concat_frames
                           [frame (parse_answer "Wunderground.com" url 0 w);
                            frame (parse_answer "Wunderground.com" url 1 w)])
                        "WS" loc)
              end
          end
      end /\
    fst (scrape_weather_gov_try url loc w) =
      match err (next_launch w) with
      | Some _ => Raise (UnboundLocalError "driver")
      | None =>
          match err (parse_answer "Weather.gov" url 0 w) with
          | Some e => Raise e
          | None => Ok (set_column (frame (parse_answer "Weather.gov" url 0 w)) "WS" loc)
          end
      end /\
    fst (scrape_weather_com_try url loc w) =
      match err (next_launch w) with
      | Some _ => Raise (UnboundLocalError "driver")
      | None =>
          match err (parse_answer "Weather.com" url 0 w) with
          | Some e => Raise e
          | None => Ok (set_column (frame (parse_answer "Weather.com" url 0 w)) "WS" loc)
          end
      end.
Proof.
  intros url loc w. split; [apply scrape_wunderground_try_outcome|]. split.
  - exact (single_parse_outcome "Weather.gov" "table" url loc w).
  - exact (single_parse_outcome "Weather.com" "h2#currentDateId0" url loc w).
Qed.

(* ===================================================================== *)
(** ** The tables of the jobs *)
(* ===================================================================== *)

Lemma has_column_set_column df c v : has_column (set_column df c v) c = true.
Proof.
  unfold set_column, has_column. simpl.
  destruct (existsb (String.eqb c) (columns df)) eqn:E; [exact E|].
  rewrite existsb_app. simpl. rewrite String.eqb_refl.
  rewrite orb_true_r. reflexivity.
Qed.

Lemma cell_of_set_cell c v r : cell_of c (set_cell c v r) = v.
Proof.
  unfold set_cell, cell_of.
  destruct (existsb (fun cell => String.eqb c (fst cell)) r) eqn:E.
  - induction r as [|[k x] r IH]; simpl in *; [discriminate|].
    destruct (String.eqb c k) eqn:Ek; simpl.
    + rewrite String.eqb_refl. reflexivity.
    + rewrite Ek. apply IH. exact E.
  - induction r as [|[k x] r IH]; simpl in *.
    + rewrite String.eqb_refl. reflexivity.
    + destruct (String.eqb c k) eqn:Ek; simpl in *; [discriminate|].
      apply IH. exact E.
Qed.

Lemma set_column_tags df c v :
  Forall (fun r => cell_of c r = v) (rows (set_column df c v)).
Proof.
  unfold set_column. simpl. apply Forall_forall. intros r Hin.
  apply in_map_iff in Hin. destruct Hin as (r0 & <- & _).
  apply cell_of_set_cell.
Qed.

Lemma scrape_page_try_tagged s url loc w t :
  fst (scrape_page_try s url loc w) = Ok t ->
  exists table, t = set_column table "WS" loc.
Proof.
  destruct s; simpl.
  - rewrite scrape_wunderground_try_outcome.
    repeat destruct_err; intros H; try discriminate.
    injection H as <-. eauto.
  - unfold scrape_weather_gov_try.
    rewrite (single_parse_outcome "Weather.gov" "table" url loc w).
    repeat destruct_err; intros H; try discriminate.
    injection H as <-. eauto.
  - unfold scrape_weather_com_try.
    rewrite (single_parse_outcome "Weather.com" "h2#currentDateId0" url loc w).
    repeat destruct_err; intros H; try discriminate.
    injection H as <-. eauto.
Qed.

(** X2.  A page scrape ends in one of two ways.  Either the job succeeded:
    the table it returns has the column [WS], every row of it carries the
    location in [WS], and [FAILED_URLS] is as before.  Or the job failed: it
    returns the empty table, which has no [WS] column, and the job is the new
    last element of [FAILED_URLS].  So the tables of the jobs that failed can
    be told from the others by their missing [WS] column. *)
Theorem page_scrape_table_or_failure :
  forall (s : page_source) (url loc : string) (w : world),
    exists df,
      fst (scrape_page s url loc w) = Ok df /\
      ((has_column df "WS" = true /\
        Forall (fun r => cell_of "WS" r = loc) (rows df) /\
        FAILED_URLS (snd (scrape_page s url loc w)) = FAILED_URLS w) \/
       (df = pd_DataFrame /\
        has_column df "WS" = false /\
        FAILED_URLS (snd (scrape_page s url loc w)) =
          FAILED_URLS w ++ [(url, loc, source_name s)])).
Proof.
  intros s url loc w.
  pose proof (scrape_page_failed s url loc w) as Hfailed.
  pose proof (scrape_page_try_tagged s url loc w) as Htag.
  pose proof (scrape_page_try_uncut s url loc w) as Hcut.
  rewrite scrape_page_unfold in *.
  destruct (scrape_page_try s url loc w) as [[t|e|] w1]; simpl in *.
  - exists t. split; [reflexivity|]. left.
    destruct (Htag t eq_refl) as [table ->].
    rewrite app_nil_r in Hfailed.
    split; [apply has_column_set_column|].
    split; [apply set_column_tags | exact Hfailed].
  - exists pd_DataFrame. split; [reflexivity|]. right.
    split; [reflexivity|]. split; [reflexivity | exact Hfailed].
  - contradiction.
Qed.

Lemma scrape_aeris_try_columns url loc w t :
  fst (scrape_aeris_try url loc w) = Ok t ->
  columns t = AERIS_COLUMNS ++ ["WS"].
Proof.
  unfold scrape_aeris_try. unfold bind at 1.
  destruct (call (QRequest url) w) as [[u|e|] w1]; try discriminate.
  unfold bind at 1.
  destruct (call_frame (QJson url) w1) as [[aeris|e|] w2]; try discriminate.
  unfold bind at 1, pd_select.
  destruct (find _ AERIS_COLUMNS); simpl; try discriminate.
  intros H. injection H as <-. reflexivity.
Qed.

(** Every Aeris job is in the tables or on [FAILED_URLS_AERIS]. *)
Lemma scrape_aeris_loop_accounts url_loc : forall return_data w,
  exists dfs,
    fst (scrape_aeris_loop return_data url_loc w) = Ok (return_data ++ dfs) /\
    length dfs +
      length (FAILED_URLS_AERIS (snd (scrape_aeris_loop return_data url_loc w))) =
      length url_loc + length (FAILED_URLS_AERIS w) /\
    Forall (fun df => columns df = AERIS_COLUMNS ++ ["WS"]) dfs.
Proof.
  induction url_loc as [|[url loc] url_loc IH]; intros return_data w.
  - exists []. simpl. rewrite app_nil_r. auto.
  - rewrite scrape_aeris_loop_cons.
    pose proof (scrape_aeris_try_failed url loc w) as Hsame.
    pose proof (scrape_aeris_try_columns url loc w) as Hcols.
    pose proof (scrape_aeris_try_uncut url loc w) as Hcut.
    destruct (scrape_aeris_try url loc w) as [[aeris|e|] w1]; simpl in *.
    + destruct (IH (return_data ++ [aeris]) w1) as (dfs & Hres & Hlen & Hall).
      exists (aeris :: dfs). rewrite Hres, <- app_assoc. simpl.
      rewrite Hsame in Hlen.
      split; [reflexivity|]. split; [lia|].
      constructor; [apply Hcols; reflexivity | exact Hall].
    + destruct (IH return_data
                  (set_FAILED_URLS_AERIS
                     (FAILED_URLS_AERIS w1 ++ [(url, loc, "Aeris")]) w1))
        as (dfs & Hres & Hlen & Hall).
      exists dfs. rewrite Hres. split; [reflexivity|].
      simpl in Hlen. rewrite length_app in Hlen. simpl in Hlen.
      rewrite <- Hsame.
      split; [lia | exact Hall].
    + contradiction.
Qed.

(** X3.  [scrape_aeris] never raises and accounts for every job it is given:
    each [(url, loc)] adds one table to the list it returns or one tuple to
    [FAILED_URLS_AERIS], never both and never neither.  Every table it
    returns has the 25 listed columns followed by [WS], in that order,
    whatever else the API sent; [FAILED_URLS] is left as it is. *)
Theorem scrape_aeris_accounts_for_every_job :
  forall (url_loc : list (string * string)) (w : world),
    exists dfs,
      fst (scrape_aeris url_loc w) = Ok dfs /\
      length dfs + length (FAILED_URLS_AERIS (snd (scrape_aeris url_loc w))) =
        length url_loc + length (FAILED_URLS_AERIS w) /\
      Forall (fun df => columns df = AERIS_COLUMNS ++ ["WS"]) dfs /\
      FAILED_URLS (snd (scrape_aeris url_loc w)) = FAILED_URLS w.
Proof.
  intros url_loc w.
  destruct (scrape_aeris_loop_accounts url_loc [] w) as (dfs & Hres & Hlen & Hall).
  exists dfs. unfold scrape_aeris. split; [exact Hres|].
  split; [exact Hlen|]. split; [exact Hall|].
  pose proof (scrape_aeris_loop_beside_aeris url_loc [] w) as Hsame.
  unfold unchanged, beside_aeris in Hsame. simpl in Hsame. congruence.
Qed.

(* ===================================================================== *)
(** ** What the failure lists hold *)
(* ===================================================================== *)

Lemma same_failed_may_fail (P : failed_url -> Prop) w w' :
  FAILED_URLS w' = FAILED_URLS w -> may_fail P w w'.
Proof. intros Heq y Hy. left. rewrite <- Heq. exact Hy. Qed.

Lemma same_failed_aeris_may_fail (P : failed_url -> Prop) w w' :
  FAILED_URLS_AERIS w' = FAILED_URLS_AERIS w -> may_fail_aeris P w w'.
Proof. intros Heq y Hy. left. rewrite <- Heq. exact Hy. Qed.

(** The first pass puts on [FAILED_URLS] only page jobs of the roster. *)
Lemma first_pass_may_fail loc_df :
  steps (may_fail (job_of loc_df)) (first_pass loc_df).
Proof.
  unfold first_pass.
  apply steps_bind; [|intros d].
  { eapply steps_weaken; [|apply (initialize_driver_beside_browsing "chrome")].
    intros w w' H. apply same_failed_may_fail.
    unfold unchanged, beside_browsing in H. simpl in H. congruence. }
  apply steps_bind; [apply submit_all_may_fail|intros fs].
  apply steps_bind; [|intros a; steps_tac].
  eapply steps_weaken; [|apply scrape_aeris_loop_beside_aeris].
  intros w w' H. apply same_failed_may_fail.
  unfold unchanged, beside_aeris in H. simpl in H. congruence.
Qed.

(** The first pass puts on [FAILED_URLS_AERIS] only Aeris jobs of the
    roster. *)
Lemma first_pass_may_fail_aeris loc_df :
  steps (may_fail_aeris (aeris_job_of (aeris_jobs loc_df))) (first_pass loc_df).
Proof.
  unfold first_pass.
  apply steps_bind; [|intros d].
  { eapply steps_weaken; [|apply (initialize_driver_beside_browsing "chrome")].
    intros w w' H. apply same_failed_aeris_may_fail.
    unfold unchanged, beside_browsing in H. simpl in H. congruence. }
  apply steps_bind; [|intros fs].
  { eapply steps_weaken; [|apply submit_all_beside_pages].
    intros w w' H. apply same_failed_aeris_may_fail.
    unfold unchanged, beside_pages in H. simpl in H. congruence. }
  apply steps_bind; [apply scrape_aeris_loop_may_fail|intros a; steps_tac].
Qed.

(** One iteration of the second loop, after the [pop]: the job comes back on
    [FAILED_URLS_AERIS], as an ['Aeris'] tuple, or nothing does. *)
Lemma rescrape_aeris_once_may_fail url loc source (res : list aeris_result) :
  steps (may_fail_aeris (eq (url, loc, "Aeris")))
        (try_except
           (rescrape_result <- scrape_aeris [(url, loc)] ;;
            ret (res ++ [AerisList rescrape_result]))
           (fun exc => note_failed_url url loc source ;;; ret res)).
Proof.
  apply steps_try_except.
  - apply steps_bind; [|intros dfs; apply steps_ret].
    intros w0 y Hy.
    destruct (scrape_aeris_loop_may_fail [(url, loc)] [] w0 y Hy)
      as [Hin|(u & l & [Heq|[]] & ->)]; [left; exact Hin|].
    right. injection Heq as <- <-. reflexivity.
  - intros exc. apply steps_bind; [|intros u; apply steps_ret].
    intros w0 y. rewrite note_failed_url_appends. simpl.
    intros Hy. left. exact Hy.
Qed.

Lemma rescrape_loop_aeris_keeps (Q : failed_url -> Prop) fuel :
  (forall u l s, Q (u, l, s) -> Q (u, l, "Aeris")) ->
  forall rescrape_count res,
    steps (keeps_aeris_in Q) (rescrape_loop_aeris fuel rescrape_count res).
Proof.
  intros Hclosed.
  induction fuel as [|fuel IH]; intros rescrape_count res w;
    cbn [rescrape_loop_aeris];
    destruct (FAILED_URLS_AERIS w) as [|[[url loc] source] failed'] eqn:Hlist;
    try apply (rel_refl (keeps_aeris_in Q));
    destruct (rescrape_count <? 100)%nat;
    try apply (rel_refl (keeps_aeris_in Q)).
  pose proof (rescrape_aeris_once_may_fail url loc source res
                (set_FAILED_URLS_AERIS failed' w)) as Hbody.
  unfold bind at 1.
  match goal with
  | |- context [try_except ?c ?h ?w1] =>
      destruct (try_except c h w1) as [[res'|e|] w2]
  end; cbn [snd] in *; intros HQ.
  1: apply IH.
  all: intros y Hy; destruct (Hbody y Hy) as [Hin|<-];
    [ apply HQ; rewrite Hlist; right; exact Hin
    | apply (Hclosed url loc source); apply HQ; rewrite Hlist; left; reflexivity ].
Qed.

Lemma main_keeps_aeris_in (Q : failed_url -> Prop) fuel fuel_aeris loc_df w :
  (forall u l s, Q (u, l, s) -> Q (u, l, "Aeris")) ->
  keeps_aeris_in Q (snd (first_pass loc_df w))
                   (snd (main fuel fuel_aeris loc_df w)).
Proof.
  intros Hclosed. apply main_after_first_pass.
  - intros f c res. eapply steps_weaken; [|apply rescrape_loop_beside_pages].
    intros w1 w2 H HQ y Hy. apply HQ.
    unfold unchanged, beside_pages in H. simpl in H.
    assert (Heq : FAILED_URLS_AERIS w2 = FAILED_URLS_AERIS w1) by congruence.
    rewrite <- Heq. exact Hy.
  - intros f c res. apply rescrape_loop_aeris_keeps. exact Hclosed.
  - intros res aeris. eapply steps_weaken; [|apply save_outputs_beside_saving].
    intros w1 w2 H HQ y Hy. apply HQ.
    unfold unchanged, beside_saving in H. simpl in H.
    assert (Heq : FAILED_URLS_AERIS w2 = FAILED_URLS_AERIS w1) by congruence.
    rewrite <- Heq. exact Hy.
Qed.

(** X4.  Where the run stands after any number of iterations of its loops,
    and at its end, the failure lists hold jobs of the roster and nothing
    else: every tuple on [FAILED_URLS] is the URL of a page-rendered source in
    some row of the roster, the weather station of that row and the name of
    that source, and every tuple on [FAILED_URLS_AERIS] is the Aeris URL and
    the weather station of some row, with ['Aeris'].  So the [match source]
    of the first loop always finds its case, and no Aeris job comes on
    [FAILED_URLS]. *)
Theorem failure_lists_hold_roster_jobs :
  forall (fuel fuel_aeris : nat) (loc_df : list roster_row)
         (outside : query -> nat -> answer),
    Forall (job_of loc_df)
           (FAILED_URLS (snd (main fuel fuel_aeris loc_df (start outside)))) /\
    Forall (aeris_job_of (aeris_jobs loc_df))
           (FAILED_URLS_AERIS (snd (main fuel fuel_aeris loc_df (start outside)))).
Proof.
  intros fuel fuel_aeris loc_df outside. split; apply Forall_forall; intros y Hy.
  - apply (main_failed_within fuel fuel_aeris loc_df (start outside)) in Hy.
    destruct (first_pass_may_fail loc_df (start outside) y Hy) as [[]|Hjob].
    exact Hjob.
  - revert y Hy.
    apply (main_keeps_aeris_in (aeris_job_of (aeris_jobs loc_df))
             fuel fuel_aeris loc_df (start outside)).
    + intros u l s (url & loc & Hin & Heq). injection Heq as -> -> _.
      exists url, loc. split; [exact Hin | reflexivity].
    + intros y Hy.
      destruct (first_pass_may_fail_aeris loc_df (start outside) y Hy)
        as [[]|Hjob].
      exact Hjob.
Qed.

Lemma rescrape_loop_aeris_exit fuel : forall res w res' w',
  rescrape_loop_aeris fuel 0 res w = (Ok res', w') ->
  FAILED_URLS_AERIS w' = [].
Proof.
  induction fuel as [|fuel IH]; intros res w res' w'; cbn [rescrape_loop_aeris];
    destruct (FAILED_URLS_AERIS w) as [|[[url loc] source] failed'] eqn:Hlist;
    try (intros H; injection H as _ <-; exact Hlist);
    cbn [Nat.ltb Nat.leb]; try discriminate.
  unfold bind at 1.
  match goal with
  | |- context [try_except ?c ?h ?w1] =>
      destruct (try_except c h w1) as [[res1|e|] w2]
  end; try discriminate.
  apply IH.
Qed.

(** X5.  The second loop ends only on an empty list: its counter stays at 0,
    so whenever it returns, no Aeris job is left on [FAILED_URLS_AERIS]. *)
Theorem rescrape_loop_aeris_ends_empty :
  forall (fuel : nat) (res : list aeris_result) (w : world)
         (res' : list aeris_result),
    fst (rescrape_loop_aeris fuel 0 res w) = Ok res' ->
    FAILED_URLS_AERIS (snd (rescrape_loop_aeris fuel 0 res w)) = [].
Proof.
  intros fuel res w res' Hexit.
  destruct (rescrape_loop_aeris fuel 0 res w) as [r w'] eqn:Hrun.
  simpl in *. subst r. exact (rescrape_loop_aeris_exit fuel res w res' w' Hrun).
Qed.

Lemma rescrape_loop_aeris_ends_empty_witness :
  FAILED_URLS_AERIS
    (snd (rescrape_loop_aeris 100 0 []
            (snd (first_pass [miami] (start aeris_down_once))))) = [].
Proof.
  eapply (rescrape_loop_aeris_ends_empty 100 []
            (snd (first_pass [miami] (start aeris_down_once)))).
  vm_compute. reflexivity.
Defined.

(* ===================================================================== *)
(** ** Browser launches *)
(* ===================================================================== *)

Lemma call_launches q : q <> QLaunch -> steps (unchanged launches) (call q).
Proof.
  intros Hne w. cbv beta iota zeta delta [call ask bind].
  destruct_err; simpl; unfold launches; simpl;
    rewrite count_occ_snoc_other by exact Hne; reflexivity.
Qed.

Lemma call_frame_launches q :
  q <> QLaunch -> steps (unchanged launches) (call_frame q).
Proof.
  intros Hne w. cbv beta iota zeta delta [call_frame ask bind].
  destruct_err; simpl; unfold launches; simpl;
    rewrite count_occ_snoc_other by exact Hne; reflexivity.
Qed.

Ltac launches_tac :=
  repeat first
    [ steps_step
    | apply call_launches; discriminate
    | apply call_frame_launches; discriminate ];
  try solve [intros ?; reflexivity].

Lemma initialize_driver_chrome_launches w :
  launches (snd (initialize_driver "chrome" w)) = S (launches w).
Proof.
  rewrite initialize_driver_chrome. unfold launches.
  destruct (err (next_launch w)); simpl; apply count_occ_snoc.
Qed.

Lemma scrape_page_try_launches s url loc w :
  launches (snd (scrape_page_try s url loc w)) = S (launches w).
Proof.
  rewrite <- initialize_driver_chrome_launches.
  destruct s; simpl;
    unfold scrape_wunderground_try, scrape_weather_gov_try,
      scrape_weather_com_try;
    unfold bind at 1;
    destruct (initialize_driver "chrome" w) as [[d|e|] w1]; simpl;
    try reflexivity;
    match goal with
    | |- launches (snd (?c w1)) = _ =>
        assert (Hrest : steps (unchanged launches) c);
        [| exact (Hrest w1)]
    end;
    unfold get_html_object, click_next_page_wunderground, pd_concat;
    launches_tac.
Qed.

Lemma scrape_page_launches s url loc w :
  launches (snd (scrape_page s url loc w)) = S (launches w).
Proof.
  rewrite scrape_page_unfold.
  pose proof (scrape_page_try_launches s url loc w) as Htry.
  destruct (scrape_page_try s url loc w) as [[df|e|] w1]; exact Htry.
Qed.

Lemma scrape_aeris_loop_launches url_loc : forall return_data,
  steps (unchanged launches) (scrape_aeris_loop return_data url_loc).
Proof.
  induction url_loc as [|[url loc] url_loc IH]; intros return_data; simpl;
    [apply steps_ret|].
  apply steps_bind; [|intros a; apply IH].
  apply steps_try_except.
  - unfold scrape_aeris_try, pd_select. launches_tac.
  - intros e. apply steps_bind; [|intros u; apply steps_ret].
    intros w. rewrite note_failed_url_aeris_appends. reflexivity.
Qed.

Lemma launches_bind n m A B (c : M A) (k : A -> M B) :
  launches_at_most n c -> (forall a, launches_at_most m (k a)) ->
  launches_at_most (n + m) (bind c k).
Proof.
  intros Hc Hk w. unfold bind. specialize (Hc w).
  destruct (c w) as [[a|e|] w1]; simpl in *; try lia.
  specialize (Hk a w1). lia.
Qed.

Lemma launches_try_except n m A (c : M A) (h : exn -> M A) :
  launches_at_most n c -> (forall e, launches_at_most m (h e)) ->
  launches_at_most (n + m) (try_except c h).
Proof.
  intros Hc Hh w. unfold try_except. specialize (Hc w).
  destruct (c w) as [[a|e|] w1]; simpl in *; try lia.
  specialize (Hh e w1). lia.
Qed.

Lemma launches_none A (c : M A) :
  steps (unchanged launches) c -> launches_at_most 0 c.
Proof. intros Hc w. specialize (Hc w). simpl in Hc. lia. Qed.

Lemma launches_weaken n m A (c : M A) :
  n <= m -> launches_at_most n c -> launches_at_most m c.
Proof. intros Hle Hc w. specialize (Hc w). lia. Qed.

Lemma launches_scrape_page s url loc :
  launches_at_most 1 (scrape_page s url loc).
Proof. intros w. rewrite scrape_page_launches. lia. Qed.

Lemma launches_submit n A (c : M A) :
  launches_at_most n c -> launches_at_most n (submit c).
Proof.
  intros Hc w. unfold submit. specialize (Hc w).
  destruct (c w) as [[a|e|] w1]; exact Hc.
Qed.

Lemma launches_submit_all urls : forall fs,
  launches_at_most (3 * length urls) (submit_all urls fs).
Proof.
  induction urls as [|r urls IH]; intros fs.
  - intros w. simpl. lia.
  - cbn [submit_all].
    apply launches_weaken with (n := 1 + (1 + (1 + 3 * length urls)));
      [simpl; lia|].
    apply launches_bind;
      [apply launches_submit, (launches_scrape_page Wunderground)|intros f1].
    apply launches_bind;
      [apply launches_submit, (launches_scrape_page WeatherGov)|intros f2].
    apply launches_bind;
      [apply launches_submit, (launches_scrape_page WeatherCom)|intros f3].
    apply IH.
Qed.

Lemma launches_first_pass loc_df :
  launches_at_most (1 + 3 * length loc_df) (first_pass loc_df).
Proof.
  unfold first_pass.
  apply launches_bind; [|intros d].
  { intros w. rewrite initialize_driver_chrome_launches. lia. }
  apply launches_weaken with (n := 3 * length loc_df + 0); [lia|].
  apply launches_bind; [apply launches_submit_all|intros fs].
  apply launches_none.
  apply steps_bind; [apply scrape_aeris_loop_launches|intros a].
  steps_tac.
Qed.

Lemma launches_rescrape_one url loc source res :
  launches_at_most 1 (rescrape_one url loc source res).
Proof.
  unfold rescrape_one.
  destruct (String.eqb source "Wunderground.com").
  { apply launches_bind with (n := 1) (m := 0);
      [apply (launches_scrape_page Wunderground)|intros df].
    apply launches_none, steps_ret. }
  destruct (String.eqb source "Weather.gov").
  { apply launches_bind with (n := 1) (m := 0);
      [apply (launches_scrape_page WeatherGov)|intros df].
    apply launches_none, steps_ret. }
  destruct (String.eqb source "Weather.com").
  { apply launches_bind with (n := 1) (m := 0);
      [apply (launches_scrape_page WeatherCom)|intros df].
    apply launches_none, steps_ret. }
  apply launches_weaken with (n := 0); [lia|]. apply launches_none, steps_ret.
Qed.

(** An iteration of the first loop makes one launch at most, and the loop
    makes no more launches than it has iterations left. *)
Lemma launches_rescrape_loop fuel : forall rescrape_count res,
  launches_at_most (100 - rescrape_count)
                   (rescrape_loop fuel rescrape_count res).
Proof.
  induction fuel as [|fuel IH]; intros rescrape_count res w;
    cbn [rescrape_loop];
    destruct (FAILED_URLS w) as [|[[url loc] source] failed'];
    cbn [snd]; try lia;
    destruct (Nat.ltb_spec rescrape_count 100) as [Hlt|Hge];
    cbn [snd]; try lia.
  match goal with
  | |- context [bind ?c ?k ?w1] =>
      assert (Hbody : launches_at_most (1 + (100 - (rescrape_count + 1)))
                                       (bind c k));
      [| specialize (Hbody w1);
         change (launches w1) with (launches w) in Hbody; lia]
  end.
  apply launches_bind; [|intros res'; apply IH].
  apply launches_try_except with (n := 1) (m := 0);
    [apply launches_rescrape_one|intros exc].
  apply launches_none.
  apply steps_bind; [|intros u; apply steps_ret].
  intros w0. rewrite note_failed_url_appends. reflexivity.
Qed.

Lemma rescrape_loop_aeris_launches fuel : forall rescrape_count res,
  steps (unchanged launches) (rescrape_loop_aeris fuel rescrape_count res).
Proof.
  induction fuel as [|fuel IH]; intros rescrape_count res w;
    cbn [rescrape_loop_aeris];
    destruct (FAILED_URLS_AERIS w) as [|[[url loc] source] failed'];
    try reflexivity;
    destruct (rescrape_count <? 100)%nat; try reflexivity.
  match goal with
  | |- context [bind ?c ?k ?w1] =>
      assert (Hbody : steps (unchanged launches) (bind c k));
      [| exact (Hbody w1)]
  end.
  apply steps_bind; [|intros res'; apply IH].
  apply steps_try_except.
  - apply steps_bind; [apply scrape_aeris_loop_launches|intros dfs].
    apply steps_ret.
  - intros exc. apply steps_bind; [|intros u; apply steps_ret].
    intros w0. rewrite note_failed_url_appends. reflexivity.
Qed.

Lemma save_outputs_launches res aeris :
  steps (unchanged launches) (save_outputs res aeris).
Proof.
  unfold save_outputs, save_csv, to_csv, pd_concat, pd_getitem.
  launches_tac.
Qed.

(** X6.  Every invocation of a page scrape makes one browser launch, no
    more and no less, whether the job succeeds or fails; the Aeris queries
    and the saving of the files make none.  So a run on a roster of [n]
    locations makes at most [3 * n + 101] launches, whatever fails and
    however long its loops go on: one at start-up, three for each location
    in the first pass, and at most 100 in the first re-scraping loop. *)
Theorem run_launches_bounded :
  (forall (s : page_source) (url loc : string) (w : world),
      launches (snd (scrape_page s url loc w)) = S (launches w)) /\
  (forall (url_loc : list (string * string)) (w : world),
      launches (snd (scrape_aeris url_loc w)) = launches w) /\
  (forall (fuel fuel_aeris : nat) (loc_df : list roster_row)
          (outside : query -> nat -> answer),
      launches (snd (main fuel fuel_aeris loc_df (start outside))) <=
        3 * length loc_df + 101).
Proof.
  split; [exact scrape_page_launches|]. split.
  - intros url_loc w. exact (scrape_aeris_loop_launches url_loc [] w).
  - intros fuel fuel_aeris loc_df outside.
    assert (Hmain : launches_at_most (1 + 3 * length loc_df + (100 + 0))
                      (main fuel fuel_aeris loc_df)).
    { unfold main.
      apply launches_bind; [apply launches_first_pass|intros first].
      apply launches_bind; [apply (launches_rescrape_loop fuel 0)|intros res].
      apply launches_none.
      apply steps_bind; [apply rescrape_loop_aeris_launches|intros aeris].
      apply save_outputs_launches. }
    specialize (Hmain (start outside)).
    change (launches (start outside)) with 0 in Hmain. lia.
Qed.

(* ===================================================================== *)
(** ** What the run raises *)
(* ===================================================================== *)

Lemma unraised_ret A (a : A) : unraised (ret a).
Proof. intros w e. discriminate. Qed.

Lemma unraised_bind A B (c : M A) (k : A -> M B) :
  unraised c -> (forall a, unraised (k a)) -> unraised (bind c k).
Proof.
  intros Hc Hk w e. unfold bind. specialize (Hc w).
  destruct (c w) as [[a|e'|] w1]; simpl in *.
  - apply Hk.
  - exfalso. exact (Hc e' eq_refl).
  - discriminate.
Qed.

Lemma unraised_try_except A (c : M A) (h : exn -> M A) :
  (forall e, unraised (h e)) -> unraised (try_except c h).
Proof.
  intros Hh w e. unfold try_except.
  destruct (c w) as [[a|e'|] w1]; simpl; try discriminate. apply Hh.
Qed.

Lemma note_failed_url_unraised url loc source :
  unraised (note_failed_url url loc source).
Proof. intros w e. unfold note_failed_url. destruct (negb _); discriminate. Qed.

Lemma rescrape_loop_unraised fuel : forall rescrape_count res,
  unraised (rescrape_loop fuel rescrape_count res).
Proof.
  induction fuel as [|fuel IH]; intros rescrape_count res w e;
    cbn [rescrape_loop];
    destruct (FAILED_URLS w) as [|[[url loc] source] failed'];
    try discriminate;
    destruct (rescrape_count <? 100)%nat; try discriminate.
  apply unraised_bind; [|intros res'; apply IH].
  apply unraised_try_except. intros exc.
  apply unraised_bind; [apply note_failed_url_unraised|].
  intros u. apply unraised_ret.
Qed.

Lemma rescrape_loop_aeris_unraised fuel : forall rescrape_count res,
  unraised (rescrape_loop_aeris fuel rescrape_count res).
Proof.
  induction fuel as [|fuel IH]; intros rescrape_count res w e;
    cbn [rescrape_loop_aeris];
    destruct (FAILED_URLS_AERIS w) as [|[[url loc] source] failed'];
    try discriminate;
    destruct (rescrape_count <? 100)%nat; try discriminate.
  apply unraised_bind; [|intros res'; apply IH].
  apply unraised_try_except. intros exc.
  apply unraised_bind; [apply note_failed_url_unraised|].
  intros u. apply unraised_ret.
Qed.

Lemma save_outputs_unraised res aeris : unraised (save_outputs res aeris).
Proof.
  unfold save_outputs. apply unraised_try_except.
  intros exc. apply unraised_ret.
Qed.

Lemma submit_all_returned urls : forall fs w,
  Forall returned (weather_data_wunderground fs) ->
  Forall returned (weather_data_weather_gov fs) ->
  Forall returned (weather_data_weather_com fs) ->
  exists fs',
    fst (submit_all urls fs w) = Ok fs' /\
    Forall returned (weather_data_wunderground fs') /\
    Forall returned (weather_data_weather_gov fs') /\
    Forall returned (weather_data_weather_com fs').
Proof.
  induction urls as [|r urls IH]; intros fs w H1 H2 H3.
  - exists fs. simpl. auto.
  - rewrite submit_all_cons. cbv zeta.
    apply IH; cbn [weather_data_wunderground weather_data_weather_gov
                   weather_data_weather_com];
      apply Forall_app; split; try assumption;
      (constructor; [apply scrape_page_returns|constructor]).
Qed.

Lemma results_of_returned fs : forall w,
  Forall returned fs -> exists dfs, results_of fs w = (Ok dfs, w).
Proof.
  induction fs as [|x fs IH]; intros w Hfs.
  - exists []. reflexivity.
  - inversion Hfs as [|x' fs' [df Hx] Hrest]; subst.
    destruct (IH w Hrest) as [dfs Hdfs].
    exists (df :: dfs). cbn [results_of]. unfold bind at 1, future_result.
    unfold bind at 1. rewrite Hdfs. reflexivity.
Qed.

Lemma first_pass_returns loc_df w :
  err (next_launch w) = None -> exists first, fst (first_pass loc_df w) = Ok first.
Proof.
  intros Hlaunch. unfold first_pass. unfold bind at 1.
  rewrite initialize_driver_chrome, Hlaunch.
  unfold bind at 1.
  match goal with
  | |- context [submit_all loc_df ?fs ?w1] =>
      destruct (submit_all_returned loc_df fs w1) as (fs' & Hfs & H1 & H2 & H3)
  end; try constructor.
  match type of Hfs with
  | fst ?c = _ => destruct c as [r w2]
  end.
  simpl in Hfs. subst r.
  unfold bind at 1. unfold scrape_aeris.
  destruct (scrape_aeris_loop_returns (aeris_jobs loc_df) [] w2) as [dfs Hdfs].
  destruct (scrape_aeris_loop [] (aeris_jobs loc_df) w2) as [r w3].
  simpl in Hdfs. subst r.
  destruct (results_of_returned _ w3 H1) as [l1 Hl1].
  destruct (results_of_returned _ w3 H2) as [l2 Hl2].
  destruct (results_of_returned _ w3 H3) as [l3 Hl3].
  unfold bind at 1. rewrite Hl1.
  unfold bind at 1. rewrite Hl2.
  unfold bind at 1. rewrite Hl3.
  eexists. reflexivity.
Qed.

(** X7.  Once the roster is read, the only exception that ends a run is the
    one of the start-up driver.  When the browser starts, the run raises
    nothing, whatever the sites, the Aeris service and the disk do: every
    later failure is caught.  When the browser does not start, the run ends
    at its first statement with [UnboundLocalError] on [driver]: no job has
    run and no file is written. *)
Theorem run_raises_only_at_start_up :
  forall (fuel fuel_aeris : nat) (loc_df : list roster_row) (w : world),
    match err (next_launch w) with
    | None => forall e, fst (main fuel fuel_aeris loc_df w) <> Raise e
    | Some _ =>
        main fuel fuel_aeris loc_df w =
        (Raise (UnboundLocalError "driver"),
         set_asked (asked w ++ [QLaunch]) w)
    end.
Proof.
  intros fuel fuel_aeris loc_df w.
  destruct (err (next_launch w)) as [e0|] eqn:Hlaunch.
  - unfold main, first_pass. unfold bind at 1. unfold bind at 1.
    rewrite initialize_driver_chrome, Hlaunch. reflexivity.
  - intros e. unfold main. unfold bind at 1.
    destruct (first_pass_returns loc_df w Hlaunch) as [first Hfirst].
    destruct (first_pass loc_df w) as [r w1]. simpl in Hfirst. subst r.
    apply unraised_bind; [apply rescrape_loop_unraised|intros res].
    apply unraised_bind; [apply rescrape_loop_aeris_unraised|intros aeris].
    apply save_outputs_unraised.
Qed.

(* ===================================================================== *)
(** ** The first re-scraping loop *)
(* ===================================================================== *)

Lemma grows_refl res : grows res res.
Proof. repeat split; exists []; rewrite app_nil_r; reflexivity. Qed.

Lemma grows_trans res1 res2 res3 :
  grows res1 res2 -> grows res2 res3 -> grows res1 res3.
Proof.
  intros ([a1 Ha] & [b1 Hb] & [c1 Hc]) ([a2 Ha2] & [b2 Hb2] & [c2 Hc2]).
  repeat split.
  - exists (a1 ++ a2). rewrite Ha2, Ha, app_assoc. reflexivity.
  - exists (b1 ++ b2). rewrite Hb2, Hb, app_assoc. reflexivity.
  - exists (c1 ++ c2). rewrite Hc2, Hc, app_assoc. reflexivity.
Qed.

Lemma rescrape_one_grows url loc source res w res' :
  fst (rescrape_one url loc source res w) = Ok res' -> grows res res'.
Proof.
  unfold rescrape_one.
  destruct (String.eqb source "Wunderground.com").
  { unfold bind. destruct (scrape_wunderground url loc w) as [[df|e|] w1];
      simpl; try discriminate.
    intros H. injection H as <-. repeat split; simpl;
      first [exists [df]; reflexivity | exists []; rewrite app_nil_r; reflexivity]. }
  destruct (String.eqb source "Weather.gov").
  { unfold bind. destruct (scrape_weather_gov url loc w) as [[df|e|] w1];
      simpl; try discriminate.
    intros H. injection H as <-. repeat split; simpl;
      first [exists [df]; reflexivity | exists []; rewrite app_nil_r; reflexivity]. }
  destruct (String.eqb source "Weather.com").
  { unfold bind. destruct (scrape_weather_com url loc w) as [[df|e|] w1];
      simpl; try discriminate.
    intros H. injection H as <-. repeat split; simpl;
      first [exists [df]; reflexivity | exists []; rewrite app_nil_r; reflexivity]. }
  simpl. intros H. injection H as <-. apply grows_refl.
Qed.

Lemma rescrape_loop_grows fuel : forall rescrape_count res w res',
  fst (rescrape_loop fuel rescrape_count res w) = Ok res' -> grows res res'.
Proof.
  induction fuel as [|fuel IH]; intros rescrape_count res w res';
    cbn [rescrape_loop];
    destruct (FAILED_URLS w) as [|[[url loc] source] failed'];
    try (simpl; intros H; injection H as <-; apply grows_refl);
    destruct (rescrape_count <? 100)%nat;
    try (simpl; intros H; injection H as <-; apply grows_refl);
    try discriminate.
  unfold bind at 1. unfold try_except.
  destruct (rescrape_one url loc source res (set_FAILED_URLS failed' w))
    as [[res1|e|] w1] eqn:Hone.
  - intros Hrest. apply IH in Hrest.
    apply grows_trans with (res2 := res1); [|exact Hrest].
    apply (rescrape_one_grows url loc source res (set_FAILED_URLS failed' w)).
    rewrite Hone. reflexivity.
  - unfold bind at 1.
    destruct (note_failed_url url loc source w1) as [[u|e'|] w2];
      try discriminate.
    simpl. apply IH.
  - discriminate.
Qed.

(** X8.  The first re-scraping loop ends: run with room for 100 iterations,
    it returns, whatever the sites answer and however many page jobs are on
    [FAILED_URLS].  It returns the result lists it was given with tables
    added at their ends, none removed or replaced, and it has made at most
    100 browser launches. *)
Theorem rescrape_loop_ends_and_keeps_tables :
  forall (fuel : nat) (res : page_results) (w : world),
    100 <= fuel ->
    exists res',
      fst (rescrape_loop fuel 0 res w) = Ok res' /\
      grows res res' /\
      launches (snd (rescrape_loop fuel 0 res w)) <= launches w + 100.
Proof.
  intros fuel res w Hfuel.
  pose proof (rescrape_loop_exits fuel 0 res w Hfuel) as Hcut.
  pose proof (rescrape_loop_unraised fuel 0 res w) as Hraise.
  pose proof (rescrape_loop_grows fuel 0 res w) as Hgrows.
  pose proof (launches_rescrape_loop fuel 0 res w) as Hlaunch.
  destruct (rescrape_loop fuel 0 res w) as [[res'|e|] w1]; simpl in *.
  - exists res'. split; [reflexivity|]. split; [|exact Hlaunch].
    apply Hgrows. reflexivity.
  - exfalso. exact (Hraise e eq_refl).
  - contradiction.
Qed.

Lemma rescrape_loop_ends_and_keeps_tables_witness :
  100 <= 100 /\
  exists res',
    fst (rescrape_loop 100 0 (mkResults [] [] [])
           (set_FAILED_URLS [("https://www.wunderground.com/hourly/us/fl/miami",
                              "Miami", "Wunderground.com")]
              (start wunderground_down))) = Ok res' /\
    grows (mkResults [] [] []) res' /\
    launches (snd (rescrape_loop 100 0 (mkResults [] [] [])
           (set_FAILED_URLS [("https://www.wunderground.com/hourly/us/fl/miami",
                              "Miami", "Wunderground.com")]
              (start wunderground_down)))) <=
      launches (set_FAILED_URLS [("https://www.wunderground.com/hourly/us/fl/miami",
                              "Miami", "Wunderground.com")]
              (start wunderground_down)) + 100.
Proof.
  split; [lia|].
  apply (rescrape_loop_ends_and_keeps_tables 100 (mkResults [] [] [])
           (set_FAILED_URLS [("https://www.wunderground.com/hourly/us/fl/miami",
                              "Miami", "Wunderground.com")]
              (start wunderground_down))).
  lia.
Defined.

(* ===================================================================== *)
(** ** A source without a table *)
(* ===================================================================== *)

(** The page loop leaves each source at least the tables of the first
    pass. *)
Lemma grows_lengths res res' :
  grows res res' ->
  length (weather_data_wunderground_results res) <=
    length (weather_data_wunderground_results res') /\
  length (weather_data_weather_gov_results res) <=
    length (weather_data_weather_gov_results res') /\
  length (weather_data_weather_com_results res) <=
    length (weather_data_weather_com_results res').
Proof.
  intros ([l1 H1] & [l2 H2] & [l3 H3]).
  rewrite H1, H2, H3, !length_app. lia.
Qed.

(** C5, as the code has it.  A source for which no table was collected, its
    list empty when the saving block takes it, is a hard failure:
    [pd.concat] raises on it from any world; in the saving block no file is
    tried or written for it, and nothing is tried for the sources after it.
    A failed Aeris job leaves no table, so a call of [scrape_aeris] in which
    every job failed returns the empty list.  A failed page job leaves the
    empty table, so after the first pass and any number of iterations of the
    first loop each page-rendered source has at least one table for each row
    of the roster, whether or not a job of it ever succeeded; its list is
    empty only on an empty roster, and then the run tries no file. *)
Theorem no_table_no_file :
  (forall (name : string) (w : world),
      save_csv name [] w = (Raise (ValueError "No objects to concatenate"), w)) /\
  (forall (res : page_results) (aeris : list aeris_result) (w : world)
          (pre post : list (string * list DataFrame))
          (job : string * list DataFrame),
      csv_attempts w = [] ->
      csv_files w = [] ->
      save_jobs res aeris = pre ++ job :: post ->
      snd job = [] ->
      ~ In (fst job) (csv_attempts (snd (save_outputs res aeris w))) /\
      (forall df,
          ~ In (fst job, df) (csv_files (snd (save_outputs res aeris w)))) /\
      (forall later, In later post ->
         ~ In (fst later) (csv_attempts (snd (save_outputs res aeris w))))) /\
  (forall (url_loc : list (string * string)) (w : world),
      length (FAILED_URLS_AERIS (snd (scrape_aeris url_loc w))) =
        length (FAILED_URLS_AERIS w) + length url_loc ->
      fst (scrape_aeris url_loc w) = Ok []) /\
  (forall (loc_df : list roster_row) (w : world) (res : page_results)
          (aeris : list aeris_result) (w1 : world) (fuel : nat)
          (res' : page_results),
      first_pass loc_df w = (Ok (res, aeris), w1) ->
      fst (rescrape_loop fuel 0 res w1) = Ok res' ->
      length loc_df <= length (weather_data_wunderground_results res') /\
      length loc_df <= length (weather_data_weather_gov_results res') /\
      length loc_df <= length (weather_data_weather_com_results res')) /\
  (forall (fuel fuel_aeris : nat) (outside : query -> nat -> answer),
      csv_attempts (snd (main fuel fuel_aeris [] (start outside))) = []).
Proof.
  split; [reflexivity|]. split; [|split; [|split]].
  - intros res aeris w pre post job Hattempts0 Hfiles0 Hjobs Hnone.
    destruct (save_outputs_files res aeris w Hattempts0 Hfiles0)
      as [Hattempts Hfiles].
    pose proof (save_jobs_names res aeris) as Hnames. rewrite Hjobs in Hnames.
    split; [|split].
    + rewrite Hattempts, Hjobs. intros Hin.
      apply (tried_in w pre job post Hnames) in Hin as [_ Hne]. exact (Hne Hnone).
    + intros df. rewrite Hfiles, Hjobs. intros Hin.
      apply (written_in w pre job post df Hnames) in Hin as (_ & Hne & _).
      exact (Hne Hnone).
    + intros later Hlater.
      apply (save_raises_skips res aeris w pre job post later
               Hattempts0 Hfiles0 Hjobs); [|exact Hlater].
      unfold save_raises. rewrite Hnone. reflexivity.
  - intros url_loc w Hall.
    destruct (scrape_aeris_loop_accounts url_loc [] w) as (dfs & Hres & Hlen & _).
    unfold scrape_aeris in *. rewrite Hres. f_equal.
    rewrite Hall in Hlen. destruct dfs; [reflexivity|simpl in Hlen; lia].
  - intros loc_df w res aeris w1 fuel res' Hfirst Hloop.
    destruct (first_pass_lengths loc_df w res aeris w1 Hfirst) as (H1 & H2 & H3).
    destruct (grows_lengths res res' (rescrape_loop_grows fuel 0 res w1 res' Hloop))
      as (G1 & G2 & G3).
    lia.
  - intros fuel fuel_aeris outside.
    unfold main, first_pass. unfold bind at 1. unfold bind at 1.
    rewrite initialize_driver_chrome.
    destruct (err (next_launch (start outside))); [reflexivity|].
    destruct fuel, fuel_aeris; reflexivity.
Qed.

(** The saving block with no table for Weather.gov: the Wunderground file is
    written, no Weather.gov file is tried or written, and nothing is tried for
    Weather.com and Aeris, which have their tables. *)
Lemma no_table_no_file_witness :
  ~ In (fst (weather_gov_csv, @nil DataFrame))
       (csv_attempts
          (snd (save_outputs
                  (mkResults [set_column page_sample "WS" "KMIA"] []
                             [set_column page_sample "WS" "KMIA"])
                  [AerisFrame (set_column aeris_sample "WS" "KMIA")]
                  (start all_fine)))) /\
  (forall df,
      ~ In (fst (weather_gov_csv, @nil DataFrame), df)
           (csv_files
              (snd (save_outputs
                      (mkResults [set_column page_sample "WS" "KMIA"] []
                                 [set_column page_sample "WS" "KMIA"])
                      [AerisFrame (set_column aeris_sample "WS" "KMIA")]
                      (start all_fine))))) /\
  (forall later,
      In later [(weather_com_csv, [set_column page_sample "WS" "KMIA"]);
                (aeris_csv, [set_column aeris_sample "WS" "KMIA"])] ->
      ~ In (fst later)
           (csv_attempts
              (snd (save_outputs
                      (mkResults [set_column page_sample "WS" "KMIA"] []
                                 [set_column page_sample "WS" "KMIA"])
                      [AerisFrame (set_column aeris_sample "WS" "KMIA")]
                      (start all_fine))))).
Proof.
  apply (proj1 (proj2 no_table_no_file)
           (mkResults [set_column page_sample "WS" "KMIA"] []
                      [set_column page_sample "WS" "KMIA"])
           [AerisFrame (set_column aeris_sample "WS" "KMIA")]
           (start all_fine)
           [(wunderground_csv, [set_column page_sample "WS" "KMIA"])]
           [(weather_com_csv, [set_column page_sample "WS" "KMIA"]);
            (aeris_csv, [set_column aeris_sample "WS" "KMIA"])]
           (weather_gov_csv, [])).
  - reflexivity.
  - reflexivity.
  - reflexivity.
  - reflexivity.
Defined.

(** C5 fails for a page-rendered source: no Wunderground page ever parses,
    the job fails in the first pass and in each of the 100 iterations of the
    first loop and is still on [FAILED_URLS] at the end, and yet the
    Wunderground file is written, from tables without rows or columns. *)
Lemma empty_file_written_example :
  (forall url n, err (wunderground_down (QParse "Wunderground.com" url) n) <> None) /\
  fst (main 100 100 [miami] (start wunderground_down)) = Ok tt /\
  FAILED_URLS (snd (main 100 100 [miami] (start wunderground_down))) =
    [(wunderground_url miami, "KMIA", "Wunderground.com")] /\
  csv_files (snd (main 100 100 [miami] (start wunderground_down))) =
    [(wunderground_csv, pd_DataFrame)].
Proof.
  split; [intros url n; discriminate|].
  split; [vm_compute; reflexivity|].
  split; vm_compute; reflexivity.
Qed.

(* ===================================================================== *)
(** ** The number patterns of the Wunderground parser *)
(* ===================================================================== *)

Lemma all_chars_app p (s1 s2 : string) :
  all_chars p (s1 ++ s2) = all_chars p s1 && all_chars p s2.
Proof.
  induction s1 as [|c s1 IH]; simpl; [reflexivity|].
  rewrite IH, andb_assoc. reflexivity.
Qed.

Lemma all_chars_digits_or_dots s :
  all_chars is_digit s = true -> all_chars is_digit_or_dot s = true.
Proof.
  induction s as [|c s IH]; simpl; [reflexivity|].
  intros H. apply andb_prop in H as [Hc Hs].
  rewrite (IH Hs). unfold is_digit_or_dot. rewrite Hc. reflexivity.
Qed.

Lemma span_digits_spec s :
  s = (fst (span_digits s) ++ snd (span_digits s))%string /\
  all_chars is_digit (fst (span_digits s)) = true /\
  stops_at is_digit (snd (span_digits s)) = true.
Proof.
  induction s as [|c s (Heq & Hall & Hstop)]; simpl; [auto|].
  destruct (is_digit c) eqn:Hc.
  - destruct (span_digits s) as [digits rest]; simpl in *.
    rewrite Hc, Hall. rewrite <- Heq. auto.
  - simpl. rewrite Hc. auto.
Qed.

Lemma span_digits_rest_length s :
  String.length (snd (span_digits s)) <= String.length s.
Proof.
  induction s as [|c s IH]; simpl; [lia|].
  destruct (is_digit c); [|simpl; lia].
  destruct (span_digits s) as [digits rest]; simpl in *. lia.
Qed.

Lemma dot_groups_spec fuel : forall s,
  String.length s <= fuel ->
  stops_at is_digit s = true ->
  exists rest,
    s = (dot_groups fuel s ++ rest)%string /\
    all_chars is_digit_or_dot (dot_groups fuel s) = true /\
    stops_at is_digit_or_dot rest = true.
Proof.
  induction fuel as [|fuel IH]; intros s Hlen Hstop.
  - destruct s; simpl in Hlen; [|lia]. exists EmptyString. auto.
  - destruct s as [|c s]; [exists EmptyString; auto|].
    cbn [dot_groups]. simpl in Hstop, Hlen.
    destruct (Ascii.eqb c ".") eqn:Hdot.
    + destruct (span_digits_spec s) as (Heq & Hall & Hstop').
      pose proof (span_digits_rest_length s) as Hrest.
      destruct (span_digits s) as [digits rest]; simpl in *.
      destruct (IH rest) as (rest' & Heq' & Hall' & Hstop''); [lia|exact Hstop'|].
      exists rest'. split; [|split].
      * rewrite Heq at 1. rewrite Heq' at 1.
        simpl. f_equal. clear. induction digits as [|d digits IHd]; simpl;
          [reflexivity|]. f_equal. exact IHd.
      * simpl. unfold is_digit_or_dot at 1. rewrite Hdot, orb_true_r. simpl.
        rewrite all_chars_app, Hall', (all_chars_digits_or_dots _ Hall).
        reflexivity.
      * exact Hstop''.
    + exists (String c s). simpl. split; [reflexivity|]. split; [reflexivity|].
      unfold is_digit_or_dot. rewrite Hdot, orb_false_r. exact Hstop.
Qed.

(** X9.  What the Wunderground parser keeps of a cell.  The pattern of the
    temperature, the percentages, the dew point and the wind keeps the
    longest run of digits at the head of the text, and the pattern of the
    amount and of the pressure the longest run of digits and dots: the text
    is what is kept followed by a rest that is empty or starts with another
    character.  So what the first pattern keeps is the empty text exactly
    when the cell is empty or starts with something that is not a digit (a
    minus sign, for one), and what the second keeps is the empty text
    exactly when the cell is empty or starts with something that is neither
    a digit nor a dot. *)
Theorem number_patterns_keep_longest_prefix :
  forall s : string,
    (exists rest,
        s = (leading_digits s ++ rest)%string /\
        all_chars is_digit (leading_digits s) = true /\
        stops_at is_digit rest = true) /\
    (exists rest,
        s = (leading_decimal s ++ rest)%string /\
        all_chars is_digit_or_dot (leading_decimal s) = true /\
        stops_at is_digit_or_dot rest = true) /\
    (leading_digits s = EmptyString <-> stops_at is_digit s = true) /\
    (leading_decimal s = EmptyString <-> stops_at is_digit_or_dot s = true).
Proof.
  intros s. split; [|split; [|split]].
  - exists (snd (span_digits s)). exact (span_digits_spec s).
  - unfold leading_decimal.
    destruct (span_digits_spec s) as (Heq & Hall & Hstop).
    destruct (span_digits s) as [digits rest]; simpl in *.
    destruct (dot_groups_spec (String.length rest) rest (le_n _) Hstop)
      as (rest' & Heq' & Hall' & Hstop').
    exists rest'. split; [|split].
    + rewrite Heq at 1. rewrite Heq' at 1.
      clear. induction digits as [|d digits IHd]; simpl; [reflexivity|].
      f_equal. exact IHd.
    + rewrite all_chars_app, Hall', (all_chars_digits_or_dots _ Hall).
      reflexivity.
    + exact Hstop'.
  - unfold leading_digits. destruct s as [|c s]; simpl; [tauto|].
    destruct (is_digit c); simpl.
    + destruct (span_digits s); simpl. split; discriminate.
    + tauto.
  - unfold leading_decimal. destruct s as [|c s]; [simpl; tauto|].
    cbn [span_digits stops_at]. unfold is_digit_or_dot.
    destruct (is_digit c) eqn:Hdigit.
    + destruct (span_digits s) as [digits rest]. cbn. split; discriminate.
    + cbn [String.length dot_groups orb].
      destruct (Ascii.eqb c ".").
      * destruct (span_digits s) as [digits rest]. cbn. split; discriminate.
      * cbn. tauto.
Qed.

(* ===================================================================== *)
(** ** The dates of the Weather.gov parser *)
(* ===================================================================== *)

Section FillDateFacts.

Variable year : string.
Variable day_first : string -> option string.

Lemma fill_date_length dates : forall start_date out,
  fill_date_weather_gov year day_first dates start_date = Some out ->
  length out = length dates.
Proof.
  induction dates as [|d dates IH]; intros start_date out Hfill;
    cbn [fill_date_weather_gov] in Hfill.
  - injection Hfill as <-. reflexivity.
  - destruct (negb (d =? "")).
    + destruct (day_first (d ++ "/" ++ year)) as [fill_date|]; [|discriminate].
      destruct (fill_date_weather_gov year day_first dates fill_date) as [out'|]
        eqn:Hrest; [|discriminate].
      injection Hfill as <-. simpl. f_equal. exact (IH _ _ Hrest).
    + destruct (fill_date_weather_gov year day_first dates start_date) as [out'|]
        eqn:Hrest; [|discriminate].
      injection Hfill as <-. simpl. f_equal. exact (IH _ _ Hrest).
Qed.

Lemma fill_date_entries dates : forall start_date out,
  fill_date_weather_gov year day_first dates start_date = Some out ->
  forall i d, nth_error dates i = Some d ->
    nth_error out i =
    if String.eqb d "" then
      match i with
      | 0 => Some start_date
      | S j => nth_error out j
      end
    else day_first (d ++ "/" ++ year).
Proof.
  induction dates as [|d0 dates IH]; intros start_date out Hfill i d Hd.
  - destruct i; discriminate.
  - cbn [fill_date_weather_gov] in Hfill.
    destruct (d0 =? "") eqn:Hd0; cbn [negb] in Hfill.
    + destruct (fill_date_weather_gov year day_first dates start_date) as [out'|]
        eqn:Hrest; [|discriminate].
      injection Hfill as <-.
      destruct i as [|j]; cbn [nth_error] in *.
      * injection Hd as <-. rewrite Hd0. reflexivity.
      * pose proof (IH _ _ Hrest j d Hd) as Hj.
        destruct (d =? ""); [|exact Hj].
        destruct j; exact Hj.
    + destruct (day_first (d0 ++ "/" ++ year)) as [fill_date|] eqn:Hday;
        [|discriminate].
      destruct (fill_date_weather_gov year day_first dates fill_date) as [out'|]
        eqn:Hrest; [|discriminate].
      injection Hfill as <-.
      destruct i as [|j]; cbn [nth_error] in *.
      * injection Hd as <-. rewrite Hd0. symmetry. exact Hday.
      * pose proof (IH _ _ Hrest j d Hd) as Hj.
        destruct (d =? ""); [|exact Hj].
        destruct j; exact Hj.
Qed.

Lemma fill_date_fails dates : forall start_date,
  fill_date_weather_gov year day_first dates start_date = None <->
  exists d, In d dates /\ d <> "" /\ day_first (d ++ "/" ++ year) = None.
Proof.
  induction dates as [|d0 dates IH]; intros start_date;
    cbn [fill_date_weather_gov].
  - split; [discriminate|]. intros (d & [] & _).
  - destruct (String.eqb_spec d0 "") as [Hd0|Hd0]; cbn [negb].
    + destruct (fill_date_weather_gov year day_first dates start_date) as [out'|]
        eqn:Hrest; cbn [option_map].
      * split; [discriminate|].
        intros (d & [<-|Hin] & Hne & Hday); [contradiction|].
        assert (Hnone : fill_date_weather_gov year day_first dates start_date
                        = None) by (apply IH; exists d; auto).
        congruence.
      * split; [|reflexivity]. intros _.
        apply IH in Hrest as (d & Hin & Hne & Hday). exists d.
        split; [right; exact Hin|auto].
    + destruct (day_first (d0 ++ "/" ++ year)) as [fill_date|] eqn:Hday.
      * destruct (fill_date_weather_gov year day_first dates fill_date)
          as [out'|] eqn:Hrest; cbn [option_map].
        -- split; [discriminate|].
           intros (d & [<-|Hin] & Hne & Hday'); [congruence|].
           assert (Hnone : fill_date_weather_gov year day_first dates fill_date
                           = None) by (apply IH; exists d; auto).
           congruence.
        -- split; [|reflexivity]. intros _.
           apply IH in Hrest as (d & Hin & Hne & Hday'). exists d.
           split; [right; exact Hin|auto].
      * split; [|reflexivity]. intros _. exists d0.
        split; [left; reflexivity|auto].
Qed.

Lemma last_cons (A : Type) (a d : A) l : last (a :: l) d = last l a.
Proof.
  revert a d. induction l as [|b l IH]; intros a d; [reflexivity|].
  change (last (a :: b :: l) d) with (last (b :: l) d).
  rewrite (IH b d), (IH b a). reflexivity.
Qed.

Lemma fill_date_app dates_1 : forall dates_2 start_date,
  fill_date_weather_gov year day_first (dates_1 ++ dates_2) start_date =
  match fill_date_weather_gov year day_first dates_1 start_date with
  | Some out_1 =>
      option_map (app out_1)
        (fill_date_weather_gov year day_first dates_2 (last out_1 start_date))
  | None => None
  end.
Proof.
  induction dates_1 as [|d dates_1 IH]; intros dates_2 start_date;
    cbn [app fill_date_weather_gov].
  - cbn [last].
    destruct (fill_date_weather_gov year day_first dates_2 start_date);
      reflexivity.
  - destruct (negb (d =? "")).
    + destruct (day_first (d ++ "/" ++ year)) as [fill_date|]; [|reflexivity].
      rewrite IH.
      destruct (fill_date_weather_gov year day_first dates_1 fill_date)
        as [out_1|]; [|reflexivity].
      cbn [option_map]. rewrite last_cons.
      destruct (fill_date_weather_gov year day_first dates_2 _); reflexivity.
    + rewrite IH.
      destruct (fill_date_weather_gov year day_first dates_1 start_date)
        as [out_1|]; [|reflexivity].
      cbn [option_map]. rewrite last_cons.
      destruct (fill_date_weather_gov year day_first dates_2 _); reflexivity.
Qed.

Lemma nth_error_last (A : Type) (l : list A) (d : A) n :
  length l = S n -> nth_error l n = Some (last l d).
Proof.
  revert n. induction l as [|a l IH]; intros n Hlen; [discriminate|].
  destruct l as [|b l].
  - simpl in Hlen. injection Hlen as <-. reflexivity.
  - destruct n as [|n]; [discriminate|].
    change (last (a :: b :: l) d) with (last (b :: l) d).
    simpl in Hlen. injection Hlen as Hlen. cbn [nth_error].
    apply IH. simpl. f_equal. exact Hlen.
Qed.

End FillDateFacts.

(** X10.  [fill_date_weather_gov] is a forward fill.  When it returns, the
    list has the length of the one given; an entry that was not empty is its
    date written day first, and an empty entry is a copy of the entry before
    it, of [start_date] at the head of the list.  It raises exactly when an
    entry that is not empty does not parse as a date of the year. *)
Theorem fill_date_weather_gov_forward_fill :
  forall (year : string) (day_first : string -> option string)
         (dates : list string) (start_date : string),
    (fill_date_weather_gov year day_first dates start_date = None <->
     exists d, In d dates /\ d <> "" /\ day_first (d ++ "/" ++ year)%string = None) /\
    match fill_date_weather_gov year day_first dates start_date with
    | Some out =>
        length out = length dates /\
        forall i d, nth_error dates i = Some d ->
          nth_error out i =
          if String.eqb d "" then
            match i with
            | 0 => Some start_date
            | S j => nth_error out j
            end
          else day_first (d ++ "/" ++ year)%string
    | None => True
    end.
Proof.
  intros year day_first dates start_date. split.
  - apply fill_date_fails.
  - destruct (fill_date_weather_gov year day_first dates start_date) as [out|]
      eqn:Hfill; [|exact I].
    split.
    + exact (fill_date_length year day_first dates start_date out Hfill).
    + exact (fill_date_entries year day_first dates start_date out Hfill).
Qed.

(** X11.  The Weather.gov parser fills its two date rows one after the
    other, the second from the entry 23 of the first.  When the first row
    holds 24 hours after its label, that entry is the last one, and the date
    column of the table is the forward fill of the 48 hours as one list:
    the date carries over from the first day to the second. *)
Theorem weather_gov_dates_one_fill :
  forall (year : string) (day_first : string -> option string)
         (forecast_date_1 forecast_date_2 : list string),
    length forecast_date_1 = 25 ->
    weather_gov_dates year day_first forecast_date_1 forecast_date_2 =
    fill_date_weather_gov year day_first
      (tl forecast_date_1 ++ tl forecast_date_2) "".
Proof.
  intros year day_first forecast_date_1 forecast_date_2 Hlen.
  unfold weather_gov_dates. rewrite fill_date_app.
  destruct (fill_date_weather_gov year day_first (tl forecast_date_1) "")
    as [date_1|] eqn:Hfill; [|reflexivity].
  apply fill_date_length in Hfill.
  assert (Hlen1 : length date_1 = 24).
  { rewrite Hfill. destruct forecast_date_1; simpl in *; lia. }
  rewrite (nth_error_last _ date_1 "" 23 Hlen1).
  destruct (fill_date_weather_gov year day_first (tl forecast_date_2) _);
    reflexivity.
Qed.

Lemma weather_gov_dates_one_fill_witness :
  length ("Date" :: "04/11" :: repeat "" 23) = 25 /\
  weather_gov_dates "2024" (fun s => Some (substring 3 2 s ++ "/" ++ substring 0 2 s ++ substring 5 5 s)%string)
    ("Date" :: "04/11" :: repeat "" 23) ("Date" :: "04/12" :: repeat "" 23) =
  fill_date_weather_gov "2024" (fun s => Some (substring 3 2 s ++ "/" ++ substring 0 2 s ++ substring 5 5 s)%string)
    (tl ("Date" :: "04/11" :: repeat "" 23) ++
     tl ("Date" :: "04/12" :: repeat "" 23)) "".
Proof.
  split; [reflexivity|].
  apply (weather_gov_dates_one_fill "2024"
           (fun s => Some (substring 3 2 s ++ "/" ++ substring 0 2 s ++ substring 5 5 s)%string)
           ("Date" :: "04/11" :: repeat "" 23)
           ("Date" :: "04/12" :: repeat "" 23)).
  reflexivity.
Defined.

(* ===================================================================== *)
(** ** The table of the Weather.com parser *)
(* ===================================================================== *)

Lemma weather_com_append date hour temp rpct wind wdir feel humd uvin cloud ramt
    l1 l2 l3 l5 l6 l7 l8 l9 l10 l11 l12 :
  dict_append "rain amount" ramt
    (dict_append "cloud cover" cloud
    (dict_append "uv index" uvin
    (dict_append "humidity (%)" humd
    (dict_append "feels like (C)" feel
    (dict_append "wind direction" wdir
    (dict_append "wind speed" wind
    (dict_append "rain (%)" rpct
    (dict_append "condition" temp
    (dict_append "temperature (C)" temp
    (dict_append "hour" hour
    (dict_append "date" date
       (weather_com_dict l1 l2 l3 l5 l6 l7 l8 l9 l10 l11 l12)))))))))))) =
  weather_com_dict (l1 ++ [date]) (l2 ++ [hour]) (l3 ++ [temp]) (l5 ++ [rpct])
    (l6 ++ [wind]) (l7 ++ [wdir]) (l8 ++ [feel]) (l9 ++ [humd])
    (l10 ++ [uvin]) (l11 ++ [cloud]) (l12 ++ [ramt]).
Proof. reflexivity. Qed.

Lemma weather_com_dict_lengths n l1 l2 l3 l5 l6 l7 l8 l9 l10 l11 l12 :
  Forall (fun kv : string * list string => length (snd kv) = n)
         (weather_com_dict l1 l2 l3 l5 l6 l7 l8 l9 l10 l11 l12) <->
  length l1 = n /\ length l2 = n /\ length l3 = n /\ length l5 = n /\
  length l6 = n /\ length l7 = n /\ length l8 = n /\ length l9 = n /\
  length l10 = n /\ length l11 = n /\ length l12 = n.
Proof.
  unfold weather_com_dict. rewrite !Forall_cons_iff. cbn [snd].
  split.
  - intros (H1 & H2 & H3 & _ & H5 & H6 & H7 & H8 & H9 & H10 & H11 & H12 & _).
    repeat split; assumption.
  - intros (H1 & H2 & H3 & H5 & H6 & H7 & H8 & H9 & H10 & H11 & H12).
    repeat split; try assumption. constructor.
Qed.

(** The loop keeps the shape of [forecast_data]: it adds an entry to every
    list at each [details] element, the same one to the [condition] list and
    to the [temperature (C)] list. *)
Lemma weather_com_loop_shape year re_search day_month_year content :
  forall date n l1 l2 l3 l5 l6 l7 l8 l9 l10 l11 l12 forecast_data,
    Forall (fun kv : string * list string => length (snd kv) = n)
           (weather_com_dict l1 l2 l3 l5 l6 l7 l8 l9 l10 l11 l12) ->
    weather_com_loop year re_search day_month_year content date
      (weather_com_dict l1 l2 l3 l5 l6 l7 l8 l9 l10 l11 l12) =
      inr forecast_data ->
    exists m1 m2 m3 m5 m6 m7 m8 m9 m10 m11 m12,
      forecast_data = weather_com_dict m1 m2 m3 m5 m6 m7 m8 m9 m10 m11 m12 /\
      Forall (fun kv : string * list string =>
                length (snd kv) = n + details_count content)
             forecast_data.
Proof.
  induction content as [|node content IH];
    intros date n l1 l2 l3 l5 l6 l7 l8 l9 l10 l11 l12 forecast_data Hlen Hloop.
  - cbn [weather_com_loop] in Hloop. injection Hloop as <-.
    exists l1, l2, l3, l5, l6, l7, l8, l9, l10, l11, l12.
    split; [reflexivity|]. cbn [details_count]. rewrite Nat.add_0_r.
    exact Hlen.
  - destruct node as [text|texts|]; cbn [weather_com_loop details_count] in *.
    + unfold and_then, re_group in Hloop.
      destruct (re_search ",.*" text) as [m|]; [|discriminate].
      destruct (day_month_year _) as [date'|]; [|discriminate].
      exact (IH _ _ _ _ _ _ _ _ _ _ _ _ _ _ Hlen Hloop).
    + unfold and_then, re_group, text_of in Hloop.
      destruct (hour texts) as [v_hour|]; [|discriminate].
      destruct (cond texts) as [v_cond|]; [|discriminate].
      destruct (temp texts) as [v_temp|]; [|discriminate].
      destruct (rpct texts) as [v_rpct|]; [|discriminate].
      destruct (feel texts) as [v_feel|]; [|discriminate].
      destruct (wind_content texts) as [v_wind|]; [|discriminate].
      destruct (re_search "[0-9]* km/h" v_wind) as [m_wind|]; [|discriminate].
      destruct (re_search "^[A-Z]*\s" v_wind) as [m_wdir|]; [|discriminate].
      destruct (humd texts) as [v_humd|]; [|discriminate].
      destruct (uvin texts) as [v_uvin|]; [|discriminate].
      destruct (cloud texts) as [v_cloud|]; [|discriminate].
      destruct (ramt texts) as [v_ramt|]; [|discriminate].
      cbv zeta in Hloop. rewrite weather_com_append in Hloop.
      replace (n + S (details_count content))
        with (S n + details_count content) by lia.
      refine (IH _ _ _ _ _ _ _ _ _ _ _ _ _ _ _ Hloop).
      apply weather_com_dict_lengths in Hlen.
      apply weather_com_dict_lengths.
      rewrite !length_app. cbn [length]. lia.
    + exact (IH _ _ _ _ _ _ _ _ _ _ _ _ _ _ Hlen Hloop).
Qed.

Lemma from_dict_weather_com n l1 l2 l3 l5 l6 l7 l8 l9 l10 l11 l12 :
  Forall (fun kv : string * list string => length (snd kv) = n)
         (weather_com_dict l1 l2 l3 l5 l6 l7 l8 l9 l10 l11 l12) ->
  from_dict (weather_com_dict l1 l2 l3 l5 l6 l7 l8 l9 l10 l11 l12) =
  inr (mkDataFrame
         (map fst (weather_com_dict l1 l2 l3 l5 l6 l7 l8 l9 l10 l11 l12))
         (map (fun i =>
                 map (fun kv : string * list string =>
                        (fst kv, nth i (snd kv) ""))
                     (weather_com_dict l1 l2 l3 l5 l6 l7 l8 l9 l10 l11 l12))
              (seq 0 n))).
Proof.
  intros Hlen. unfold from_dict.
  change (weather_com_dict l1 l2 l3 l5 l6 l7 l8 l9 l10 l11 l12)
    with (("date", l1) ::
          tl (weather_com_dict l1 l2 l3 l5 l6 l7 l8 l9 l10 l11 l12)) at 1.
  cbv beta iota.
  assert (Hl1 : length l1 = n)
    by (apply weather_com_dict_lengths in Hlen; tauto).
  rewrite Hl1.
  replace (forallb _ _) with true; [reflexivity|].
  symmetry. apply forallb_forall. intros kv Hin.
  rewrite Forall_forall in Hlen. rewrite (Hlen kv Hin). apply Nat.eqb_refl.
Qed.

(** X12.  In the table of the Weather.com parser the [condition] column is a
    copy of the [temperature (C)] column: the loop appends the temperature to
    both lists, and the condition it has read from the page goes nowhere.
    The table has one row for each [details] element after the heading, and
    the twelve columns of [forecast_data] followed by the time of the
    scrape. *)
Theorem weather_com_condition_is_temperature :
  forall (date_string year : string)
         (re_search : string -> string -> option string)
         (day_month_year : string -> option string)
         (text : string) (next_siblings : list sibling)
         (others : list (string * list sibling)) (df : DataFrame),
    parse_weather_data_weather_com date_string year re_search day_month_year
      ((text, next_siblings) :: others) = inr df ->
    Forall (fun r => cell_of "condition" r = cell_of "temperature (C)" r)
           (rows df) /\
    length (rows df) = details_count next_siblings /\
    columns df =
      ["date"; "hour"; "temperature (C)"; "condition"; "rain (%)";
       "wind speed"; "wind direction"; "feels like (C)"; "humidity (%)";
       "uv index"; "cloud cover"; "rain amount"; "time_scraped_est_edt"].
Proof.
  intros date_string year re_search day_month_year text next_siblings others df.
  unfold parse_weather_data_weather_com. unfold and_then at 1.
  destruct (weather_com_loop year re_search day_month_year
              (H2 text :: next_siblings) "" weather_com_forecast_data)
    as [e|forecast_data] eqn:Hloop; [discriminate|].
  change weather_com_forecast_data
    with (weather_com_dict [] [] [] [] [] [] [] [] [] [] []) in Hloop.
  apply (weather_com_loop_shape _ _ _ _ _ 0) in Hloop;
    [|apply weather_com_dict_lengths; repeat split; reflexivity].
  destruct Hloop
    as (m1 & m2 & m3 & m5 & m6 & m7 & m8 & m9 & m10 & m11 & m12 & -> & Hlen).
  cbn [details_count Nat.add] in Hlen.
  rewrite (from_dict_weather_com _ _ _ _ _ _ _ _ _ _ _ _ Hlen).
  unfold and_then. intros Hdf. injection Hdf as <-.
  split; [|split].
  - cbn [rows set_column]. rewrite map_map. apply Forall_forall.
    intros r Hr. apply in_map_iff in Hr as (i & <- & _). reflexivity.
  - cbn [rows set_column]. rewrite !length_map, length_seq. reflexivity.
  - reflexivity.
Qed.

Lemma weather_com_condition_is_temperature_witness :
  Forall (fun r => cell_of "condition" r = cell_of "temperature (C)" r)
         (rows weather_com_table) /\
  length (rows weather_com_table) =
    details_count
      [OtherNode; weather_com_hour "11 pm" "Partly Cloudy" "27°";
       H2 "Friday, April 12"; weather_com_hour "12 am" "Clear" "26°"] /\
  columns weather_com_table =
    ["date"; "hour"; "temperature (C)"; "condition"; "rain (%)";
     "wind speed"; "wind direction"; "feels like (C)"; "humidity (%)";
     "uv index"; "cloud cover"; "rain amount"; "time_scraped_est_edt"].
Proof.
  apply (weather_com_condition_is_temperature "11-04-2024 22:40" "2024"
           (fun pattern text => Some text) (fun s => Some s)
           "Thursday, April 11"
           [OtherNode; weather_com_hour "11 pm" "Partly Cloudy" "27°";
            H2 "Friday, April 12"; weather_com_hour "12 am" "Clear" "26°"]
           [] weather_com_table).
  reflexivity.
Defined.
